(** * Resilient checkpointed harvesting: retry policy, pacing and orchestration

    A shallow embedding of the retry/backoff policy, the fetchers and the
    orchestration loops of [enrich_investors.js] and of the two scrapers kept
    in [visible_investor_scraper.js] (the basic scraper and the full database
    scraper), followed by the properties of the design document that these
    functions decide.

    Conventions of the embedding.
    - JavaScript numbers that the modelled code only uses as integers
      (delays in milliseconds, counters, HTTP status codes) are [Z] or [nat];
      every value involved is far below 2^53, where doubles are exact.
    - [Math.random()] is an input: a rational [random] with [0 <= random < 1].
      The jitter computation is carried out in exact rational arithmetic.
    - A JSON object is a finite map from property names to values.
    - What the outside world does during one loop iteration (the upstream
      answers, the clock) is an explicit input of that iteration.
    - Everything the loops do that is visible from outside (sleeps, fetches,
      checkpoint saves, error logs) is appended to a trace of events.  A
      fetch is one event, with the sleeps of the retries its promise follows;
      the retries that a request timeout starts besides, which nothing
      awaits, are given by the function [unawaited] of each fetcher. *)

From Stdlib Require Import ZArith QArith Qround Lia Lqa Ascii.
From stdpp Require Import gmap strings list pretty.

Local Open Scope Z_scope.
Set Warnings "-register-all,-clear-no-such-hyp".

(** ** JavaScript values *)

(** The values [JSON.parse] can produce, plus [undefined] for absent
    properties.  Numbers are restricted to integers. *)
Inductive JsValue : Type :=
| JUndefined
| JNull
| JBool (b : bool)
| JNum (n : Z)
| JStr (s : string)
| JArr (items : list JsValue)
| JObj (fields : gmap string JsValue).

(** A plain object, as an element of a parsed JSON array of records. *)
Abbreviation JsObject := (gmap string JsValue).

(** [ToBoolean]. *)
Definition truthy (v : JsValue) : bool :=
  match v with
  | JUndefined | JNull => false
  | JBool b => b
  | JNum n => negb (n =? 0)
  | JStr s => negb (String.eqb s "")
  | JArr _ | JObj _ => true
  end.

(** [a || b]. *)
Definition js_or (a b : JsValue) : JsValue := if truthy a then a else b.

(** [o.k] on a plain object: an absent property reads as [undefined]. *)
Definition field (o : JsObject) (k : string) : JsValue :=
  default JUndefined (o !! k).

(** [v.k] on an arbitrary value.  [None] is the [TypeError] raised when [v] is
    [null] or [undefined].  Only named properties and [length] are read by
    the modelled code. *)
Definition prop (v : JsValue) (k : string) : option JsValue :=
  match v with
  | JUndefined | JNull => None
  | JObj o => Some (field o k)
  | JArr l => Some (if String.eqb k "length" then JNum (Z.of_nat (length l)) else JUndefined)
  | JStr s => Some (if String.eqb k "length" then JNum (Z.of_nat (String.length s)) else JUndefined)
  | JBool _ | JNum _ => Some JUndefined
  end.

(** [v?.k]: short-circuits to [undefined] on [null] and [undefined]. *)
Definition prop_opt (v : JsValue) (k : string) : JsValue :=
  default JUndefined (prop v k).

(** [a === b] and the [SameValueZero] test of [Set.prototype.has], on values
    that were parsed separately: primitives compare by value, arrays and
    objects by reference, and two separately parsed ones are never the same
    reference. *)
Definition strict_eq (a b : JsValue) : bool :=
  match a, b with
  | JUndefined, JUndefined | JNull, JNull => true
  | JBool x, JBool y => Bool.eqb x y
  | JNum x, JNum y => x =? y
  | JStr x, JStr y => String.eqb x y
  | _, _ => false
  end.

Definition is_primitive (v : JsValue) : bool :=
  match v with
  | JArr _ | JObj _ => false
  | _ => true
  end.

(** [new Set(ids).has(x)]. *)
Definition set_has (ids : list JsValue) (x : JsValue) : bool :=
  existsb (strict_eq x) ids.

(** [v || d] where reading [v] may have raised. *)
Definition or_default (v : option JsValue) (d : JsValue) : option JsValue :=
  (fun x => js_or x d) <$> v.

(** [v.map(f)]: a [TypeError] unless [v] is an array (a parsed value has no
    function-valued property), and whatever [f] raises. *)
Definition array_map (f : JsValue -> option JsValue) (v : JsValue) : option JsValue :=
  match v with
  | JArr items => JArr <$> mapM f items
  | _ => None
  end.

(** An object literal [{k1: e1, k2: e2, ...}]: the properties are evaluated
    in order and the first one that raises aborts the literal. *)
Definition object_literal (props : list (string * option JsValue)) : option JsObject :=
  foldl (fun acc kv => o ← acc; v ← kv.2; Some (<[kv.1 := v]> o)) (Some ∅) props.

(** [Math.round]: the nearest integer, halves rounded up. *)
Definition Math_round (x : Q) : Z := Qfloor (x + (1 # 2))%Q.

(** ** JavaScript strings

    A string is the sequence of its UTF-16 code units.  The model covers the
    strings whose code units are all below 256, each written as the
    character with that code. *)

Definition line_feed : ascii := "010"%char.
Definition carriage_return : ascii := "013"%char.
Definition double_quote : ascii := "034"%char.

(** The characters matched by the class [[\r\n]]. *)
Definition is_line_break (c : ascii) : bool :=
  Ascii.eqb c carriage_return || Ascii.eqb c line_feed.

(** [WhiteSpace] and [LineTerminator] of the language, below 256: tab, line
    feed, vertical tab, form feed, carriage return, space and no-break
    space. *)
Definition is_white_space (c : ascii) : bool :=
  match nat_of_ascii c with
  | 9 | 10 | 11 | 12 | 13 | 32 | 160 => true
  | _ => false
  end%nat.

(** [str.replace(/[\r\n]+/g, ' ')]: every maximal run of line breaks becomes
    one space.  [in_run] tells that the character before was a line break of
    the run being replaced. *)
Fixpoint replace_line_breaks_from (in_run : bool) (str : string) : string :=
  match str with
  | EmptyString => EmptyString
  | String c rest =>
      if is_line_break c then
        if in_run then replace_line_breaks_from true rest
        else String " " (replace_line_breaks_from true rest)
      else String c (replace_line_breaks_from false rest)
  end.

Definition replace_line_breaks (str : string) : string :=
  replace_line_breaks_from false str.

(** [str.trimStart()], [str.trimEnd()] and [str.trim()]. *)
Fixpoint trimStart (str : string) : string :=
  match str with
  | EmptyString => EmptyString
  | String c rest => if is_white_space c then trimStart rest else str
  end.

Fixpoint trimEnd (str : string) : string :=
  match str with
  | EmptyString => EmptyString
  | String c rest =>
      match trimEnd rest with
      | EmptyString => if is_white_space c then EmptyString else String c EmptyString
      | kept => String c kept
      end
  end.

Definition trim (str : string) : string := trimEnd (trimStart str).

(** [str.includes(c)] for a one-character string [c]. *)
Fixpoint includes_char (c : ascii) (str : string) : bool :=
  match str with
  | EmptyString => false
  | String c' rest => Ascii.eqb c' c || includes_char c rest
  end.

(** The [replace] of [escapeCSV], with the global pattern of one double
    quote: every double quote is written twice. *)
Fixpoint double_quotes (str : string) : string :=
  match str with
  | EmptyString => EmptyString
  | String c rest =>
      if Ascii.eqb c double_quote
      then String double_quote (String double_quote (double_quotes rest))
      else String c (double_quotes rest)
  end.

(** [String(v)] and [items.join(separator)] raise a [TypeError] on an object
    that has a property named [toString] of its own (in a parsed value it is
    no function, and [valueOf] then returns the object), and on an array that
    holds such an object at any depth. *)
Fixpoint unprintable (v : JsValue) : bool :=
  match v with
  | JObj o => match o !! "toString" with Some _ => true | None => false end
  | JArr items => existsb unprintable items
  | _ => false
  end.

(** The text of [String(v)] and of [items.join(separator)] when they do not
    raise.  An integer prints in decimal (as it does below 10^21); in a
    joined array [null] and [undefined] print as the empty text. *)
Fixpoint ToString (v : JsValue) : string :=
  match v with
  | JUndefined => "undefined"
  | JNull => "null"
  | JBool true => "true"
  | JBool false => "false"
  | JNum n => pretty n
  | JStr s => s
  | JArr items =>
      (fix join (items : list JsValue) : string :=
         match items with
         | [] => ""
         | [x] => match x with JUndefined | JNull => "" | _ => ToString x end
         | x :: later =>
             match x with JUndefined | JNull => "" | _ => ToString x end
             +:+ "," +:+ join later
         end) items
  | JObj _ => "[object Object]"
  end.

Definition element_text (x : JsValue) : string :=
  match x with
  | JUndefined | JNull => ""
  | _ => ToString x
  end.

Fixpoint join (separator : string) (items : list JsValue) : string :=
  match items with
  | [] => ""
  | [x] => element_text x
  | x :: later => element_text x +:+ separator +:+ join separator later
  end.

(** [String(v)] and [items.join(separator)]; [None] is the [TypeError]. *)
Definition string_of (v : JsValue) : option string :=
  if unprintable v then None else Some (ToString v).

Definition join_of (separator : string) (items : list JsValue) : option string :=
  if existsb unprintable items then None else Some (join separator items).

(** *** Comparing a value with zero

    [v > 0] converts [v] to a number.  For text that is [StringToNumber]:
    white space is trimmed; the empty text is 0; a [StrNumericLiteral] has
    its value, rounded to the nearest double; any other text is [NaN], which
    is above nothing. *)

(** The value of the digit [c] in a literal of the given radix. *)
Definition digit_of (radix : nat) (c : ascii) : option nat :=
  let code := nat_of_ascii c in
  let value :=
    if (48 <=? code)%nat && (code <=? 57)%nat then Some (code - 48)%nat
    else if (97 <=? code)%nat && (code <=? 102)%nat then Some (code - 87)%nat
    else if (65 <=? code)%nat && (code <=? 70)%nat then Some (code - 55)%nat
    else None in
  value ≫= fun v => if (v <? radix)%nat then Some v else None.

(** The decimal digits that [str] begins with, read after [count] digits of
    value [value]: the value and the count of all the digits, and the text
    that follows them. *)
Fixpoint read_digits (value : Z) (count : nat) (str : string) : Z * nat * string :=
  match str with
  | EmptyString => (value, count, str)
  | String c rest =>
      match digit_of 10 c with
      | Some d => read_digits (10 * value + Z.of_nat d) (S count) rest
      | None => (value, count, str)
      end
  end.

(** The end of a decimal literal: nothing (the exponent is 0) or an
    [ExponentPart], [e] or [E] and a signed integer.  [None] for any other
    text. *)
Definition read_exponent (str : string) : option Z :=
  match str with
  | EmptyString => Some 0
  | String c rest =>
      if Ascii.eqb c "e" || Ascii.eqb c "E" then
        let '(negative, digits) :=
          match rest with
          | String sign digits =>
              if Ascii.eqb sign "+" then (false, digits)
              else if Ascii.eqb sign "-" then (true, digits)
              else (false, rest)
          | EmptyString => (false, rest)
          end in
        let '(value, count, after) := read_digits 0 0 digits in
        if (0 <? count)%nat && String.eqb after ""
        then Some (if (negative : bool) then - value else value)
        else None
      else None
  end.

(** [str] is a [StrUnsignedDecimalLiteral] whose number is above zero:
    [Infinity], or digits with at most one dot among them and an optional
    exponent.  Its value is [mantissa * 10^scale]; the nearest double is zero
    exactly when the value is at most [2^-1075], half of the least positive
    double. *)
Definition unsigned_decimal_positive (str : string) : bool :=
  if String.eqb str "Infinity" then true else
  let '(whole, whole_count, after_whole) := read_digits 0 0 str in
  let '(mantissa, fraction_count, after_digits) :=
    match after_whole with
    | String c fraction =>
        if Ascii.eqb c "." then read_digits whole 0 fraction
        else (whole, 0%nat, after_whole)
    | EmptyString => (whole, 0%nat, after_whole)
    end in
  match read_exponent after_digits with
  | Some exponent =>
      let scale := exponent - Z.of_nat fraction_count in
      (0 <? whole_count + fraction_count)%nat
      && (0 <? mantissa)
      && ((0 <=? scale) || (10 ^ (- scale) <? mantissa * 2 ^ 1075))
  | None => false
  end.

(** The digits of a [NonDecimalIntegerLiteral]: [Some true] when all are
    digits of the radix and one is not zero, [None] when one is no digit of
    the radix. *)
Fixpoint digits_positive (radix : nat) (digits : string) : option bool :=
  match digits with
  | EmptyString => Some false
  | String c rest =>
      d ← digit_of radix c;
      positive ← digits_positive radix rest;
      Some ((0 <? d)%nat || positive)
  end.

(** The radix and the digits of text that begins as a
    [NonDecimalIntegerLiteral] does: [0x], [0o] or [0b], in either case. *)
Definition non_decimal (text : string) : option (nat * string) :=
  match text with
  | String zero (String c digits) =>
      if negb (Ascii.eqb zero "0") then None
      else if Ascii.eqb c "x" || Ascii.eqb c "X" then Some (16%nat, digits)
      else if Ascii.eqb c "o" || Ascii.eqb c "O" then Some (8%nat, digits)
      else if Ascii.eqb c "b" || Ascii.eqb c "B" then Some (2%nat, digits)
      else None
  | _ => None
  end.

(** [str > 0] for a string [str]. *)
Definition string_positive (str : string) : bool :=
  match trim str with
  | EmptyString => false
  | String c rest as text =>
      if Ascii.eqb c "+" then unsigned_decimal_positive rest
      else if Ascii.eqb c "-" then false
      else
        match non_decimal text with
        | Some (radix, digits) =>
            negb (String.eqb digits "") && default false (digits_positive radix digits)
        | None => unsigned_decimal_positive text
        end
  end.

(** [v > 0].  An array or an object is first converted to a primitive with
    the hint [number]: [valueOf] returns the object itself, so the result is
    the text of [toString]; [None] is the [TypeError] of that conversion. *)
Definition greater_than_zero (v : JsValue) : option bool :=
  match v with
  | JUndefined | JNull => Some false
  | JBool b => Some b
  | JNum n => Some (0 <? n)
  | JStr str => Some (string_positive str)
  | JArr _ | JObj _ => text ← string_of v; Some (string_positive text)
  end.

(** [cells.join(separator)] for an array of strings. *)
Fixpoint join_strings (separator : string) (cells : list string) : string :=
  match cells with
  | [] => ""
  | [x] => x
  | x :: later => x +:+ separator +:+ join_strings separator later
  end.

(** The text that [escapeCSV] escapes: the value as a string, line breaks
    replaced, trimmed. *)
Definition csv_text (str : string) : string := trim (replace_line_breaks str).

(** The last two statements of the three [escapeCSV]: the text between
    double quotes, its double quotes doubled, when it holds a comma or a
    double quote ([check_line_feed]: or a line feed), and as it is
    otherwise. *)
Definition quote_if_needed (check_line_feed : bool) (str : string) : string :=
  if includes_char "," str || includes_char double_quote str
     || (check_line_feed && includes_char line_feed str)
  then String double_quote (double_quotes str +:+ String double_quote EmptyString)
  else str.

(** [escapeCSV] of enrich_investors.js (lines 453-460). *)
Module EnrichOutputs.

Definition escapeCSV (value : JsValue) : option string :=
  match value with
  | JNull | JUndefined => Some ""
  | _ => str ← string_of value; Some (quote_if_needed true (csv_text str))
  end.

(** The CSV part of [saveOutputs(progress)] (lines 394-430). *)
Definition csvHeaders : list string := [
  "ID"; "Investor ID"; "Investor Slug"; "Name"; "Title"; "Headline";
  "Personal Emails"; "Work Emails"; "All Emails"; "Phones";
  "LinkedIn"; "Twitter"; "Location"; "Country";
  "Current Company"; "Industry"; "Skills";
  "Enriched"; "Enriched At"
].

(** [(v || []).join('; ')], and with [first = Some n] the same after
    [.slice(0, n)]: a [TypeError] unless [v || []] is an array, and the one
    of [join]. *)
Definition joined (first : option nat) (v : JsValue) : option JsValue :=
  match js_or v (JArr []) with
  | JArr items =>
      JStr <$> join_of "; " (match first with Some n => take n items | None => items end)
  | _ => None
  end.

(** The arguments of the nineteen calls of [escapeCSV] for one member. *)
Definition csv_cells (m : JsObject) : option (list JsValue) :=
  personal_emails ← joined None (field m "personal_emails");
  work_emails ← joined None (field m "work_emails");
  emails ← joined None (field m "emails");
  phones ← joined None (field m "phones");
  twitter ← joined None (field m "twitter");
  skills ← joined (Some 10%nat) (field m "skills");
  Some [field m "id"; field m "investor_id"; field m "investor_slug"; field m "name";
        field m "title"; field m "headline";
        personal_emails; work_emails; emails; phones;
        field m "linkedin_url"; twitter; field m "location"; field m "country";
        js_or (prop_opt (field m "current_company") "name") (JStr "");
        field m "industry"; skills;
        field m "enriched"; field m "enriched_at"].

(** The text written to [enriched_team_members.csv]; [None] when building a
    row raises. *)
Definition csv (enrichedMembers : list JsObject) : option string :=
  csvRows ← mapM (fun m => cells ← csv_cells m;
                           row ← mapM escapeCSV cells;
                           Some (join_strings "," row)) enrichedMembers;
  Some (join_strings (String line_feed EmptyString)
          (join_strings "," csvHeaders :: csvRows)).

End EnrichOutputs.

(** The local [escapeCSV] of [saveToCSV] in the basic scraper
    (visible_investor_scraper.js, lines 348-356). *)
Module BasicOutputs.

Definition escapeCSV (value : JsValue) : option string :=
  match value with
  | JNull | JUndefined => Some ""
  | _ => str ← string_of value; Some (quote_if_needed false (csv_text str))
  end.

Definition headers : list string := [
  "ID"; "Name"; "Website"; "Location"; "City"; "Country";
  "Check Size Min"; "Check Size Max"; "Check Size Display";
  "Stages"; "Focuses"; "Verified"; "Partner"; "Description";
  "Twitter"; "LinkedIn"; "Crunchbase"; "AngelList";
  "Logo URL"; "Profile URL"; "Scraped At"
].

(** The properties of [inv] that the twenty-one calls of [escapeCSV] read
    for one row, in order (lines 363-385). *)
Definition row_keys : list string := [
  "id"; "name"; "website"; "location"; "city"; "country";
  "check_size_min"; "check_size_max"; "check_size_display";
  "stages"; "focuses"; "verified"; "partner"; "description";
  "twitter"; "linkedin"; "crunchbase"; "angellist";
  "logo_url"; "profile_url"; "scraped_at"
].

(** The text [saveToCSV(investors, filename)] writes (lines 322-392);
    [None] is the [TypeError] of reading a property of an investor that is
    [null] or [undefined], and the one of [escapeCSV]. *)
Definition saveToCSV (investors : list JsValue) : option string :=
  rows ← mapM (fun inv =>
                 row ← mapM (fun k => value ← prop inv k; escapeCSV value) row_keys;
                 Some (join_strings "," row)) investors;
  Some (join_strings (String line_feed EmptyString) (join_strings "," headers :: rows)).

End BasicOutputs.

(** [escapeCSV] and [arrayToCSV] of the full scraper (lines 963-983). *)
Module FullOutputs.

Definition escapeCSV (value : JsValue) : option string :=
  match value with
  | JNull | JUndefined => Some ""
  | JArr items => str ← join_of "; " items; Some (quote_if_needed true (csv_text str))
  | _ => str ← string_of value; Some (quote_if_needed true (csv_text str))
  end.

(** A column of a table: [{ key, header }]. *)
Record Column : Type := {
  key : string;
  header : string
}.

(** [arrayToCSV(data, columns)]; [None] is the [TypeError] of [item[c.key]]
    on an item that is [null] or [undefined], and the one of [escapeCSV].
    Every column of the callers has a non-empty [header], which
    [c.header || c.key] then returns. *)
Definition arrayToCSV (data : list JsValue) (columns : list Column) : option string :=
  let headers := map (fun c => if String.eqb (header c) "" then key c else header c) columns in
  rows ← mapM (fun item =>
                 cells ← mapM (fun c => value ← prop item (key c); escapeCSV value) columns;
                 Some (join_strings "," cells)) data;
  Some (join_strings (String line_feed EmptyString) (join_strings "," headers :: rows)).

End FullOutputs.

(** The investor table of [saveOutputs] in the full scraper
    ([investorColumns], lines 987-1018). *)
Definition investorColumns : list FullOutputs.Column := [
  {| FullOutputs.key := "id"; FullOutputs.header := "ID" |};
  {| FullOutputs.key := "name"; FullOutputs.header := "Name" |};
  {| FullOutputs.key := "slug"; FullOutputs.header := "Slug" |};
  {| FullOutputs.key := "website"; FullOutputs.header := "Website" |};
  {| FullOutputs.key := "secondary_website"; FullOutputs.header := "Secondary Website" |};
  {| FullOutputs.key := "description"; FullOutputs.header := "Description" |};
  {| FullOutputs.key := "city"; FullOutputs.header := "City" |};
  {| FullOutputs.key := "region"; FullOutputs.header := "Region" |};
  {| FullOutputs.key := "country"; FullOutputs.header := "Country" |};
  {| FullOutputs.key := "check_size_min"; FullOutputs.header := "Check Size Min" |};
  {| FullOutputs.key := "check_size_max"; FullOutputs.header := "Check Size Max" |};
  {| FullOutputs.key := "sweet_spot"; FullOutputs.header := "Sweet Spot" |};
  {| FullOutputs.key := "fund_size"; FullOutputs.header := "Fund Size" |};
  {| FullOutputs.key := "fund_close_date"; FullOutputs.header := "Fund Close Date" |};
  {| FullOutputs.key := "stages"; FullOutputs.header := "Stages" |};
  {| FullOutputs.key := "focus"; FullOutputs.header := "Focus" |};
  {| FullOutputs.key := "tags"; FullOutputs.header := "Tags" |};
  {| FullOutputs.key := "fund_types"; FullOutputs.header := "Fund Types" |};
  {| FullOutputs.key := "leads_investments"; FullOutputs.header := "Leads Investments" |};
  {| FullOutputs.key := "co_invests"; FullOutputs.header := "Co-Invests" |};
  {| FullOutputs.key := "takes_board_seats"; FullOutputs.header := "Takes Board Seats" |};
  {| FullOutputs.key := "thesis"; FullOutputs.header := "Thesis" |};
  {| FullOutputs.key := "traction_metrics"; FullOutputs.header := "Traction Metrics" |};
  {| FullOutputs.key := "investment_geography";
     FullOutputs.header := "Investment Geography" |};
  {| FullOutputs.key := "twitter_url"; FullOutputs.header := "Twitter URL" |};
  {| FullOutputs.key := "linkedin_url"; FullOutputs.header := "LinkedIn URL" |};
  {| FullOutputs.key := "verified"; FullOutputs.header := "Verified" |};
  {| FullOutputs.key := "badges"; FullOutputs.header := "Badges" |};
  {| FullOutputs.key := "profile_url"; FullOutputs.header := "Profile URL" |};
  {| FullOutputs.key := "scraped_at"; FullOutputs.header := "Scraped At" |}
].

(** The team-member table of [saveOutputs] in the full scraper
    ([teamColumns], lines 1020-1030). *)
Definition teamColumns : list FullOutputs.Column := [
  {| FullOutputs.key := "id"; FullOutputs.header := "ID" |};
  {| FullOutputs.key := "investor_id"; FullOutputs.header := "Investor ID" |};
  {| FullOutputs.key := "investor_slug"; FullOutputs.header := "Investor Slug" |};
  {| FullOutputs.key := "name"; FullOutputs.header := "Name" |};
  {| FullOutputs.key := "title"; FullOutputs.header := "Title" |};
  {| FullOutputs.key := "linkedin_url"; FullOutputs.header := "LinkedIn URL" |};
  {| FullOutputs.key := "twitter_url"; FullOutputs.header := "Twitter URL" |};
  {| FullOutputs.key := "avatar_url"; FullOutputs.header := "Avatar URL" |};
  {| FullOutputs.key := "scraped_at"; FullOutputs.header := "Scraped At" |}
].

(** The investment table of [saveOutputs] in the full scraper
    ([investmentColumns], lines 1032-1044). *)
Definition investmentColumns : list FullOutputs.Column := [
  {| FullOutputs.key := "id"; FullOutputs.header := "ID" |};
  {| FullOutputs.key := "investor_id"; FullOutputs.header := "Investor ID" |};
  {| FullOutputs.key := "investor_slug"; FullOutputs.header := "Investor Slug" |};
  {| FullOutputs.key := "company_name"; FullOutputs.header := "Company Name" |};
  {| FullOutputs.key := "company_website"; FullOutputs.header := "Company Website" |};
  {| FullOutputs.key := "amount_raised"; FullOutputs.header := "Amount Raised" |};
  {| FullOutputs.key := "announced_date"; FullOutputs.header := "Announced Date" |};
  {| FullOutputs.key := "company_city"; FullOutputs.header := "Company City" |};
  {| FullOutputs.key := "company_country"; FullOutputs.header := "Company Country" |};
  {| FullOutputs.key := "article_url"; FullOutputs.header := "Article URL" |};
  {| FullOutputs.key := "scraped_at"; FullOutputs.header := "Scraped At" |}
].

(** ** The backoff formula of the design document *)

(** Written from the words of the design:
    [delay = min(base_delay * 2^min(attempt, cap_exponent), max_delay)]. *)
Definition backoff_formula (base_delay max_delay : Z) (cap_exponent attempt : nat) : Z :=
  Z.min (base_delay * 2 ^ Z.of_nat (Nat.min attempt cap_exponent)) max_delay.

(** ** Upstream responses and what a fetcher does with one *)

(** The body of a response: text that [JSON.parse] rejects, or the value it
    returns. *)
Inductive Body : Type :=
| Unparsable
| Parsed (json : JsValue).

(** What one HTTP attempt ends in: a response, the [error] event of the
    request, or the request timer firing before a response has begun.

    The timeout handler of each fetcher calls [req.destroy()], and a request
    destroyed before its response emits [error]: after a timeout the [error]
    handler of the same attempt runs as well.  Where both handlers sleep and
    retry, the attempt starts two retries; the promise follows the one whose
    sleep ends first, and the call that the other makes still runs, with
    nothing awaiting its result.  [second_retry] is the successive answers to
    the requests of that other retry, and [error_draw] the value of
    [Math.random()] that the [error] handler of this attempt uses; an answer
    comes with the draw its own handler uses (only the full scraper draws).
    A timer that fires while a response is being received is not modelled. *)
Inductive Response : Type :=
| Http (statusCode : Z) (data : Body)
| NetworkError
| RequestTimeout (error_draw : Q) (second_retry : list (Response * Q)).

(** What the handlers of one attempt do to the promise of the fetcher: settle
    it with a value, sleep and settle it with the promise of a call with
    [retryCount + 1], or reject it. *)
Inductive Action : Type :=
| Resolve (v : JsValue)
| RetryAfter (delay : Z)
| Reject.

(** How a fetch ends.  [Pending] is a promise that has not settled after the
    listed upstream answers were all consumed. *)
Inductive Outcome : Type :=
| Resolved (v : JsValue)
| Rejected
| Pending.

(** Why an orchestrator sleeps: the delay before each fetch, the pause
    between batches, the wait of a [catch] branch. *)
Inductive SleepKind : Type :=
| Pacing
| BatchPause
| CatchWait.

(** How the body of a [try] block ends: it runs to its end, it raises, or it
    waits on a promise that does not settle. *)
Inductive Completion : Type :=
| Normal
| Raised
| Hangs.

(** How a run ends: the condition of its loop fails (or the function returns
    before the loop), it waits on a pending promise, the listed inputs of the
    outside world are used up, or a statement that no [try] block of the
    loop encloses raises, which leaves the loop and the function. *)
Inductive Ending : Type :=
| Completed
| StillFetching
| Horizon
| Aborted.

#[global] Instance Ending_eq_dec : EqDecision Ending.
Proof. solve_decision. Defined.

(** [l.slice(0, limit)]; [None] is [Infinity], the default of [--limit].  A
    negative limit counts from the end, as [slice] does.  ([NaN], which
    [parseInt] returns for a limit that is not a number, is not modelled.) *)
Definition slice_from_start {A : Type} (l : list A) (limit : option Z) : list A :=
  match limit with
  | None => l
  | Some n =>
      if n <? 0 then take (length l - Z.to_nat (- n)) l
      else take (Z.to_nat n) l
  end.

(** ** enrich_investors.js: configuration, backoff and fetcher *)

Module Enrich.

(** The fields of [CONFIG] (lines 29-48) that the modelled code reads. *)
Record Config : Type := {
  DEFAULT_DELAY : Z;
  PAUSE_EVERY : nat;
  PAUSE_DURATION : Z;
  INITIAL_RETRY_DELAY : Z;
  MAX_RETRY_DELAY : Z
}.

Definition CONFIG : Config := {|
  DEFAULT_DELAY := 1000;
  PAUSE_EVERY := 50;
  PAUSE_DURATION := 10000;
  INITIAL_RETRY_DELAY := 5000;
  MAX_RETRY_DELAY := 300000
|}.

(** The local [getRetryDelay] of [enrichLinkedInProfile] (lines 139-143). *)
Definition getRetryDelay (cfg : Config) (count : nat) : Z :=
  let delay := INITIAL_RETRY_DELAY cfg * 2 ^ Z.of_nat (Nat.min count 6) in
  Z.min delay (MAX_RETRY_DELAY cfg).

(** The handlers of one attempt of [enrichLinkedInProfile(url, retryCount)]:
    the [end] handler of the response with its chain of status tests
    (lines 159-198), the [error] handler (lines 201-206) and the timeout
    handler (lines 208-214).  At a timeout the timeout handler and then the
    [error] handler each sleep [getRetryDelay(retryCount)] and retry; the two
    sleeps start in the same turn of the event loop and last as long, so the
    timeout handler's retry is called first and the promise follows it. *)
Definition on_response (cfg : Config) (res : Response) (retryCount : nat) : Action :=
  match res with
  | Http statusCode data =>
      if statusCode =? 200 then
        match data with
        | Parsed json =>
            (* inside [try]: a [TypeError] on [json.status_code] lands in the
               [catch] of the parse error *)
            match prop json "status_code", prop json "profile" with
            | Some status_code, Some profile =>
                if strict_eq status_code (JNum 200) && truthy profile
                then Resolve profile
                else Resolve JNull
            | _, _ => RetryAfter (getRetryDelay cfg retryCount)
            end
        | Unparsable => RetryAfter (getRetryDelay cfg retryCount)
        end
      else if statusCode =? 429 then RetryAfter (getRetryDelay cfg retryCount)
      else if statusCode =? 403 then RetryAfter (Z.max (getRetryDelay cfg retryCount) 60000)
      else if statusCode >=? 500 then RetryAfter (getRetryDelay cfg retryCount)
      else if (statusCode =? 404) || (statusCode =? 400) then Resolve JNull
      else RetryAfter (getRetryDelay cfg retryCount)
  | NetworkError => RetryAfter (getRetryDelay cfg retryCount)
  | RequestTimeout _ _ => RetryAfter (getRetryDelay cfg retryCount)
  end.

(** The callbacks of the four [.map] calls of [extractEnrichedData]. *)
Definition experience_entry (exp : JsValue) : option JsValue :=
  JObj <$> object_literal [
    ("title", or_default (prop exp "title") (JStr ""));
    ("company", or_default (prop exp "company_name") (JStr ""));
    ("summary", or_default (prop exp "summary") (JStr ""));
    ("locality", or_default (prop exp "locality") (JStr ""));
    ("start_date_year", or_default (prop exp "start_date_year") JNull);
    ("start_date_month", or_default (prop exp "start_date_month") JNull);
    ("end_date_year", or_default (prop exp "end_date_year") JNull);
    ("end_date_month", or_default (prop exp "end_date_month") JNull);
    ("is_current", or_default (prop exp "is_current") (JBool false));
    ("linkedin_url", or_default (prop exp "linkedin_url") (JStr ""));
    ("logo_url", or_default (prop exp "logo_url") (JStr ""));
    ("domain", or_default (prop exp "domain") (JStr ""))
  ].

Definition education_entry (edu : JsValue) : option JsValue :=
  JObj <$> object_literal [
    ("school_name", or_default (prop edu "school_name") (JStr ""));
    ("degree", or_default (prop edu "degree") (JStr ""));
    ("field_of_study", or_default (prop edu "field_of_study") (JStr ""));
    ("description", or_default (prop edu "description") (JStr ""));
    ("start_date_year", or_default (prop edu "start_date_year") (JStr ""));
    ("end_date_year", or_default (prop edu "end_date_year") (JStr ""));
    ("url", or_default (prop edu "url") (JStr ""))
  ].

Definition language_entry (l : JsValue) : option JsValue :=
  JObj <$> object_literal [
    ("name", or_default (prop l "name") l);
    ("proficiency", or_default (prop l "proficiency") (JStr ""))
  ].

Definition certification_entry (c : JsValue) : option JsValue :=
  JObj <$> object_literal [
    ("name", or_default (prop c "name") (JStr ""));
    ("authority", or_default (prop c "authority") (JStr ""));
    ("license", or_default (prop c "license") (JStr ""));
    ("start_date_year", or_default (prop c "start_date_year") JNull);
    ("start_date_month", or_default (prop c "start_date_month") JNull);
    ("end_date_year", or_default (prop c "end_date_year") JNull);
    ("end_date_month", or_default (prop c "end_date_month") JNull)
  ].

(** [contactOutProfile.company ? {...} : null]. *)
Definition current_company (contactOutProfile : JsValue) : option JsValue :=
  company ← prop contactOutProfile "company";
  if truthy company then
    JObj <$> object_literal [
      ("name", or_default (prop company "name") (JStr ""));
      ("linkedin_url", or_default (prop company "url") (JStr ""));
      ("linkedin_company_id", or_default (prop company "linkedin_company_id") JNull);
      ("domain", or_default (prop company "domain") (JStr ""));
      ("email_domain", or_default (prop company "email_domain") (JStr ""));
      ("website", or_default (prop company "website") (JStr ""));
      ("overview", or_default (prop company "overview") (JStr ""));
      ("type", or_default (prop company "type") (JStr ""));
      ("size", or_default (prop company "size") JNull);
      ("country", or_default (prop company "country") (JStr ""));
      ("revenue", or_default (prop company "revenue") JNull);
      ("founded_at", or_default (prop company "founded_at") JNull);
      ("industry", or_default (prop company "industry") (JStr ""));
      ("headquarter", or_default (prop company "headquarter") (JStr ""));
      ("logo_url", or_default (prop company "logo_url") (JStr ""));
      ("specialties", or_default (prop company "specialties") (JArr []));
      ("locations", or_default (prop company "locations") (JArr []))
    ]
  else Some JNull.

(** [extractEnrichedData(originalMember, contactOutProfile)] (lines 224-350).
    [now] is the text of [new Date().toISOString()]; [None] is a [TypeError]
    raised while the record is built. *)
Definition extractEnrichedData (originalMember : JsObject) (contactOutProfile : JsValue)
    (now : string) : option JsObject :=
  if negb (truthy contactOutProfile) then
    Some (<["enriched_at" := JNull]> (<["enriched" := JBool false]> originalMember))
  else
    let profile k d := or_default (prop contactOutProfile k) d in
    let mapped k f := v ← profile k (JArr []); array_map f v in
    object_literal [
      ("id", Some (field originalMember "id"));
      ("investor_id", Some (field originalMember "investor_id"));
      ("investor_slug", Some (field originalMember "investor_slug"));
      ("name", profile "full_name" (field originalMember "name"));
      ("title", Some (field originalMember "title"));
      ("headline", profile "headline" (JStr ""));
      ("emails", profile "email" (JArr []));
      ("personal_emails", profile "personal_email" (JArr []));
      ("work_emails", profile "work_email" (JArr []));
      ("phones", profile "phone" (JArr []));
      ("linkedin_url", profile "url" (field originalMember "linkedin_url"));
      ("twitter", profile "twitter" (JArr []));
      ("github", profile "github" (JArr []));
      ("facebook", profile "facebook" (JArr []));
      ("websites", profile "website" (JArr []));
      ("summary", profile "summary" (JStr ""));
      ("industry", profile "industry" (JStr ""));
      ("location", profile "location" (JStr ""));
      ("country", profile "country" (JStr ""));
      ("seniority", profile "seniority" (JStr ""));
      ("job_function", profile "job_function" (JStr ""));
      ("current_company", current_company contactOutProfile);
      ("experience", mapped "experience" experience_entry);
      ("education", mapped "education" education_entry);
      ("skills", profile "skills" (JArr []));
      ("languages", mapped "languages" language_entry);
      ("certifications", mapped "certifications" certification_entry);
      ("publications", profile "publications" (JArr []));
      ("projects", profile "projects" (JArr []));
      ("profile_picture_url", profile "profile_picture_url" (JStr ""));
      ("followers", profile "followers" JNull);
      ("work_status", profile "work_status" JNull);
      ("contactout_updated_at", profile "updated_at" (JStr ""));
      ("enriched", Some (JBool true));
      ("enriched_at", Some (JStr now));
      ("avatar_url", Some (field originalMember "avatar_url"))
    ].

(** [enrichLinkedInProfile(linkedinUrl, retryCount)] (lines 134-218) against
    the successive answers of the upstream: the backoff sleeps it performs,
    in order, and how the promise ends. *)
Fixpoint enrichLinkedInProfile (cfg : Config) (upstream : list Response) (retryCount : nat)
  : list Z * Outcome :=
  match upstream with
  | [] => ([], Pending)
  | res :: later =>
      match on_response cfg res retryCount with
      | Resolve v => ([], Resolved v)
      | Reject => ([], Rejected)
      | RetryAfter delay =>
          let '(sleeps, out) := enrichLinkedInProfile cfg later (S retryCount) in
          (delay :: sleeps, out)
      end
  end.

(** The retries that the attempt answered by [res] starts and whose result
    nothing awaits: after a timeout, the retry of the [error] handler (line
    205).  It sleeps [getRetryDelay(retryCount)] and calls
    [enrichLinkedInProfile(linkedinUrl, retryCount + 1)], whose own attempts
    may start more of them.  Each is given as the call itself is: the sleeps
    it performs and how its promise ends. *)
Fixpoint unawaited_of (cfg : Config) (res : Response) (retryCount : nat) {struct res}
  : list (list Z * Outcome) :=
  match res with
  | RequestTimeout _ second_retry =>
      let '(sleeps, out) := enrichLinkedInProfile cfg (second_retry.*1) (S retryCount) in
      (getRetryDelay cfg retryCount :: sleeps, out) ::
      (fix unawaited (upstream : list (Response * Q)) (retryCount : nat)
         : list (list Z * Outcome) :=
         match upstream with
         | [] => []
         | (res, _) :: later =>
             unawaited_of cfg res retryCount ++
             match on_response cfg res retryCount with
             | RetryAfter _ => unawaited later (S retryCount)
             | _ => []
             end
         end) second_retry (S retryCount)
  | _ => []
  end.

(** All the retries that a call [enrichLinkedInProfile(linkedinUrl,
    retryCount)] starts and whose result nothing awaits: those of each
    attempt the call makes. *)
Fixpoint unawaited (cfg : Config) (upstream : list Response) (retryCount : nat)
  : list (list Z * Outcome) :=
  match upstream with
  | [] => []
  | res :: later =>
      unawaited_of cfg res retryCount ++
      match on_response cfg res retryCount with
      | RetryAfter _ => unawaited cfg later (S retryCount)
      | _ => []
      end
  end.

(** *** Progress record and orchestration loop of [enrich] *)

(** The progress record (lines 362-371, 550-554).  A progress file that
    parses to a value of another shape is not modelled. *)
Record Stats : Type := {
  total : nat;
  enriched : nat;
  notFound : nat;
  noLinkedIn : nat
}.

Record Progress : Type := {
  processedIds : list JsValue;
  enrichedMembers : list JsObject;
  stats : Stats
}.

(** The literal used by [loadProgress] and by [enrich] for a fresh run. *)
Definition empty_progress : Progress := {|
  processedIds := [];
  enrichedMembers := [];
  stats := {| total := 0; enriched := 0; notFound := 0; noLinkedIn := 0 |}
|}.

(** [loadProgress()]: [stored] is the record read back from the progress
    file, [None] when the file is absent or does not parse. *)
Definition loadProgress (stored : option Progress) : Progress :=
  default empty_progress stored.

Record Options : Type := {
  limit : option Z;
  delay : Z;
  resume : bool;
  dryRun : bool
}.

(** The trace of a run.  [EvFetch] is one call
    [enrichLinkedInProfile(member.linkedin_url)] by the loop; it records the
    [processedIds] at the time of the call and the backoff sleeps of the
    retries that the promise of the call follows.  [EvSave] is a call of
    [saveProgress] and [EvOutputs] the call of [saveOutputs]. *)
Inductive Event : Type :=
| EvProgressLine (current outOf : nat)
| EvSave (snapshot : Progress)
| EvSleep (why : SleepKind) (ms : Z)
| EvFetch (member : JsObject) (processed_before : list JsValue) (backoff : list Z)
| EvError (member : JsObject)
| EvOutputs (snapshot : Progress).

(** What the outside world does during one pass through the loop body:
    whether issuing the request raises ([https.request] throws in the
    executor of the promise, which rejects the promise), the successive
    answers of the upstream, and the clock. *)
Record World : Type := {
  request_raises : bool;
  upstream : list Response;
  now : string
}.

Record LoopState : Type := {
  i : nat;
  consecutiveInBatch : nat;
  progress : Progress
}.

(** [printProgress] evaluates [name ? name.substring(0, 25).padEnd(25) : '']:
    a [TypeError] for a truthy name that is not a string. *)
Definition printProgress_raises (name : JsValue) : bool :=
  truthy name && match name with JStr _ => false | _ => true end.

(** The executor of the promise of [enrichLinkedInProfile(member.linkedin_url)]
    throws, which rejects the promise: [encodeURIComponent] does on a URL
    without a string conversion (line 136), and [https.request] may. *)
Definition call_raises (w : World) (member : JsObject) : bool :=
  unprintable (field member "linkedin_url") || request_raises w.

(** [enrichedProfile.email?.length > 0] (line 619), for a truthy
    [enrichedProfile]; [None] when the comparison raises.  The [length] of a
    string or of an array is a number; an [email] that is an object has the
    [length] its parsed text gives it, of any type. *)
Definition email_length_positive (enrichedProfile : JsValue) : option bool :=
  greater_than_zero (prop_opt (prop_opt enrichedProfile "email") "length").

(** [enrichedProfile.email.join(', ')] (line 621) raises: [email] is no array
    and so has no [join] to call, or it is an array with an element that has
    no string conversion. *)
Definition join_raises (email : JsValue) : bool :=
  match email with
  | JArr items => existsb unprintable items
  | _ => true
  end.

(** The statements that show the emails found (lines 617-623) raise. *)
Definition show_emails_raises (enrichedProfile : JsValue) : bool :=
  truthy enrichedProfile
  && match email_length_positive enrichedProfile with
     | Some positive => positive && join_raises (prop_opt enrichedProfile "email")
     | None => true
     end.

Definition record_result (p : Progress) (member : JsObject) (enrichedMember : JsObject)
    (found : bool) : Progress := {|
  processedIds := processedIds p ++ [field member "id"];
  enrichedMembers := enrichedMembers p ++ [enrichedMember];
  stats := {|
    total := S (total (stats p));
    enriched := if found then S (enriched (stats p)) else enriched (stats p);
    notFound := if found then notFound (stats p) else S (notFound (stats p));
    noLinkedIn := noLinkedIn (stats p)
  |}
|}.

(** The body of the [try] block of the [while] loop (lines 596-636), for
    [member = toProcess[i]]: the state it leaves, the events it emits and
    how it ends.  [saveProgress] and the writes to the console are taken not
    to raise. *)
Definition try_body (cfg : Config) (opts : Options) (toProcess : list JsObject)
    (w : World) (s : LoopState) (member : JsObject) : LoopState * list Event * Completion :=
  let p := progress s in
  (* printProgress(i + 1, toProcess.length, startTime, member.name) *)
  if printProgress_raises (field member "name") then (s, [], Raised) else
  (* periodic pause *)
  let pause :=
    if (0 <? consecutiveInBatch s)%nat
       && (consecutiveInBatch s mod PAUSE_EVERY cfg =? 0)%nat
    then [EvSave p; EvSleep BatchPause (PAUSE_DURATION cfg)]
    else [] in
  (* await sleep(options.delay); await enrichLinkedInProfile(member.linkedin_url) *)
  let before :=
    [EvProgressLine (S (i s)) (length toProcess)] ++ pause
      ++ [EvSleep Pacing (delay opts)] in
  if call_raises w member
  then (s, before ++ [EvFetch member (processedIds p) []], Raised) else
  let '(backoff, out) := enrichLinkedInProfile cfg (upstream w) 0 in
  let fetched := before ++ [EvFetch member (processedIds p) backoff] in
  match out with
  | Pending => (s, fetched, Hangs)
  | Rejected => (s, fetched, Raised)
  | Resolved enrichedProfile =>
      match extractEnrichedData member enrichedProfile (now w) with
      | None => (s, fetched, Raised)
      | Some enrichedMember =>
          let p' := record_result p member enrichedMember (truthy enrichedProfile) in
          if show_emails_raises enrichedProfile
          then
            ({| i := i s; consecutiveInBatch := consecutiveInBatch s; progress := p' |},
             fetched, Raised)
          else
            let save := if (S (i s) mod 10 =? 0)%nat then [EvSave p'] else [] in
            ({| i := S (i s);
                consecutiveInBatch := S (consecutiveInBatch s);
                progress := p' |},
             fetched ++ save, Normal)
      end
  end.

(** One pass through the body of the [while] loop (lines 593-650): the [try]
    block and, when it raised, the [catch] block (lines 638-649).  The first
    statement of the [catch] block writes [member.name] into a template
    literal; for a name that has no string conversion this raises, before
    anything is logged, saved or waited for, and nothing encloses it. *)
Definition iteration (cfg : Config) (opts : Options) (toProcess : list JsObject)
    (w : World) (s : LoopState) : LoopState * list Event * Completion :=
  match toProcess !! i s with
  | None => (s, [], Normal)
  | Some member =>
      let '(s', evs, c) := try_body cfg opts toProcess w s member in
      match c with
      | Raised =>
          if unprintable (field member "name") then (s', evs, Raised)
          else
            (s',
             evs ++ [EvError member; EvSave (progress s');
                     EvSleep CatchWait (INITIAL_RETRY_DELAY cfg)],
             Normal)
      | _ => (s', evs, c)
      end
  end.

(** [while (i < toProcess.length) { ... }], one [World] per pass. *)
Fixpoint while_loop (cfg : Config) (opts : Options) (toProcess : list JsObject)
    (worlds : list World) (s : LoopState) : LoopState * list Event * Ending :=
  if (i s <? length toProcess)%nat then
    match worlds with
    | [] => (s, [], Horizon)
    | w :: later =>
        let '(s1, evs, c) := iteration cfg opts toProcess w s in
        match c with
        | Hangs => (s1, evs, StillFetching)
        | Raised => (s1, evs, Aborted)
        | Normal =>
            let '(s2, evs', e) := while_loop cfg opts toProcess later s1 in
            (s2, evs ++ evs', e)
        end
    end
  else (s, [], Completed).

(** The members still to process (lines 561-564): those whose id is not in
    the set built from [progress.processedIds], cut at [options.limit]. *)
Definition toProcess (membersWithLinkedIn : list JsObject) (p : Progress) (opts : Options)
  : list JsObject :=
  slice_from_start
    (List.filter (fun m => negb (set_has (processedIds p) (field m "id"))) membersWithLinkedIn)
    (limit opts).

Definition initial_state (p : Progress) : LoopState :=
  {| i := 0; consecutiveInBatch := 0; progress := p |}.

(** The listing of a dry run (lines 570-577) raises: one of the first twenty
    members of the work list has a [name], [title], [investor_slug] or
    [linkedin_url] without a string conversion. *)
Definition dry_run_raises (toProcess : list JsObject) : bool :=
  existsb (fun m => unprintable (field m "name") || unprintable (field m "title")
                    || unprintable (field m "investor_slug")
                    || unprintable (field m "linkedin_url"))
    (take 20 toProcess).

(** [enrich(options)] from the point where the eligible members
    ([membersWithLinkedIn], line 544) are known to the call of [saveOutputs]
    that follows the loop (lines 549-656): the final progress record, the
    trace and how the run ended.  Whether that last call returns, and the
    summary printed after it, are not part of the run. *)
Definition enrich (cfg : Config) (opts : Options) (membersWithLinkedIn : list JsObject)
    (stored : option Progress) (worlds : list World) : Progress * list Event * Ending :=
  let p := if resume opts then loadProgress stored else empty_progress in
  let todo := toProcess membersWithLinkedIn p opts in
  if dryRun opts then (p, [], if dry_run_raises todo then Aborted else Completed)
  else if (length todo =? 0)%nat then (p, [], Completed)
  else
    let '(s, evs, e) := while_loop cfg opts todo worlds (initial_state p) in
    match e with
    | Completed => (progress s, evs ++ [EvSave (progress s); EvOutputs (progress s)], e)
    | _ => (progress s, evs, e)
    end.

End Enrich.

(** ** The full database scraper (second program of visible_investor_scraper.js) *)

Module Full.

(** The fields of [CONFIG] (lines 614-640 of the file) that the modelled code
    reads. *)
Record Config : Type := {
  DEFAULT_DELAY : Z;
  MIN_DELAY_BETWEEN_CALLS : Z;
  INITIAL_RETRY_DELAY : Z;
  MAX_RETRY_DELAY : Z;
  PAUSE_EVERY : nat;
  PAUSE_DURATION : Z;
  SAVE_EVERY : nat
}.

Definition CONFIG : Config := {|
  DEFAULT_DELAY := 2000;
  MIN_DELAY_BETWEEN_CALLS := 1500;
  INITIAL_RETRY_DELAY := 30000;
  MAX_RETRY_DELAY := 300000;
  PAUSE_EVERY := 50;
  PAUSE_DURATION := 10000;
  SAVE_EVERY := 10
|}.

(** The first statement of [getRetryDelay] (lines 725-734): the delay before
    jitter.  The source has no bound on the exponent; for exponents where
    [Math.pow] overflows to [Infinity] the minimum is [MAX_RETRY_DELAY] as
    it is here. *)
Definition capped_delay (cfg : Config) (retryCount : nat) : Z :=
  Z.min (INITIAL_RETRY_DELAY cfg * 2 ^ Z.of_nat retryCount) (MAX_RETRY_DELAY cfg).

(** [getRetryDelay(retryCount)], with the value of [Math.random()] as
    [random]. *)
Definition getRetryDelay (cfg : Config) (retryCount : nat) (random : Q) : Z :=
  let delay := inject_Z (capped_delay cfg retryCount) in
  let jitter := (delay * (2 # 10) * (random - (1 # 2)))%Q in
  Math_round (delay + jitter)%Q.

(** The handlers of one attempt of [makeRequest(endpoint, retryCount)]
    (lines 736-804).  At a timeout the timeout handler (lines 794-800) and
    then the [error] handler (lines 787-792) each draw a delay, sleep it and
    retry; the two sleeps start in the same turn of the event loop, so the
    shorter one ends first (the timeout handler's when they are equal) and
    the promise follows its retry. *)
Definition on_response (cfg : Config) (res : Response) (retryCount : nat) (random : Q)
  : Action :=
  match res with
  | Http statusCode data =>
      if statusCode =? 200 then
        match data with
        | Parsed json => Resolve json
        | Unparsable => RetryAfter (getRetryDelay cfg retryCount random)
        end
      else if statusCode =? 429 then RetryAfter (getRetryDelay cfg retryCount random * 2)
      else if statusCode >=? 500 then RetryAfter (getRetryDelay cfg retryCount random)
      else if statusCode >=? 400 then Resolve JNull
      else RetryAfter (getRetryDelay cfg retryCount random)
  | NetworkError => RetryAfter (getRetryDelay cfg retryCount random)
  | RequestTimeout error_draw _ =>
      RetryAfter (Z.min (getRetryDelay cfg retryCount random)
                        (getRetryDelay cfg retryCount error_draw))
  end.

(** [makeRequest(endpoint, retryCount)]: each upstream answer comes with the
    random draw its handler would use. *)
Fixpoint makeRequest (cfg : Config) (upstream : list (Response * Q)) (retryCount : nat)
  : list Z * Outcome :=
  match upstream with
  | [] => ([], Pending)
  | (res, random) :: later =>
      match on_response cfg res retryCount random with
      | Resolve v => ([], Resolved v)
      | Reject => ([], Rejected)
      | RetryAfter delay =>
          let '(sleeps, out) := makeRequest cfg later (S retryCount) in
          (delay :: sleeps, out)
      end
  end.

(** The retries that the attempt answered by [res] starts and whose result
    nothing awaits: after a timeout, the retry whose sleep ends second.  It
    calls [makeRequest(endpoint, retryCount + 1)], whose own attempts may
    start more of them. *)
Fixpoint unawaited_of (cfg : Config) (res : Response) (retryCount : nat) (random : Q)
    {struct res} : list (list Z * Outcome) :=
  match res with
  | RequestTimeout error_draw second_retry =>
      let '(sleeps, out) := makeRequest cfg second_retry (S retryCount) in
      (Z.max (getRetryDelay cfg retryCount random)
             (getRetryDelay cfg retryCount error_draw) :: sleeps, out) ::
      (fix unawaited (upstream : list (Response * Q)) (retryCount : nat)
         : list (list Z * Outcome) :=
         match upstream with
         | [] => []
         | (res, random) :: later =>
             unawaited_of cfg res retryCount random ++
             match on_response cfg res retryCount random with
             | RetryAfter _ => unawaited later (S retryCount)
             | _ => []
             end
         end) second_retry (S retryCount)
  | _ => []
  end.

(** All the retries that a call [makeRequest(endpoint, retryCount)] starts
    and whose result nothing awaits. *)
Fixpoint unawaited (cfg : Config) (upstream : list (Response * Q)) (retryCount : nat)
  : list (list Z * Outcome) :=
  match upstream with
  | [] => []
  | (res, random) :: later =>
      unawaited_of cfg res retryCount random ++
      match on_response cfg res retryCount random with
      | RetryAfter _ => unawaited cfg later (S retryCount)
      | _ => []
      end
  end.

(** *** Phase 2 of [scrape]: the loop over the investor slugs *)

(** [v?.[0]]. *)
Definition first_element (v : JsValue) : JsValue :=
  match v with
  | JArr (x :: _) => x
  | JStr (String c _) => JStr (String c "")
  | JObj o => field o "0"
  | _ => JUndefined
  end.

(** [fetchInvestorBySlug(slug)] (lines 903-908): [makeRequest], then
    [if (!data) return null; return data.data?.[0] || null]. *)
Definition fetchInvestorBySlug (cfg : Config) (upstream : list (Response * Q))
  : list Z * Outcome :=
  let '(sleeps, out) := makeRequest cfg upstream 0 in
  match out with
  | Resolved data =>
      if negb (truthy data) then (sleeps, Resolved JNull)
      else (sleeps, Resolved (js_or (first_element (prop_opt data "data")) JNull))
  | _ => (sleeps, out)
  end.

(** [fetchTeamMembers(investorSlug)] (lines 910-915): [makeRequest], then
    [if (!data) return []; return data.data || []]. *)
Definition fetchTeamMembers (cfg : Config) (upstream : list (Response * Q))
  : list Z * Outcome :=
  let '(sleeps, out) := makeRequest cfg upstream 0 in
  match out with
  | Resolved data =>
      if negb (truthy data) then (sleeps, Resolved (JArr []))
      else (sleeps, Resolved (js_or (prop_opt data "data") (JArr [])))
  | _ => (sleeps, out)
  end.

(** [fetchInvestments(investorSlug)] (lines 917-922), the same statements on
    the rounds endpoint. *)
Definition fetchInvestments (cfg : Config) (upstream : list (Response * Q))
  : list Z * Outcome :=
  let '(sleeps, out) := makeRequest cfg upstream 0 in
  match out with
  | Resolved data =>
      if negb (truthy data) then (sleeps, Resolved (JArr []))
      else (sleeps, Resolved (js_or (prop_opt data "data") (JArr [])))
  | _ => (sleeps, out)
  end.

Record Progress : Type := {
  processedSlugs : list string;
  investors : list JsObject;
  teamMembers : list JsObject;
  investments : list JsObject;
  total : nat
}.

Record Options : Type := {
  delay : Z
}.

(** [saveOutputs(outputDir, progress)] (lines 985-1200) raises: one of its
    three calls of [arrayToCSV] does.  (Its writes to the files and to the
    console are taken not to.) *)
Definition saveOutputs_raises (p : Progress) : bool :=
  match FullOutputs.arrayToCSV (JObj <$> investors p) investorColumns,
        FullOutputs.arrayToCSV (JObj <$> teamMembers p) teamColumns,
        FullOutputs.arrayToCSV (JObj <$> investments p) investmentColumns with
  | Some _, Some _, Some _ => false
  | _, _, _ => true
  end.

(** The trace of a run.  [EvSave] is a call of [saveProgress] and [EvOutputs]
    a call of [saveOutputs]; a fetch event records the backoff sleeps of the
    retries that the promise of the call follows. *)
Inductive Event : Type :=
| EvProgressLine (current outOf : nat)
| EvSave (snapshot : Progress)
| EvOutputs (snapshot : Progress)
| EvSleep (why : SleepKind) (ms : Z)
| EvFetchInvestor (slug : string) (backoff : list Z)
| EvFetchTeamMembers (slug : string) (backoff : list Z)
| EvFetchInvestments (slug : string) (backoff : list Z)
| EvError (slug : string).

(** What the outside world does while one slug is processed: the answers to
    the three requests of the slug.  The three extraction functions
    ([extractInvestor], [extractTeamMember] and [extractInvestment], lines
    810-893: string trimming, number parsing, the clock) are not modelled;
    the world gives what each returns on its arguments, [None] where it
    raises. *)
Record ItemWorld : Type := {
  investor_upstream : list (Response * Q);
  team_upstream : list (Response * Q);
  rounds_upstream : list (Response * Q);
  extractInvestor : JsValue -> option JsObject;
  extractTeamMember : JsValue -> JsValue -> string -> option JsObject;
  extractInvestment : JsValue -> JsValue -> string -> option JsObject
}.

Record LoopState : Type := {
  progress : Progress;
  processedSet : gset string;
  processed : nat;
  consecutiveInThisBatch : nat
}.

(** [for (const x of items) { records.push(extract(x)) }]: the records after
    the loop, and whether an [extract] raised and ended it. *)
Fixpoint push_each (extract : JsValue -> option JsObject) (items : list JsValue)
    (records : list JsObject) : list JsObject * bool :=
  match items with
  | [] => (records, false)
  | x :: later =>
      match extract x with
      | Some record => push_each extract later (records ++ [record])
      | None => (records, true)
      end
  end.

(** [if (data && Array.isArray(data)) { for (const x of data) { ... } }]. *)
Definition push_array (extract : JsValue -> option JsObject) (data : JsValue)
    (records : list JsObject) : list JsObject * bool :=
  match data with
  | JArr items => push_each extract items records
  | _ => (records, false)
  end.

(** [progress.processedSlugs.push(slug); processedSet.add(slug); processed++;
    consecutiveInThisBatch++], the four statements that end the [try] block
    and that the [catch] block repeats. *)
Definition mark_processed (slug : string) (s : LoopState) : LoopState := {|
  progress := {|
    processedSlugs := processedSlugs (progress s) ++ [slug];
    investors := investors (progress s);
    teamMembers := teamMembers (progress s);
    investments := investments (progress s);
    total := total (progress s)
  |};
  processedSet := {[slug]} ∪ processedSet s;
  processed := S (processed s);
  consecutiveInThisBatch := S (consecutiveInThisBatch s)
|}.

(** The loop state with the three record lists of [progress] replaced. *)
Definition with_records (s : LoopState) (investors' teamMembers' investments' : list JsObject)
  : LoopState := {|
  progress := {|
    processedSlugs := processedSlugs (progress s);
    investors := investors';
    teamMembers := teamMembers';
    investments := investments';
    total := total (progress s)
  |};
  processedSet := processedSet s;
  processed := processed s;
  consecutiveInThisBatch := consecutiveInThisBatch s
|}.

(** The [try] block of the loop body (lines 1335-1360) without its last four
    statements: the investor request and, when it returned a record, the
    extraction of the investor, the team request and the investment request
    with the extraction of each of their elements. *)
Definition try_body (cfg : Config) (opts : Options) (w : ItemWorld) (slug : string)
    (s : LoopState) : LoopState * list Event * Completion :=
  let p := progress s in
  let '(backoff, out) := fetchInvestorBySlug cfg (investor_upstream w) in
  let evs := [EvSleep Pacing (delay opts); EvFetchInvestor slug backoff] in
  match out with
  | Pending => (s, evs, Hangs)
  | Rejected => (s, evs, Raised)
  | Resolved investorData =>
      if truthy investorData then
        match extractInvestor w investorData with
        | None => (s, evs, Raised)
        | Some investor =>
            let investors1 := investors p ++ [investor] in
            let s1 := with_records s investors1 (teamMembers p) (investments p) in
            let '(backoff2, out2) := fetchTeamMembers cfg (team_upstream w) in
            let evs2 :=
              evs ++ [EvSleep Pacing (MIN_DELAY_BETWEEN_CALLS cfg);
                      EvFetchTeamMembers slug backoff2] in
            match out2 with
            | Pending => (s1, evs2, Hangs)
            | Rejected => (s1, evs2, Raised)
            | Resolved teamData =>
                let '(teamMembers2, raised2) :=
                  push_array (fun member => extractTeamMember w member (field investor "id") slug)
                    teamData (teamMembers p) in
                let s2 := with_records s investors1 teamMembers2 (investments p) in
                if raised2 then (s2, evs2, Raised)
                else
                  let '(backoff3, out3) := fetchInvestments cfg (rounds_upstream w) in
                  let evs3 :=
                    evs2 ++ [EvSleep Pacing (MIN_DELAY_BETWEEN_CALLS cfg);
                             EvFetchInvestments slug backoff3] in
                  match out3 with
                  | Pending => (s2, evs3, Hangs)
                  | Rejected => (s2, evs3, Raised)
                  | Resolved roundsData =>
                      let '(investments3, raised3) :=
                        push_array
                          (fun round => extractInvestment w round (field investor "id") slug)
                          roundsData (investments p) in
                      (with_records s investors1 teamMembers2 investments3, evs3,
                       if raised3 then Raised else Normal)
                  end
            end
        end
      else (s, evs, Normal)
  end.

(** The periodic pause is due (line 1327). *)
Definition pause_due (cfg : Config) (s : LoopState) : bool :=
  (0 <? consecutiveInThisBatch s)%nat
  && (consecutiveInThisBatch s mod PAUSE_EVERY cfg =? 0)%nat.

(** The checkpoint of the periodic pause raises: the pause is due and its
    call of [saveOutputs] (line 1329) raises, after the call of
    [saveProgress] and before the sleep. *)
Definition checkpoint_raises (cfg : Config) (s : LoopState) : bool :=
  pause_due cfg s && saveOutputs_raises (progress s).

(** The body of the [for] loop (lines 1324-1380) for a slug that is neither
    skipped nor past the total: progress line, periodic pause, the
    [try]/[catch] pair and the periodic save.  [saveProgress] and the writes
    to the console are taken not to raise.  The periodic pause is outside the
    [try] block: when its [saveOutputs] raises, the body ends there. *)
Definition loop_body (cfg : Config) (opts : Options) (w : ItemWorld) (slug : string)
    (s : LoopState) : LoopState * list Event * Completion :=
  let line := [EvProgressLine (S (processed s)) (total (progress s))] in
  if checkpoint_raises cfg s
  then (s, line ++ [EvSave (progress s); EvOutputs (progress s)], Raised) else
  let pause :=
    if pause_due cfg s
    then [EvSave (progress s); EvOutputs (progress s);
          EvSleep BatchPause (PAUSE_DURATION cfg)]
    else [] in
  let '(s1, evs, c) := try_body cfg opts w slug s in
  match c with
  | Hangs => (s1, line ++ pause ++ evs, Hangs)
  | _ =>
      let caught := match c with Raised => [EvError slug] | _ => [] end in
      let s2 := mark_processed slug s1 in
      let save :=
        if (processed s2 mod SAVE_EVERY cfg =? 0)%nat then [EvSave (progress s2)] else [] in
      (s2, line ++ pause ++ evs ++ caught ++ save, Normal)
  end.

(** [for (const { id, slug } of allSlugs) { ... }] (lines 1319-1381).  The
    slugs are strings (the loop calls [slug.substring]); [upstream slug] is
    what the outside world does while [slug] is processed.  A body that
    raises leaves the loop for the [catch] block of [scrape] (lines
    1403-1422), which is not part of this function. *)
Fixpoint for_slugs (cfg : Config) (opts : Options) (upstream : string -> ItemWorld)
    (allSlugs : list string) (s : LoopState) : LoopState * list Event * Ending :=
  match allSlugs with
  | [] => (s, [], Completed)
  | slug :: later =>
      if bool_decide (slug ∈ processedSet s) then for_slugs cfg opts upstream later s
      else if (total (progress s) <=? processed s)%nat then (s, [], Completed)
      else
        let '(s1, evs, c) := loop_body cfg opts (upstream slug) slug s in
        match c with
        | Hangs => (s1, evs, StillFetching)
        | Raised => (s1, evs, Aborted)
        | Normal =>
            let '(s2, evs', e) := for_slugs cfg opts upstream later s1 in
            (s2, evs ++ evs', e)
        end
  end.

(** The state in which phase 2 starts (lines 1315-1317). *)
Definition initial_state (p : Progress) : LoopState := {|
  progress := p;
  processedSet := list_to_set (processedSlugs p);
  processed := length (processedSlugs p);
  consecutiveInThisBatch := 0
|}.

End Full.

(** ** The basic scraper (first program of visible_investor_scraper.js) *)

Module Basic.

(** [CONFIG.MAX_RETRIES] and [CONFIG.RETRY_DELAY] (lines 34-35). *)
Definition MAX_RETRIES : nat := 3.
Definition RETRY_DELAY : Z := 5000.

(** The handlers of one attempt of [makeRequest(endpoint, retryCount)]
    (lines 132-194).  At a timeout the timeout handler rejects the promise
    (line 189) before the [error] handler runs. *)
Definition on_response (res : Response) (retryCount : nat) : Action :=
  match res with
  | Http statusCode data =>
      if statusCode =? 200 then
        match data with
        | Parsed json => Resolve json
        | Unparsable => Reject
        end
      else if statusCode =? 429 then
        if (retryCount <? MAX_RETRIES)%nat then RetryAfter RETRY_DELAY else Reject
      else Reject
  | NetworkError =>
      if (retryCount <? MAX_RETRIES)%nat then RetryAfter RETRY_DELAY else Reject
  | RequestTimeout _ _ => Reject
  end.

Fixpoint makeRequest (upstream : list Response) (retryCount : nat) : list Z * Outcome :=
  match upstream with
  | [] => ([], Pending)
  | res :: later =>
      match on_response res retryCount with
      | Resolve v => ([], Resolved v)
      | Reject => ([], Rejected)
      | RetryAfter delay =>
          let '(sleeps, out) := makeRequest later (S retryCount) in
          (delay :: sleeps, out)
      end
  end.

(** The retries that the attempt answered by [res] starts and whose result
    nothing awaits: after a timeout, the [error] handler (lines 176-185)
    finds the promise rejected already; while [retryCount < MAX_RETRIES] it
    still sleeps [RETRY_DELAY] and calls [makeRequest(endpoint,
    retryCount + 1)]. *)
Fixpoint unawaited_of (res : Response) (retryCount : nat) {struct res}
  : list (list Z * Outcome) :=
  match res with
  | RequestTimeout _ second_retry =>
      if (retryCount <? MAX_RETRIES)%nat then
        let '(sleeps, out) := makeRequest (second_retry.*1) (S retryCount) in
        (RETRY_DELAY :: sleeps, out) ::
        (fix unawaited (upstream : list (Response * Q)) (retryCount : nat)
           : list (list Z * Outcome) :=
           match upstream with
           | [] => []
           | (res, _) :: later =>
               unawaited_of res retryCount ++
               match on_response res retryCount with
               | RetryAfter _ => unawaited later (S retryCount)
               | _ => []
               end
           end) second_retry (S retryCount)
      else []
  | _ => []
  end.

(** All the retries that a call [makeRequest(endpoint, retryCount)] starts
    and whose result nothing awaits. *)
Fixpoint unawaited (upstream : list Response) (retryCount : nat) : list (list Z * Outcome) :=
  match upstream with
  | [] => []
  | res :: later =>
      unawaited_of res retryCount ++
      match on_response res retryCount with
      | RetryAfter _ => unawaited later (S retryCount)
      | _ => []
      end
  end.

End Basic.

(** ** Vocabulary of the stated properties *)

(** The kind of each event of a trace, payload erased. *)
Inductive Mark : Type :=
| MLine
| MSave
| MOutputs
| MPause
| MPace
| MWait
| MFetch
| MError.


Definition scrape_mark (e : Full.Event) : Mark :=
  match e with
  | Full.EvProgressLine _ _ => MLine
  | Full.EvSave _ => MSave
  | Full.EvOutputs _ => MOutputs
  | Full.EvSleep BatchPause _ => MPause
  | Full.EvSleep Pacing _ => MPace
  | Full.EvSleep CatchWait _ => MWait
  | Full.EvFetchInvestor _ _ => MFetch
  | Full.EvFetchTeamMembers _ _ => MFetch
  | Full.EvFetchInvestments _ _ => MFetch
  | Full.EvError _ => MError
  end.




(** A pass of the [enrich] loop raises after the result was appended to the
    progress record (the only such place is the display of the emails). *)
Definition raises_after_recording (cfg : Enrich.Config) (member : JsObject) (w : Enrich.World)
  : bool :=
  negb (Enrich.printProgress_raises (field member "name"))
  && negb (Enrich.call_raises w member)
  && match Enrich.enrichLinkedInProfile cfg (Enrich.upstream w) 0 with
     | (_, Resolved enrichedProfile) =>
         match Enrich.extractEnrichedData member enrichedProfile (Enrich.now w) with
         | Some _ =>
             Enrich.show_emails_raises enrichedProfile
         | None => false
         end
     | _ => false
     end.

(** A record of [team_members.json], the file [enrich] reads its members
    from (lines 516-518): the full scraper writes it from the records of
    [extractTeamMember] (lines 1057-1060), so the properties of a record are
    among the nine of that function, which are the columns of the
    team-member table.  (A property whose value is [undefined] is left out
    of the file.) *)
Definition team_member_record (m : JsObject) : Prop :=
  dom m ⊆ list_to_set (FullOutputs.key <$> teamColumns).

(** All the sleeps of some runs of a fetcher. *)
Definition sleeps_of (runs : list (list Z * Outcome)) : list Z := concat runs.*1.


(** [run] is the later of the two retries that a timeout of the full scraper
    starts at an attempt count from [n] on: the longer of the sleeps of two
    draws, then a call of [makeRequest] with the next count. *)
Definition full_retry (cfg : Full.Config) (n : nat) (run : list Z * Outcome) : Prop :=
  exists k random error_draw upstream,
    (n <= k)%nat /\
    run = (Z.max (Full.getRetryDelay cfg k random) (Full.getRetryDelay cfg k error_draw)
             :: (Full.makeRequest cfg upstream (S k)).1,
           (Full.makeRequest cfg upstream (S k)).2).





Definition member_id (m : JsObject) : JsValue := field m "id".

(** The [k]-th result carries the [k]-th processed id. *)
Definition aligned (p : Enrich.Progress) : Prop :=
  map member_id (Enrich.enrichedMembers p) = Enrich.processedIds p.

Definition checkpoint_aligned (e : Enrich.Event) : Prop :=
  match e with
  | Enrich.EvSave snapshot | Enrich.EvOutputs snapshot => aligned snapshot
  | _ => True
  end.

(** A fetch is issued for a member whose id is not in [processedIds]. *)
Definition fetched_unprocessed (e : Enrich.Event) : Prop :=
  match e with
  | Enrich.EvFetch member processed_before _ =>
      set_has processed_before (member_id member) = false
  | _ => True
  end.

(** The fetches of a trace, in order: the id of the member fetched and the
    [processedIds] at the time of the call. *)
Definition fetch_log (trace : list Enrich.Event) : list (JsValue * list JsValue) :=
  omap (fun e =>
          match e with
          | Enrich.EvFetch member processed_before _ =>
              Some (member_id member, processed_before)
          | _ => None
          end) trace.

(** The snapshots written by [saveProgress] during a run, in order. *)
Definition saved (trace : list Enrich.Event) : list Enrich.Progress :=
  omap (fun e => match e with Enrich.EvSave snapshot => Some snapshot | _ => None end) trace.

(** In the loop of [enrich], the progress record holds the ids it started
    with followed by the ids of the first [i] members of the work list. *)
Definition progress_tracks (ids0 : list JsValue) (todo : list JsObject)
    (s : Enrich.LoopState) : Prop :=
  Enrich.processedIds (Enrich.progress s)
  = ids0 ++ (member_id <$> take (Enrich.i s) todo).

(** ** Vocabulary of the properties of the surrounding code *)

(** The slugs for which the loop of [scrape] called [fetchInvestorBySlug],
    in order. *)
Definition fetched_slugs (trace : list Full.Event) : list string :=
  omap (fun e => match e with Full.EvFetchInvestor slug _ => Some slug | _ => None end) trace.

(** The set of processed slugs is the set of the listed ones and the counter
    is their number, as lines 1315-1316 set them up. *)
Definition counters_agree (s : Full.LoopState) : Prop :=
  Full.processedSet s = list_to_set (Full.processedSlugs (Full.progress s)) /\
  Full.processed s = length (Full.processedSlugs (Full.progress s)).

(** A result is flagged [enriched: true]. *)
Definition flagged_enriched (r : JsObject) : bool :=
  match field r "enriched" with
  | JBool true => true
  | _ => false
  end.

Definition is_nullish (v : JsValue) : bool :=
  match v with
  | JUndefined | JNull => true
  | _ => false
  end.

(** [(v || []).map(f)] raises, for a callback [f] that reads properties of
    its argument: [v] is truthy and not an array, or one of its elements is
    [null] or [undefined]. *)
Definition map_raises (v : JsValue) : bool :=
  match js_or v (JArr []) with
  | JArr items => existsb is_nullish items
  | _ => true
  end.

(** The property names of the record built for a found profile. *)
Definition enriched_record_keys : list string :=
  ["id"; "investor_id"; "investor_slug"; "name"; "title"; "headline"; "emails";
   "personal_emails"; "work_emails"; "phones"; "linkedin_url"; "twitter"; "github";
   "facebook"; "websites"; "summary"; "industry"; "location"; "country"; "seniority";
   "job_function"; "current_company"; "experience"; "education"; "skills"; "languages";
   "certifications"; "publications"; "projects"; "profile_picture_url"; "followers";
   "work_status"; "contactout_updated_at"; "enriched"; "enriched_at"; "avatar_url"].

(** What a progress record gained over the record [start]: the results
    [new] were appended, and the counters moved by their numbers. *)
Definition gained (start p : Enrich.Progress) (new : list JsObject) : Prop :=
  Enrich.enrichedMembers p = Enrich.enrichedMembers start ++ new /\
  Enrich.total (Enrich.stats p) = (Enrich.total (Enrich.stats start) + length new)%nat /\
  Enrich.enriched (Enrich.stats p)
    = (Enrich.enriched (Enrich.stats start) + length (List.filter flagged_enriched new))%nat /\
  Enrich.notFound (Enrich.stats p)
    = (Enrich.notFound (Enrich.stats start)
       + length (List.filter (fun r => negb (flagged_enriched r)) new))%nat /\
  Enrich.noLinkedIn (Enrich.stats p) = Enrich.noLinkedIn (Enrich.stats start).

(** The ids the loop recorded cover the first [i] members of the work list,
    in order, and are ids of members of the work list. *)
Definition covers (ids0 : list JsValue) (todo : list JsObject) (s : Enrich.LoopState)
  : Prop :=
  (Enrich.i s <= length todo)%nat /\
  exists new,
    Enrich.processedIds (Enrich.progress s) = ids0 ++ new /\
    (member_id <$> take (Enrich.i s) todo) `sublist_of` new /\
    Forall (fun id => id ∈ member_id <$> todo) new.

(** *** Reading a CSV record

    Written from RFC 4180, to say what the files written can be read back
    as: fields are separated by commas; a field that begins with a double
    quote runs to the next double quote that is not doubled, and a doubled
    double quote inside it stands for one. *)

Inductive ReadMode : Type :=
| AtFieldStart
| InPlainField
| InQuotedField.

(** [c] in front of the field being read. *)
Definition push_char (c : ascii) (fields : list string) : list string :=
  match fields with
  | [] => [String c EmptyString]
  | field :: later => String c field :: later
  end.

Fixpoint read_record_from (mode : ReadMode) (record : string) : list string :=
  match record with
  | EmptyString => [EmptyString]
  | String c rest =>
      match mode with
      | AtFieldStart =>
          if Ascii.eqb c double_quote then read_record_from InQuotedField rest
          else if Ascii.eqb c "," then EmptyString :: read_record_from AtFieldStart rest
          else push_char c (read_record_from InPlainField rest)
      | InPlainField =>
          if Ascii.eqb c "," then EmptyString :: read_record_from AtFieldStart rest
          else push_char c (read_record_from InPlainField rest)
      | InQuotedField =>
          if Ascii.eqb c double_quote then
            match rest with
            | String c' rest' =>
                if Ascii.eqb c' double_quote
                then push_char double_quote (read_record_from InQuotedField rest')
                else read_record_from InPlainField rest
            | EmptyString => [EmptyString]
            end
          else push_char c (read_record_from InQuotedField rest)
      end
  end.

Definition read_record (record : string) : list string :=
  read_record_from AtFieldStart record.

(** The lines of a text: [text.split] at every line feed. *)
Fixpoint lines (text : string) : list string :=
  match text with
  | EmptyString => [EmptyString]
  | String c rest =>
      if Ascii.eqb c line_feed then EmptyString :: lines rest
      else push_char c (lines rest)
  end.

(** The text of a cell: what the [escapeCSV] of the enrichment script and of
    the basic scraper escape, and what the one of the full scraper
    escapes. *)
Definition cell_text (value : JsValue) : string :=
  match value with
  | JNull | JUndefined => ""
  | _ => csv_text (ToString value)
  end.

Definition full_cell_text (value : JsValue) : string :=
  match value with
  | JNull | JUndefined => ""
  | JArr items => csv_text (join "; " items)
  | _ => csv_text (ToString value)
  end.

(** [(v || []).join('; ')] raises, for [joined first v]. *)
Definition unjoinable (first : option nat) (v : JsValue) : bool :=
  match js_or v (JArr []) with
  | JArr items =>
      existsb unprintable (match first with Some n => take n items | None => items end)
  | _ => true
  end.

(** Building the row of a result raises in [saveOutputs] of the enrichment
    script: one of the joins raises, or one of the conversions of
    [escapeCSV]. *)
Definition row_raises (m : JsObject) : Prop :=
  Exists (fun k => unjoinable None (field m k) = true)
    ["personal_emails"; "work_emails"; "emails"; "phones"; "twitter"] \/
  unjoinable (Some 10%nat) (field m "skills") = true \/
  Exists (fun k => unprintable (field m k) = true)
    ["id"; "investor_id"; "investor_slug"; "name"; "title"; "headline"; "linkedin_url";
     "location"; "country"; "industry"; "enriched"; "enriched_at"] \/
  unprintable (js_or (prop_opt (field m "current_company") "name") (JStr "")) = true.

(** The cells of the row of one result, as [saveOutputs] of the enrichment
    script builds them. *)
Definition csv_row (m : JsObject) : option (list string) :=
  cells ← EnrichOutputs.csv_cells m; mapM EnrichOutputs.escapeCSV cells.

(** A table written row by row, as [saveToCSV] and [arrayToCSV] do: one line
    of titles, then for every item the escaped values of its properties
    [keys], separated by commas. *)
Definition write_table (escape : JsValue -> option string) (titles keys : list string)
    (data : list JsValue) : option string :=
  rows ← mapM (fun item =>
                 cells ← mapM (fun k => value ← prop item k; escape value) keys;
                 Some (join_strings "," cells)) data;
  Some (join_strings (String line_feed EmptyString) (join_strings "," titles :: rows)).

(** A column title that is written as it is and read as it is. *)
Definition plain_title (title : string) : bool :=
  negb (String.eqb title "")
  && negb (includes_char "," title)
  && negb (includes_char double_quote title)
  && negb (includes_char line_feed title).

(** ** The extraction functions of the full scraper *)

Module FullExtract.

(** [v.trim()] and [v.replace(/[\r\n]+/g, ' ').trim()]: a [TypeError] unless
    [v] is a string (no other parsed value has these methods). *)
Definition trimmed (v : JsValue) : option JsValue :=
  match v with
  | JStr s => Some (JStr (trim s))
  | _ => None
  end.

Definition flattened (v : JsValue) : option JsValue :=
  match v with
  | JStr s => Some (JStr (trim (replace_line_breaks s)))
  | _ => None
  end.

(** [extractInvestor(data)] (lines 810-859); [now] is the text of
    [new Date().toISOString()]. *)
Definition extractInvestor (data : JsValue) (now : string) : option JsObject :=
  attributes ← prop data "attributes";
  let attrs := js_or attributes (JObj ∅) in
  let attr k := prop_opt attrs k in
  object_literal [
    ("id", prop data "id");
    ("name", Some (js_or (attr "name") (JStr "")));
    ("slug", Some (js_or (attr "slug") (JStr "")));
    ("website", trimmed (js_or (attr "website") (JStr "")));
    ("secondary_website", trimmed (js_or (attr "secondary-website") (JStr "")));
    ("description", flattened (js_or (attr "description") (JStr "")));
    ("city", Some (js_or (attr "city") (JStr "")));
    ("region", Some (js_or (attr "region") (JStr "")));
    ("country", Some (js_or (attr "country") (JStr "")));
    ("check_size_min", Some (js_or (attr "min-check-size") JNull));
    ("check_size_max", Some (js_or (attr "max-check-size") JNull));
    ("sweet_spot", Some (js_or (attr "sweet-spot-check-size") JNull));
    ("fund_size", Some (js_or (attr "recent-fund-size") JNull));
    ("fund_close_date", Some (js_or (attr "recent-fund-close-date") JNull));
    ("stages", Some (js_or (attr "stages") (JArr [])));
    ("focus", Some (js_or (attr "focus") (JArr [])));
    ("tags", Some (js_or (attr "tags") (JArr [])));
    ("fund_types", Some (js_or (attr "fund-types") (JArr [])));
    ("leads_investments", Some (attr "leads-investments"));
    ("co_invests", Some (attr "co-invests"));
    ("takes_board_seats", Some (attr "takes-board-seats"));
    ("thesis", flattened (js_or (attr "thesis") (JStr "")));
    ("traction_metrics",
       flattened (js_or (attr "traction-metrics-requirements") (JStr "")));
    ("investment_geography", Some (js_or (attr "investment-geography") (JArr [])));
    ("twitter_url", Some (js_or (attr "twitter-url") (JStr "")));
    ("linkedin_url", Some (js_or (attr "linkedin-url") (JStr "")));
    ("verified", Some (js_or (attr "verified") (JBool false)));
    ("badges", Some (js_or (attr "badges") (JArr [])));
    ("profile_url",
       id ← prop data "id";
       text ← string_of (js_or (attr "slug") id);
       Some (JStr ("https://connect.visible.vc/investors/" +:+ text)));
    ("scraped_at", Some (JStr now))
  ].

(** [extractTeamMember(data, investorId, investorSlug)] (lines 861-875). *)
Definition extractTeamMember (data investorId : JsValue) (investorSlug : string)
    (now : string) : option JsObject :=
  attributes ← prop data "attributes";
  let attrs := js_or attributes (JObj ∅) in
  let attr k := prop_opt attrs k in
  let avatarKey := attr "external-image-s3-key" in
  object_literal [
    ("id", prop data "id");
    ("investor_id", Some investorId);
    ("investor_slug", Some (JStr investorSlug));
    ("name", Some (js_or (attr "name") (JStr "")));
    ("title", trimmed (js_or (attr "title") (JStr "")));
    ("linkedin_url", Some (js_or (attr "linkedin-url") (JStr "")));
    ("twitter_url", Some (js_or (attr "twitter-url") (JStr "")));
    ("avatar_url",
       if truthy avatarKey
       then text ← string_of avatarKey;
            Some (JStr ("https://d31s0k9giryrah.cloudfront.net/" +:+ text))
       else Some (JStr ""));
    ("scraped_at", Some (JStr now))
  ].

End FullExtract.

(** The attributes the extraction functions read: [data.attributes || {}]. *)
Definition attributes_of (data : JsValue) : JsValue :=
  js_or (prop_opt data "attributes") (JObj ∅).

(** While a slug is processed the world extracts as [extractInvestor] and
    [extractTeamMember] do, at some time of the clock. *)
Definition extracts_as_written (w : Full.ItemWorld) : Prop :=
  (forall data, exists now,
     Full.extractInvestor w data = FullExtract.extractInvestor data now) /\
  (forall data investorId slug, exists now,
     Full.extractTeamMember w data investorId slug
     = FullExtract.extractTeamMember data investorId slug now).

(** A team member refers to one of the investors and to one of the slugs. *)
Definition refers_to (investors : list JsObject) (slugs : list string) (member : JsObject)
  : Prop :=
  (exists investor, investor ∈ investors /\
                    member !! "investor_id" = Some (field investor "id")) /\
  (exists slug, slug ∈ slugs /\ member !! "investor_slug" = Some (JStr slug)).

(** A string method is called on [v || '']: it raises when [v] is truthy and
    not a string. *)
Definition not_text (v : JsValue) : bool :=
  truthy v && match v with JStr _ => false | _ => true end.

(** ** The members [enrich] considers (enrich_investors.js, lines 508-545) *)

Module EnrichSelection.

(** [c.toLowerCase()] for a code unit below 256: the capital letters are A
    to Z and the letters from 192 to 222 other than the multiplication sign
    (215). *)
Definition lower_char (c : ascii) : ascii :=
  let n := nat_of_ascii c in
  if (((65 <=? n) && (n <=? 90)) || ((192 <=? n) && (n <=? 214))
      || ((216 <=? n) && (n <=? 222)))%nat
  then ascii_of_nat (n + 32)
  else c.

Fixpoint toLowerCase (str : string) : string :=
  match str with
  | EmptyString => EmptyString
  | String c rest => String (lower_char c) (toLowerCase rest)
  end.

(** [str.startsWith(needle)] and [str.includes(needle)]. *)
Fixpoint startsWith (needle str : string) : bool :=
  match needle, str with
  | EmptyString, _ => true
  | String c needle', String c' str' => Ascii.eqb c c' && startsWith needle' str'
  | String _ _, EmptyString => false
  end.

Fixpoint includes (needle str : string) : bool :=
  startsWith needle str
  || match str with
     | EmptyString => false
     | String _ rest => includes needle rest
     end.

(** [(v || '').toLowerCase()]: a [TypeError] when [v] is truthy and not a
    string. *)
Definition lowered (v : JsValue) : option string :=
  match js_or v (JStr "") with
  | JStr s => Some (toLowerCase s)
  | _ => None
  end.

Definition usStates : list string := [
  "california"; "new york"; "texas"; "florida"; "illinois"; "massachusetts";
  "washington"; "colorado"; "georgia"; "pennsylvania"; "ohio"; "michigan";
  "north carolina"; "arizona"; "virginia"; "maryland"; "minnesota"; "oregon";
  "utah"; "connecticut"; "tennessee"; "indiana"; "missouri"; "wisconsin";
  "nevada"; "new jersey"; "delaware"; "district of columbia"
].

(** The callback of [allInvestors.filter] (lines 517-537). *)
Definition is_us_fund (inv : JsValue) : option bool :=
  c ← prop inv "country";
  country ← lowered c;
  r ← prop inv "region";
  region ← lowered r;
  if includes "united states" country || String.eqb country "us" || String.eqb country "usa"
  then Some true
  else Some (existsb (fun state => includes state region) usStates).

(** [items.filter(keep)], for a callback that may raise. *)
Fixpoint filter_raising (keep : JsValue -> option bool) (items : list JsValue)
  : option (list JsValue) :=
  match items with
  | [] => Some []
  | x :: later =>
      kept ← keep x;
      rest ← filter_raising keep later;
      Some (if (kept : bool) then x :: rest else rest)
  end.

(** The callback of [allTeamMembers.filter] (lines 544-546). *)
Definition has_linkedin_in (usFundSlugs : list JsValue) (m : JsValue) : option bool :=
  linkedin_url ← prop m "linkedin_url";
  if truthy linkedin_url then
    investor_slug ← prop m "investor_slug";
    Some (set_has usFundSlugs investor_slug)
  else Some false.

(** [membersWithLinkedIn] from the two parsed files (lines 510-546); [None]
    is an exception, which leaves [enrich]. *)
Definition membersWithLinkedIn (allTeamMembers allInvestors : JsValue)
  : option (list JsValue) :=
  match allTeamMembers, allInvestors with
  | JArr members, JArr investors =>
      usFunds ← filter_raising is_us_fund investors;
      usFundSlugs ← mapM (fun f => prop f "slug") usFunds;
      filter_raising (has_linkedin_in usFundSlugs) members
  | _, _ => None
  end.

(** A selected member is an object (lemma [selected_are_objects]); this is
    the object behind the value. *)
Definition as_object (v : JsValue) : option JsObject :=
  match v with
  | JObj o => Some o
  | _ => None
  end.

(** [enrich(options)] from the two parsed files to its end (lines 510-656);
    [None] is an exception raised while the members are selected. *)
Definition enrich (cfg : Enrich.Config) (opts : Enrich.Options)
    (allTeamMembers allInvestors : JsValue) (stored : option Enrich.Progress)
    (worlds : list Enrich.World)
  : option (Enrich.Progress * list Enrich.Event * Ending) :=
  selected ← membersWithLinkedIn allTeamMembers allInvestors;
  Some (Enrich.enrich cfg opts (omap as_object selected) stored worlds).

End EnrichSelection.

(** A team member [enrich] may spend a request on: an object with a truthy
    [linkedin_url] whose [investor_slug] is the [slug] of a fund of
    [investors] that the filter of lines 517-537 keeps. *)
Definition eligible (investors : list JsValue) (m : JsValue) : Prop :=
  exists o fund,
    m = JObj o /\
    truthy (field o "linkedin_url") = true /\
    fund ∈ investors /\
    EnrichSelection.is_us_fund fund = Some true /\
    strict_eq (field o "investor_slug") (prop_opt fund "slug") = true.

(** A record of investors.json on which the filter of lines 517-537 raises:
    [null], or a [country] or [region] that is truthy and not a string. *)
Definition bad_fund (inv : JsValue) : Prop :=
  is_nullish inv = true \/
  not_text (prop_opt inv "country") = true \/
  not_text (prop_opt inv "region") = true.

(** ** The extraction function of the basic scraper *)

Module BasicExtract.

(** [(v || []).join(', ')]: a [TypeError] unless [v || []] is an array, and
    the one of [join]. *)
Definition joined (v : JsValue) : option JsValue :=
  match js_or v (JArr []) with
  | JArr items => JStr <$> join_of ", " items
  | _ => None
  end.

(** [extractInvestorData(investor)] (visible_investor_scraper.js, lines
    200-222); [now] is the text of [new Date().toISOString()]. *)
Definition extractInvestorData (investor : JsValue) (now : string) : option JsObject :=
  attributes ← prop investor "attributes";
  let attrs := js_or attributes (JObj ∅) in
  let attr k := prop_opt attrs k in
  object_literal [
    ("id", prop investor "id");
    ("name", Some (js_or (attr "name") (JStr "")));
    ("slug", Some (js_or (attr "slug") (JStr "")));
    ("website", Some (js_or (attr "website") (JStr "")));
    ("location", Some (js_or (attr "location") (JStr "")));
    ("check_size_min", Some (js_or (attr "check-size-min") JNull));
    ("check_size_max", Some (js_or (attr "check-size-max") JNull));
    ("check_size_display", Some (js_or (attr "check-size") (JStr "")));
    ("stages", joined (attr "stages"));
    ("stages_list", Some (js_or (attr "stages") (JArr [])));
    ("focuses", joined (attr "focuses"));
    ("focuses_list", Some (js_or (attr "focuses") (JArr [])));
    ("verified", Some (js_or (attr "verified") (JBool false)));
    ("partner", Some (js_or (attr "partner-name") (JStr "")));
    ("logo_url", Some (js_or (attr "logo-url") (JStr "")));
    ("profile_url",
       id ← prop investor "id";
       text ← string_of (js_or (attr "slug") id);
       Some (JStr ("https://connect.visible.vc/investors/" +:+ text)));
    ("scraped_at", Some (JStr now))
  ].

End BasicExtract.

(** The properties of a record of [extractInvestorData]. *)
Definition basic_record_keys : list string := [
  "id"; "name"; "slug"; "website"; "location"; "check_size_min"; "check_size_max";
  "check_size_display"; "stages"; "stages_list"; "focuses"; "focuses_list";
  "verified"; "partner"; "logo_url"; "profile_url"; "scraped_at"
].

(** The columns of [saveToCSV] that only [extractDetailedInvestorData]
    fills. *)
Definition detailed_only_keys : list string := [
  "city"; "country"; "description"; "twitter"; "linkedin"; "crunchbase"; "angellist"
].

(** ** Concrete inputs used by the examples *)

Definition team_member (id name : string) : JsObject :=
  list_to_map [
    ("id", JStr id);
    ("investor_id", JStr "17");
    ("investor_slug", JStr "acme-ventures");
    ("name", JStr name);
    ("title", JStr "Partner");
    ("linkedin_url", JStr ("https://www.linkedin.com/in/" +:+ name))
  ].

Definition ann : JsObject := team_member "tm-1" "ann".
Definition bob : JsObject := team_member "tm-2" "bob".
Definition cyd : JsObject := team_member "tm-3" "cyd".
Definition dee : JsObject := team_member "tm-4" "dee".
Definition eli : JsObject := team_member "tm-5" "eli".

(** A record whose [name] is a number. *)
Definition numbered : JsObject := <["name" := JNum 7]> (team_member "tm-6" "fay").

Definition fresh_run : Enrich.Options :=
  {| Enrich.limit := None; Enrich.delay := 1000; Enrich.resume := false;
     Enrich.dryRun := false |}.

(** The upstream answers 404 to the first attempt. *)
Definition answers_404 : Enrich.World :=
  {| Enrich.request_raises := false;
     Enrich.upstream := [Http 404 Unparsable];
     Enrich.now := "2024-05-01T00:00:00.000Z" |}.

(** The upstream answers 200 with a profile whose [email] is a text instead
    of a list of texts. *)
Definition answers_text_email : Enrich.World :=
  {| Enrich.request_raises := false;
     Enrich.upstream :=
       [Http 200 (Parsed (JObj (list_to_map [
          ("status_code", JNum 200);
          ("profile", JObj {["email" := JStr "ann@acme.example"]})])))];
     Enrich.now := "2024-05-01T00:00:00.000Z" |}.

(** The upstream answers 200 with a profile that has a list of emails. *)
Definition found_profile : Body :=
  Parsed (JObj (list_to_map [
    ("status_code", JNum 200);
    ("profile", JObj (list_to_map [
       ("full_name", JStr "A. Partner");
       ("email", JArr [JStr "partner@acme.example"])]))])).

Definition answers_profile : Enrich.World :=
  {| Enrich.request_raises := false;
     Enrich.upstream := [Http 200 found_profile];
     Enrich.now := "2024-05-01T00:00:00.000Z" |}.

(** The upstream answers 429 twice, then 200 with a profile. *)
Definition answers_429_twice : Enrich.World :=
  {| Enrich.request_raises := false;
     Enrich.upstream := [Http 429 Unparsable; Http 429 Unparsable; Http 200 found_profile];
     Enrich.now := "2024-05-01T00:00:00.000Z" |}.

(** The backoff sleeps of each fetch of a trace. *)
Definition retry_log (trace : list Enrich.Event) : list (list Z) :=
  omap (fun e => match e with Enrich.EvFetch _ _ backoff => Some backoff | _ => None end)
    trace.


Definition empty_scrape (n : nat) : Full.Progress :=
  {| Full.processedSlugs := [];
     Full.investors := [];
     Full.teamMembers := [];
     Full.investments := [];
     Full.total := n |}.

(** The upstream knows the slug and describes the investor with a number as
    [website], on which [extractInvestor] raises ([.trim] is not a function
    of a number). *)
Definition raising_item : Full.ItemWorld :=
  {| Full.investor_upstream :=
       [(Http 200 (Parsed (JObj {["data" :=
           JArr [JObj (list_to_map [
             ("id", JStr "42");
             ("attributes", JObj {["website" := JNum 5]})])]]})), 1 # 2)%Q];
     Full.team_upstream := [];
     Full.rounds_upstream := [];
     Full.extractInvestor := fun _ => None;
     Full.extractTeamMember := fun _ _ _ => None;
     Full.extractInvestment := fun _ _ _ => None |}.

(** The answer to every request of the slug is a 404. *)
Definition absent_slug : Full.ItemWorld :=
  {| Full.investor_upstream := [(Http 404 Unparsable, 1 # 2)%Q];
     Full.team_upstream := [];
     Full.rounds_upstream := [];
     Full.extractInvestor := fun _ => None;
     Full.extractTeamMember := fun _ _ _ => None;
     Full.extractInvestment := fun _ _ _ => None |}.

(** A world in which the extraction is done by [extractInvestor] and
    [extractTeamMember] at time [now]; the investments are not looked at. *)
Definition extracting_world (investor team rounds : list (Response * Q)) (now : string)
  : Full.ItemWorld :=
  {| Full.investor_upstream := investor;
     Full.team_upstream := team;
     Full.rounds_upstream := rounds;
     Full.extractInvestor := fun data => FullExtract.extractInvestor data now;
     Full.extractTeamMember :=
       fun data investorId slug => FullExtract.extractTeamMember data investorId slug now;
     Full.extractInvestment := fun _ _ _ => None |}.

(** The answers of the upstream for the slug "acme-ventures": the investor,
    two people, no round. *)
Definition acme_world : Full.ItemWorld :=
  extracting_world
    [(Http 200 (Parsed (JObj {["data" :=
        JArr [JObj (list_to_map [
          ("id", JStr "17");
          ("attributes", JObj (list_to_map [
             ("name", JStr "Acme Ventures"); ("slug", JStr "acme-ventures");
             ("website", JStr " https://acme.example ")]))])]]})), 1 # 2)%Q]
    [(Http 200 (Parsed (JObj {["data" :=
        JArr [JObj (list_to_map [
                ("id", JStr "tm-1");
                ("attributes", JObj (list_to_map [
                   ("name", JStr "Ann"); ("title", JStr "Partner ")]))]);
              JObj (list_to_map [("id", JStr "tm-2")])]]})), 1 # 2)%Q]
    [(Http 404 Unparsable, 1 # 2)%Q]
    "2024-05-01T00:00:00.000Z".

(** The configuration of the full scraper with a pause every 2 slugs. *)
Definition scrape_pause_every_2 : Full.Config :=
  {| Full.DEFAULT_DELAY := 2000;
     Full.MIN_DELAY_BETWEEN_CALLS := 1500;
     Full.INITIAL_RETRY_DELAY := 30000;
     Full.MAX_RETRY_DELAY := 300000;
     Full.PAUSE_EVERY := 2;
     Full.PAUSE_DURATION := 10000;
     Full.SAVE_EVERY := 10 |}.

(** The upstream knows the first and the third of five slugs. *)
Definition five_slugs : list string := ["s1"; "s2"; "s3"; "s4"; "s5"].
Definition two_known (slug : string) : Full.ItemWorld :=
  if String.eqb slug "s1" || String.eqb slug "s3" then acme_world else absent_slug.

(** A state of the scrape loop in which the pause is due and the investor
    collected last has an [id] without a string conversion. *)
Definition unwritable_checkpoint : Full.LoopState :=
  {| Full.progress :=
       {| Full.processedSlugs := ["s1"; "s2"];
          Full.investors := [{["id" := JObj {["toString" := JNull]}]}];
          Full.teamMembers := [];
          Full.investments := [];
          Full.total := 5 |};
     Full.processedSet := {["s1"; "s2"]};
     Full.processed := 2;
     Full.consecutiveInThisBatch := 2 |}.

Definition acme_fund : JsValue :=
  JObj (list_to_map [("slug", JStr "acme-ventures"); ("country", JStr "United States")]).
Definition bolt_fund : JsValue :=
  JObj (list_to_map [("slug", JStr "bolt"); ("country", JStr "France");
                        ("region", JStr "Paris")]).
Definition coda_fund : JsValue :=
  JObj (list_to_map [("slug", JStr "coda"); ("region", JStr "New York City")]).
Definition team_records : list JsValue :=
       [ JObj ann;
         JObj (list_to_map [("id", JStr "m9"); ("investor_slug", JStr "bolt");
                               ("linkedin_url", JStr "https://linkedin.example/in/m9")]);
         JObj (list_to_map [("id", JStr "m8"); ("investor_slug", JStr "acme-ventures")]);
         JObj bob ].
Definition team_file : JsValue := JArr team_records.

Definition acme_listing : JsValue :=
  JObj (list_to_map [
    ("id", JStr "inv-1");
    ("attributes", JObj (list_to_map [
       ("name", JStr "Acme, Inc."); ("slug", JStr "acme");
       ("stages", JArr [JStr "Seed"; JStr "Series A"]);
       ("verified", JBool true); ("check-size-min", JNum 50000)]))]).

(** ** Proof automation *)

(** Splits a goal [Forall P trace] along the shape of [trace] and hands each
    event to [tac]. *)
Ltac each_event tac :=
  repeat match goal with
  | |- Forall _ [] => constructor
  | |- Forall _ (_ :: _) => constructor
  | |- Forall _ (_ ++ _) => apply Forall_app_2
  | |- Forall _ (if ?b then _ else _) => destruct b
  | |- Forall _ _ => assumption
  | |- _ => tac
  end.

(** Comparisons of concrete rationals. *)
Ltac concrete_Q := unfold Qle, Qlt; cbn; lia.

Ltac absent_from_literal :=
  cbn [drop fmap list_fmap fst]; intros Hin;
  repeat (apply elem_of_cons in Hin as [Hin|Hin]; [discriminate|]);
  by apply elem_of_nil in Hin.

(** * Properties *)

(** ** Backoff *)

Example enrich_delays :
  map (Enrich.getRetryDelay Enrich.CONFIG) (seq 0 8)
  = [5000; 10000; 20000; 40000; 80000; 160000; 300000; 300000].
Proof. reflexivity. Qed.

Example full_delays_without_jitter :
  map (fun n => Full.getRetryDelay Full.CONFIG n (1 # 2)) (seq 0 6)
  = [30000; 60000; 120000; 240000; 300000; 300000].
Proof. reflexivity. Qed.

Lemma pow2_mono (a b : nat) : (a <= b)%nat -> 2 ^ Z.of_nat a <= 2 ^ Z.of_nat b.
Proof. intros H. apply Z.pow_le_mono_r; lia. Qed.

Lemma pow2_pos (a : nat) : 1 <= 2 ^ Z.of_nat a.
Proof. apply (pow2_mono 0 a). lia. Qed.

Lemma enrich_delay_formula (n : nat) :
  Enrich.getRetryDelay Enrich.CONFIG n = backoff_formula 5000 300000 6 n.
Proof. reflexivity. Qed.

(** The full scraper has no cap on the exponent, yet computes the same
    values: from exponent 4 on the product is above [MAX_RETRY_DELAY]. *)
Lemma full_capped_formula (n : nat) :
  Full.capped_delay Full.CONFIG n = backoff_formula 30000 300000 6 n.
Proof.
  unfold Full.capped_delay, backoff_formula.
  cbn [Full.INITIAL_RETRY_DELAY Full.MAX_RETRY_DELAY Full.CONFIG].
  destruct (Nat.le_gt_cases n 6) as [Hn|Hn].
  - by rewrite Nat.min_l.
  - rewrite Nat.min_r by lia.
    pose proof (pow2_mono 6 n ltac:(lia)) as H.
    change (2 ^ Z.of_nat 6) with 64 in *. lia.
Qed.

Lemma full_capped_range (n : nat) :
  30000 <= Full.capped_delay Full.CONFIG n <= 300000.
Proof.
  unfold Full.capped_delay.
  cbn [Full.INITIAL_RETRY_DELAY Full.MAX_RETRY_DELAY Full.CONFIG].
  pose proof (pow2_pos n). lia.
Qed.

Lemma capped_delay_mono (cfg : Full.Config) (n : nat) :
  0 <= Full.INITIAL_RETRY_DELAY cfg ->
  Full.capped_delay cfg n <= Full.capped_delay cfg (S n).
Proof.
  intros Hb. unfold Full.capped_delay.
  pose proof (pow2_mono n (S n) ltac:(lia)) as H.
  assert (Full.INITIAL_RETRY_DELAY cfg * 2 ^ Z.of_nat n
          <= Full.INITIAL_RETRY_DELAY cfg * 2 ^ Z.of_nat (S n)) by nia.
  lia.
Qed.

Lemma Math_round_bounds (x : Q) :
  (inject_Z (Math_round x) <= x + (1 # 2) /\ x - (1 # 2) < inject_Z (Math_round x))%Q.
Proof.
  unfold Math_round. split.
  - apply Qfloor_le.
  - pose proof (Qlt_floor (x + (1 # 2))) as H.
    rewrite inject_Z_plus in H. change (inject_Z 1) with 1%Q in H. lra.
Qed.

(** The jitter moves the delay by at most a tenth of its value (and the
    rounding by at most a half). *)
Lemma jitter_within_tenth (cfg : Full.Config) (n : nat) (random : Q) :
  (0 <= random)%Q -> (random < 1)%Q -> 0 <= Full.capped_delay cfg n ->
  9 * Full.capped_delay cfg n < 10 * Full.getRetryDelay cfg n random + 5 /\
  10 * Full.getRetryDelay cfg n random <= 11 * Full.capped_delay cfg n + 5.
Proof.
  intros H0 H1 Hd. unfold Full.getRetryDelay.
  set (d := Full.capped_delay cfg n) in *.
  set (x := (inject_Z d + inject_Z d * (2 # 10) * (random - (1 # 2)))%Q).
  destruct (Math_round_bounds x) as [Hu Hl].
  assert (HD : (0 <= inject_Z d)%Q)
    by (change 0%Q with (inject_Z 0); by rewrite <- Zle_Qle).
  assert (Hx1 : (x <= (11 # 10) * inject_Z d)%Q) by (unfold x; nra).
  assert (Hx2 : ((9 # 10) * inject_Z d <= x)%Q) by (unfold x; nra).
  split.
  - rewrite Zlt_Qlt, inject_Z_plus, !inject_Z_mult.
    change (inject_Z 9) with (9 # 1)%Q. change (inject_Z 10) with (10 # 1)%Q.
    change (inject_Z 5) with (5 # 1)%Q. lra.
  - rewrite Zle_Qle, inject_Z_plus, !inject_Z_mult.
    change (inject_Z 11) with (11 # 1)%Q. change (inject_Z 10) with (10 # 1)%Q.
    change (inject_Z 5) with (5 # 1)%Q. lra.
Qed.

Lemma jitter_mono (cfg : Full.Config) (n : nat) (random : Q) :
  (0 <= random)%Q -> 0 <= Full.INITIAL_RETRY_DELAY cfg ->
  Full.getRetryDelay cfg n random <= Full.getRetryDelay cfg (S n) random.
Proof.
  intros H0 Hb. unfold Full.getRetryDelay, Math_round.
  apply Qfloor_resp_le.
  pose proof (capped_delay_mono cfg n Hb) as Hm. rewrite Zle_Qle in Hm.
  set (a := inject_Z (Full.capped_delay cfg n)) in *.
  set (b := inject_Z (Full.capped_delay cfg (S n))) in *.
  nra.
Qed.

(** Below the cap each delay is at least 5/4 of the one before, which the
    jitter cannot undo. *)
Lemma jitter_increases_below_cap (n : nat) (random random' : Q) :
  (n < 4)%nat ->
  (0 <= random)%Q -> (random < 1)%Q -> (0 <= random')%Q -> (random' < 1)%Q ->
  Full.getRetryDelay Full.CONFIG n random <= Full.getRetryDelay Full.CONFIG (S n) random'.
Proof.
  intros Hn H0 H1 H0' H1'.
  pose proof (full_capped_range n) as Hr. pose proof (full_capped_range (S n)) as Hr'.
  destruct (jitter_within_tenth Full.CONFIG n random H0 H1) as [_ Hu]; [lia|].
  destruct (jitter_within_tenth Full.CONFIG (S n) random' H0' H1') as [Hl _]; [lia|].
  assert (Hstep : 11 * Full.capped_delay Full.CONFIG n + 10
                  <= 9 * Full.capped_delay Full.CONFIG (S n)).
  { do 4 (destruct n as [|n]; [vm_compute; discriminate|]). lia. }
  lia.
Qed.

Lemma enrich_delay_mono (n : nat) :
  Enrich.getRetryDelay Enrich.CONFIG n <= Enrich.getRetryDelay Enrich.CONFIG (S n)
  /\ Enrich.getRetryDelay Enrich.CONFIG (S n) <= 300000.
Proof.
  unfold Enrich.getRetryDelay.
  cbn [Enrich.INITIAL_RETRY_DELAY Enrich.MAX_RETRY_DELAY Enrich.CONFIG].
  pose proof (pow2_mono (Nat.min n 6) (Nat.min (S n) 6) ltac:(lia)). lia.
Qed.

(** C3. For every attempt count [n] the retry delay of the enrichment script
    is [min(5000 * 2^min(n, 6), 300000)]; the delay of the full scraper
    before jitter is [min(30000 * 2^min(n, 6), 300000)], and its jittered
    delay stays within 20% of that value, for every value [random] that
    [Math.random()] can return. *)
Theorem retry_delay_matches_formula (n : nat) (random : Q) :
  (0 <= random)%Q -> (random < 1)%Q ->
  Enrich.getRetryDelay Enrich.CONFIG n = backoff_formula 5000 300000 6 n /\
  Full.capped_delay Full.CONFIG n = backoff_formula 30000 300000 6 n /\
  5 * Z.abs (Full.getRetryDelay Full.CONFIG n random - backoff_formula 30000 300000 6 n)
    <= backoff_formula 30000 300000 6 n.
Proof.
  intros H0 H1. split; [apply enrich_delay_formula|]. split; [apply full_capped_formula|].
  rewrite <- full_capped_formula.
  pose proof (full_capped_range n) as Hr.
  destruct (jitter_within_tenth Full.CONFIG n random H0 H1) as [Hl Hu]; lia.
Qed.

(** The delays of attempt 3, with the draw 1/4 for the full scraper. *)
Lemma retry_delay_matches_formula_witness :
  Enrich.getRetryDelay Enrich.CONFIG 3 = 40000 /\
  Full.capped_delay Full.CONFIG 3 = 240000 /\
  5 * Z.abs (Full.getRetryDelay Full.CONFIG 3 (1 # 4) - 240000) <= 240000.
Proof.
  apply (retry_delay_matches_formula 3 (1 # 4)); concrete_Q.
Defined.

(** In the enrichment script the delay after one and the same answer is
    non-decreasing from an attempt count to the next, and at most
    [MAX_RETRY_DELAY]. *)
Lemma enrich_same_answer_mono (res : Response) (n : nat) (d d' : Z) :
  Enrich.on_response Enrich.CONFIG res n = RetryAfter d ->
  Enrich.on_response Enrich.CONFIG res (S n) = RetryAfter d' ->
  d <= d' /\ d' <= 300000.
Proof.
  pose proof (enrich_delay_mono n) as [Hm Hb].
  unfold Enrich.on_response.
  destruct res as [statusCode data| |error_draw second_retry].
  - destruct (statusCode =? 200).
    { destruct data as [|json]; [intros [= <-] [= <-]; lia|].
      destruct (prop json "status_code"), (prop json "profile");
        try (intros [= <-] [= <-]; lia).
      destruct (strict_eq _ _ && truthy _); discriminate. }
    destruct (statusCode =? 429); [intros [= <-] [= <-]; lia|].
    destruct (statusCode =? 403); [intros [= <-] [= <-]; lia|].
    destruct (statusCode >=? 500); [intros [= <-] [= <-]; lia|].
    destruct ((statusCode =? 404) || (statusCode =? 400)); [discriminate|].
    intros [= <-] [= <-]; lia.
  - intros [= <-] [= <-]; lia.
  - intros [= <-] [= <-]; lia.
Qed.

(** In the full scraper the delay after one and the same answer, computed
    with the same draws, is non-decreasing from an attempt count to the
    next. *)
Lemma full_same_answer_mono (res : Response) (n : nat) (random : Q) (d d' : Z) :
  (0 <= random)%Q ->
  match res with
  | RequestTimeout error_draw _ => (0 <= error_draw)%Q
  | _ => True
  end ->
  Full.on_response Full.CONFIG res n random = RetryAfter d ->
  Full.on_response Full.CONFIG res (S n) random = RetryAfter d' ->
  d <= d'.
Proof.
  intros H0 Hres.
  pose proof (jitter_mono Full.CONFIG n random H0 ltac:(done)) as Hm.
  unfold Full.on_response.
  destruct res as [statusCode data| |error_draw second_retry].
  - destruct (statusCode =? 200).
    { destruct data as [|json]; [intros [= <-] [= <-]; lia|discriminate]. }
    destruct (statusCode =? 429); [intros [= <-] [= <-]; lia|].
    destruct (statusCode >=? 500); [intros [= <-] [= <-]; lia|].
    destruct (statusCode >=? 400); [discriminate|].
    intros [= <-] [= <-]; lia.
  - intros [= <-] [= <-]; lia.
  - pose proof (jitter_mono Full.CONFIG n error_draw Hres ltac:(done)) as Hm'.
    intros [= <-] [= <-]; lia.
Qed.

(** C4, as it holds.  In the enrichment script the delay computed after one
    and the same kind of answer is non-decreasing from an attempt count to
    the next and at most 300000 ms: the backoff delay, the backoff delay
    raised to the floor of 60 s after an HTTP 403, and so the delay of every
    handler; from a 403 to an answer of another kind it can decrease (60000
    ms at attempt 0, then 10000 ms after a 429 at attempt 1).  In the full
    scraper the delay before jitter is non-decreasing and at most 300000 ms;
    the jittered delay, its double after an HTTP 429 and so the delay of
    every handler are non-decreasing for one and the same draw, and for any
    two draws up to attempt 4, where the cap is reached; from a 429 to an
    answer of another kind the delay can decrease (64500 ms at attempt 0,
    then 55500 ms after a 503 at attempt 1). *)
Theorem retry_delay_monotone_bounded (n : nat) (random random' : Q) :
  (0 <= random)%Q -> (random < 1)%Q -> (0 <= random')%Q -> (random' < 1)%Q ->
  (Enrich.getRetryDelay Enrich.CONFIG n <= Enrich.getRetryDelay Enrich.CONFIG (S n)
   /\ Enrich.getRetryDelay Enrich.CONFIG (S n) <= Enrich.MAX_RETRY_DELAY Enrich.CONFIG) /\
  (Z.max (Enrich.getRetryDelay Enrich.CONFIG n) 60000
     <= Z.max (Enrich.getRetryDelay Enrich.CONFIG (S n)) 60000
   /\ Z.max (Enrich.getRetryDelay Enrich.CONFIG (S n)) 60000
     <= Enrich.MAX_RETRY_DELAY Enrich.CONFIG) /\
  (forall res d d',
     Enrich.on_response Enrich.CONFIG res n = RetryAfter d ->
     Enrich.on_response Enrich.CONFIG res (S n) = RetryAfter d' ->
     d <= d' /\ d' <= Enrich.MAX_RETRY_DELAY Enrich.CONFIG) /\
  (Enrich.on_response Enrich.CONFIG (Http 403 Unparsable) 0 = RetryAfter 60000 /\
   Enrich.on_response Enrich.CONFIG (Http 429 Unparsable) 1 = RetryAfter 10000) /\
  (Full.capped_delay Full.CONFIG n <= Full.capped_delay Full.CONFIG (S n)
   /\ Full.capped_delay Full.CONFIG (S n) <= Full.MAX_RETRY_DELAY Full.CONFIG) /\
  (Full.getRetryDelay Full.CONFIG n random <= Full.getRetryDelay Full.CONFIG (S n) random
   /\ Full.getRetryDelay Full.CONFIG n random * 2
      <= Full.getRetryDelay Full.CONFIG (S n) random * 2) /\
  (forall res d d',
     match res with
     | RequestTimeout error_draw _ => (0 <= error_draw)%Q
     | _ => True
     end ->
     Full.on_response Full.CONFIG res n random = RetryAfter d ->
     Full.on_response Full.CONFIG res (S n) random = RetryAfter d' ->
     d <= d') /\
  ((n < 4)%nat ->
   Full.getRetryDelay Full.CONFIG n random <= Full.getRetryDelay Full.CONFIG (S n) random'
   /\ Full.getRetryDelay Full.CONFIG n random * 2
      <= Full.getRetryDelay Full.CONFIG (S n) random' * 2) /\
  (Full.on_response Full.CONFIG (Http 429 Unparsable) 0 (7 # 8) = RetryAfter 64500 /\
   Full.on_response Full.CONFIG (Http 503 Unparsable) 1 (1 # 8) = RetryAfter 55500).
Proof.
  intros H0 H1 H0' H1'.
  pose proof (enrich_delay_mono n) as [He1 He2].
  pose proof (full_capped_range n) as Hr. pose proof (full_capped_range (S n)) as Hr'.
  pose proof (jitter_mono Full.CONFIG n random H0 ltac:(done)) as Hm.
  cbn [Enrich.MAX_RETRY_DELAY Enrich.CONFIG Full.MAX_RETRY_DELAY Full.CONFIG].
  split; [lia|]. split; [lia|].
  split; [intros res d d'; apply enrich_same_answer_mono|].
  split; [by split|].
  split; [split; [by apply capped_delay_mono|lia]|].
  split; [lia|].
  split; [intros res d d'; by apply full_same_answer_mono|].
  split; [|by split].
  intros Hn. pose proof (jitter_increases_below_cap n random random' Hn H0 H1 H0' H1'). lia.
Qed.

(** Attempts 4 and 5 of the full scraper with the draw 7/8. *)
Lemma retry_delay_monotone_bounded_witness :
  (0 <= 7 # 8)%Q /\ (7 # 8 < 1)%Q /\
  Full.getRetryDelay Full.CONFIG 4 (7 # 8) <= Full.getRetryDelay Full.CONFIG 5 (7 # 8) /\
  Enrich.getRetryDelay Enrich.CONFIG 4 <= Enrich.getRetryDelay Enrich.CONFIG 5.
Proof.
  assert (H0 : (0 <= 7 # 8)%Q) by concrete_Q.
  assert (H1 : (7 # 8 < 1)%Q) by concrete_Q.
  pose proof (retry_delay_monotone_bounded 4 (7 # 8) (7 # 8) H0 H1 H0 H1)
    as ([He _] & _ & _ & _ & _ & [Hm _] & _).
  repeat split; assumption.
Defined.

(** C4, as stated, fails in the full scraper.  At attempt 4 the delay after
    an HTTP 429 is 600000 ms with the neutral draw 1/2; with the draw 7/8 the
    jittered delay is 322500 ms, above [MAX_RETRY_DELAY]; and with the draw
    1/8 at attempt 5 it is 277500 ms, below the delay of attempt 4. *)
Lemma full_scraper_delay_exceeds_max :
  Full.on_response Full.CONFIG (Http 429 Unparsable) 4 (1 # 2) = RetryAfter 600000 /\
  Full.MAX_RETRY_DELAY Full.CONFIG = 300000 /\
  Full.getRetryDelay Full.CONFIG 4 (7 # 8) = 322500 /\
  Full.getRetryDelay Full.CONFIG 5 (1 # 8) = 277500 /\
  Full.MAX_RETRY_DELAY Full.CONFIG < Full.getRetryDelay Full.CONFIG 4 (7 # 8) /\
  Full.getRetryDelay Full.CONFIG 5 (1 # 8) < Full.getRetryDelay Full.CONFIG 4 (7 # 8).
Proof. repeat split. Qed.

(** ** Classification of responses *)

Example enrich_200_with_profile :
  Enrich.enrichLinkedInProfile Enrich.CONFIG
    [Http 429 Unparsable; Http 503 Unparsable;
     Http 200 (Parsed (JObj (list_to_map [
       ("status_code", JNum 200); ("profile", JObj {["full_name" := JStr "Ann"]})])))] 0
  = ([5000; 10000], Resolved (JObj {["full_name" := JStr "Ann"]})).
Proof. reflexivity. Qed.

Example enrich_200_without_profile :
  Enrich.enrichLinkedInProfile Enrich.CONFIG
    [Http 200 (Parsed (JObj {["status_code" := JNum 404]}))] 0
  = ([], Resolved JNull).
Proof. reflexivity. Qed.

Lemma enrich_404_400 (cfg : Enrich.Config) (statusCode : Z) (data : Body)
    (later : list Response) (n : nat) :
  statusCode = 404 \/ statusCode = 400 ->
  Enrich.enrichLinkedInProfile cfg (Http statusCode data :: later) n = ([], Resolved JNull).
Proof. intros [-> | ->]; reflexivity. Qed.

Lemma full_404_400 (cfg : Full.Config) (statusCode : Z) (data : Body) (random : Q)
    (later : list (Response * Q)) (n : nat) :
  statusCode = 404 \/ statusCode = 400 ->
  Full.makeRequest cfg ((Http statusCode data, random) :: later) n = ([], Resolved JNull).
Proof. intros [-> | ->]; reflexivity. Qed.

(** C5. A response with status 404 or 400 ends the fetch at once: both
    fetchers resolve to [null] without sleeping or retrying, whatever the
    attempt count, and whatever the upstream would answer later.  The
    enrichment loop, for a member whose request is issued, then records the
    member as not found and moves to the next index; the scrape loop, past
    the checkpoint of a periodic pause, marks the slug processed and moves
    on. *)
Theorem client_error_404_400_is_terminal (statusCode : Z) (data : Body) :
  statusCode = 404 \/ statusCode = 400 ->
  (forall cfg later n,
     Enrich.enrichLinkedInProfile cfg (Http statusCode data :: later) n
     = ([], Resolved JNull)) /\
  (forall cfg random later n,
     Full.makeRequest cfg ((Http statusCode data, random) :: later) n
     = ([], Resolved JNull)) /\
  (forall cfg opts todo w s member later,
     todo !! Enrich.i s = Some member ->
     Enrich.printProgress_raises (field member "name") = false ->
     unprintable (field member "linkedin_url") = false ->
     Enrich.request_raises w = false ->
     Enrich.upstream w = Http statusCode data :: later ->
     exists evs,
       Enrich.iteration cfg opts todo w s =
         ({| Enrich.i := S (Enrich.i s);
             Enrich.consecutiveInBatch := S (Enrich.consecutiveInBatch s);
             Enrich.progress :=
               Enrich.record_result (Enrich.progress s) member
                 (<["enriched_at" := JNull]> (<["enriched" := JBool false]> member)) false |},
          evs, Normal) /\
       Enrich.EvFetch member (Enrich.processedIds (Enrich.progress s)) [] ∈ evs) /\
  (forall cfg opts w slug s random later,
     Full.checkpoint_raises cfg s = false ->
     Full.investor_upstream w = (Http statusCode data, random) :: later ->
     exists evs,
       Full.loop_body cfg opts w slug s = (Full.mark_processed slug s, evs, Normal) /\
       Full.EvFetchInvestor slug [] ∈ evs).
Proof.
  intros Hs. split; [intros; by apply enrich_404_400|].
  split; [intros; by apply full_404_400|]. split.
  - intros cfg opts todo w s member later Hk Hp Hurl Hr Hup.
    unfold Enrich.iteration, Enrich.try_body, Enrich.call_raises.
    rewrite Hk, Hp, Hurl, Hr, Hup, (enrich_404_400 _ _ _ _ _ Hs). cbn [Enrich.extractEnrichedData truthy negb andb].
    eexists. split; [reflexivity|].
    apply elem_of_app. left. apply elem_of_app. right. left.
  - intros cfg opts w slug s random later Hsave Hup.
    unfold Full.loop_body, Full.try_body, Full.fetchInvestorBySlug.
    rewrite Hsave, Hup, (full_404_400 _ _ _ _ _ _ Hs). cbn [truthy negb].
    eexists. split; [reflexivity|].
    apply elem_of_app. right. apply elem_of_app. right. right. left.
Qed.

(** A 404 followed by what would have been a success. *)
Lemma client_error_404_400_is_terminal_witness :
  Enrich.enrichLinkedInProfile Enrich.CONFIG
    [Http 404 Unparsable; Http 200 (Parsed (JObj ∅))] 0 = ([], Resolved JNull).
Proof.
  apply (proj1 (client_error_404_400_is_terminal 404 Unparsable (or_introl eq_refl))).
Defined.

(** C6, as it holds.  In the enrichment script and in the full scraper a
    response with status 429 is retried at every attempt count [n]: the
    fetcher sleeps for the backoff delay of [n] (doubled in the full scraper)
    and goes on with attempt [n + 1].  In the basic scraper it is retried
    after a fixed 5000 ms while [n < 3] and rejected from [n = 3] on. *)
Theorem rate_limit_429_retry_policy (data : Body) (n : nat) :
  (forall cfg later,
     Enrich.enrichLinkedInProfile cfg (Http 429 data :: later) n =
     (Enrich.getRetryDelay cfg n :: (Enrich.enrichLinkedInProfile cfg later (S n)).1,
      (Enrich.enrichLinkedInProfile cfg later (S n)).2)) /\
  (forall cfg random later,
     Full.makeRequest cfg ((Http 429 data, random) :: later) n =
     (Full.getRetryDelay cfg n random * 2 :: (Full.makeRequest cfg later (S n)).1,
      (Full.makeRequest cfg later (S n)).2)) /\
  Basic.on_response (Http 429 data) n =
    (if (n <? 3)%nat then RetryAfter 5000 else Reject).
Proof.
  repeat split.
  - intros. cbn. by destruct (Enrich.enrichLinkedInProfile _ _ _).
  - intros. cbn. by destruct (Full.makeRequest _ _ _).
Qed.

(** C6, as stated, fails in the basic scraper: the fourth 429 in a row
    rejects the request, although the upstream would have answered 200 to
    one more attempt. *)
Lemma basic_scraper_rejects_fourth_429 :
  Basic.makeRequest
    [Http 429 Unparsable; Http 429 Unparsable; Http 429 Unparsable; Http 429 Unparsable;
     Http 200 (Parsed (JObj ∅))] 0
  = ([5000; 5000; 5000], Rejected).
Proof. reflexivity. Qed.

(** C7, as it holds.  In the enrichment script a response with status 403 is
    retried, after [max(backoff delay, 60000)] ms, which is at least 60 s.
    In the full scraper a 403 is a client error: the request resolves to
    [null] at once and the item is skipped. *)
Theorem forbidden_403_policy (data : Body) (n : nat) :
  (forall cfg,
     Enrich.on_response cfg (Http 403 data) n
     = RetryAfter (Z.max (Enrich.getRetryDelay cfg n) 60000)
     /\ 60000 <= Z.max (Enrich.getRetryDelay cfg n) 60000) /\
  (forall cfg later,
     Enrich.enrichLinkedInProfile cfg (Http 403 data :: later) n =
     (Z.max (Enrich.getRetryDelay cfg n) 60000
        :: (Enrich.enrichLinkedInProfile cfg later (S n)).1,
      (Enrich.enrichLinkedInProfile cfg later (S n)).2)) /\
  (forall cfg random later,
     Full.makeRequest cfg ((Http 403 data, random) :: later) n = ([], Resolved JNull)).
Proof.
  split; [intros; split; [reflexivity|lia]|]. split.
  - intros. cbn. by destruct (Enrich.enrichLinkedInProfile _ _ _).
  - reflexivity.
Qed.

(** C7, as stated, fails in the full scraper: a 403 is not retried, the
    request resolves to [null] although the next attempt would have
    succeeded. *)
Lemma full_scraper_skips_403 :
  Full.makeRequest Full.CONFIG
    [(Http 403 Unparsable, 1 # 2); (Http 200 (Parsed (JObj ∅)), 1 # 2)]%Q 0
  = ([], Resolved JNull).
Proof. reflexivity. Qed.

(** ** The record of a member that was not found *)

Lemma team_member_record_not_flagged (m : JsObject) :
  team_member_record m -> m !! "enriched" = None /\ m !! "enriched_at" = None.
Proof.
  intros Hm. split; apply not_elem_of_dom; intros Hin; apply Hm in Hin;
    apply elem_of_list_to_set in Hin; cbn in Hin;
    repeat (apply elem_of_cons in Hin as [Hin|Hin]; [discriminate|]);
    by apply elem_of_nil in Hin.
Qed.

(** C10.  For every record [m] of the team-member table,
    [extractEnrichedData(m, null)] returns an object that has every property
    of [m] with its value, [enriched] set to [false] and [enriched_at] set to
    [null], and nothing else; the two are new properties, [m] has neither. *)
Theorem not_found_record_fields (m : JsObject) (now : string) :
  team_member_record m ->
  exists r : JsObject,
    Enrich.extractEnrichedData m JNull now = Some r /\
    r !! "enriched" = Some (JBool false) /\
    r !! "enriched_at" = Some JNull /\
    (forall (k : string) (v : JsValue), m !! k = Some v -> r !! k = Some v) /\
    (forall k : string, k <> "enriched" -> k <> "enriched_at" -> r !! k = m !! k) /\
    dom r = dom m ∪ {["enriched"; "enriched_at"]} /\
    ("enriched" ∉ dom m) /\ ("enriched_at" ∉ dom m).
Proof.
  intros Hm. destruct (team_member_record_not_flagged m Hm) as [He Ha].
  eexists. split; [reflexivity|].
  split; [rewrite lookup_insert_ne by done; apply lookup_insert_eq|].
  split; [apply lookup_insert_eq|].
  split; [intros k v Hk; rewrite !lookup_insert_ne; [done| |]; intros <-; congruence|].
  split; [intros k H1 H2; by rewrite !lookup_insert_ne|].
  split; [rewrite !dom_insert_L; set_solver|].
  split; by apply not_elem_of_dom.
Qed.

(** The record of a member that the upstream does not know. *)
Lemma not_found_record_fields_witness :
  exists r : JsObject,
    Enrich.extractEnrichedData ann JNull "2024-05-01T00:00:00.000Z" = Some r /\
    r !! "enriched" = Some (JBool false) /\
    r !! "name" = Some (JStr "ann").
Proof.
  destruct (not_found_record_fields ann "2024-05-01T00:00:00.000Z")
    as (r & Hr & He & _ & Hkeep & _).
  - unfold team_member_record, ann, team_member. rewrite dom_list_to_map_L.
    intros k Hk. apply elem_of_list_to_set in Hk. apply elem_of_list_to_set.
    cbn in Hk |- *.
    repeat (apply elem_of_cons in Hk as [->|Hk];
            [apply list_elem_of_In; cbn [In]; repeat (first [left; reflexivity | right])|]).
    by apply elem_of_nil in Hk.
  - exists r. split; [exact Hr|]. split; [exact He|]. by apply Hkeep.
Defined.

(** Outside the team-member table: a record that already has an [enriched]
    property has its value replaced. *)
Lemma not_found_record_overwrites_enriched :
  exists r : JsObject,
    Enrich.extractEnrichedData {["enriched" := JBool true]} JNull
      "2024-05-01T00:00:00.000Z" = Some r /\
    ({["enriched" := JBool true]} : JsObject) !! "enriched" = Some (JBool true) /\
    r !! "enriched" = Some (JBool false).
Proof.
  eexists. split; [reflexivity|]. split.
  - apply lookup_singleton_eq.
  - rewrite lookup_insert_ne by done. apply lookup_insert_eq.
Qed.

(** ** The records built by [extractEnrichedData] *)

Lemma object_literal_aborted (props : list (string * option JsValue)) :
  foldl (fun acc kv => o ← acc; v ← kv.2; Some (<[kv.1 := v]> o)) None props
  = (None : option JsObject).
Proof. induction props as [|kv props IH]; [done|]. cbn. apply IH. Qed.

Lemma object_literal_keeps (k : string) (v : JsValue) :
  forall (props : list (string * option JsValue)) (acc o : JsObject),
  foldl (fun acc kv => o ← acc; v ← kv.2; Some (<[kv.1 := v]> o)) (Some acc) props = Some o ->
  acc !! k = Some v ->
  k ∉ props.*1 ->
  o !! k = Some v.
Proof.
  induction props as [|[k' ov] props IH]; intros acc o Hfold Hacc Hk.
  - cbn in Hfold. congruence.
  - cbn in Hfold, Hk. apply not_elem_of_cons in Hk as [Hne Hk].
    destruct ov as [v'|]; cbn in Hfold.
    + eapply IH; [exact Hfold| |exact Hk]. by rewrite lookup_insert_ne.
    + by rewrite object_literal_aborted in Hfold.
Qed.

(** A property written once in an object literal has the value written. *)
Lemma object_literal_first (k : string) (v : JsValue)
    (rest : list (string * option JsValue)) (o : JsObject) :
  object_literal ((k, Some v) :: rest) = Some o ->
  k ∉ rest.*1 ->
  o !! k = Some v.
Proof.
  unfold object_literal. cbn [foldl]. cbn [mbind option_bind snd fst].
  intros H Hk. eapply object_literal_keeps; [exact H|apply lookup_insert_eq|exact Hk].
Qed.

(** Found or not, the record built for a member carries the member's id. *)
Lemma extract_keeps_id (m : JsObject) (v : JsValue) (now : string) (e : JsObject) :
  Enrich.extractEnrichedData m v now = Some e -> member_id e = member_id m.
Proof.
  unfold Enrich.extractEnrichedData, member_id. destruct (truthy v); cbn [negb].
  - intros H. apply object_literal_first in H.
    + unfold field at 1. by rewrite H.
    + cbn [fmap list_fmap fst]. intros Hin.
      repeat (apply elem_of_cons in Hin as [Hin|Hin]; [discriminate|]).
      by apply elem_of_nil in Hin.
  - intros [= <-]. unfold field. by rewrite !lookup_insert_ne.
Qed.

Example extract_found :
  (fun r => (field r "id", field r "name", field r "emails", field r "enriched"))
    <$> Enrich.extractEnrichedData ann
          (JObj (list_to_map [("full_name", JStr "Ann A."); ("email", JArr [JStr "a@x.example"])]))
          "2024-05-01T00:00:00.000Z"
  = Some (JStr "tm-1", JStr "Ann A.", JArr [JStr "a@x.example"], JBool true).
Proof. vm_compute. reflexivity. Qed.

(** A profile whose [experience] is not a list makes the extraction raise. *)
Example extract_raises :
  Enrich.extractEnrichedData ann (JObj {["experience" := JStr "ten years"]})
    "2024-05-01T00:00:00.000Z" = None.
Proof. vm_compute. reflexivity. Qed.

(** ** Runs in which every pass completes *)


Section EnrichCleanRun.
Import Enrich.




End EnrichCleanRun.

Section ScrapeCleanRun.
Import Full.





End ScrapeCleanRun.



(** A run that ends as [c] and whose final record and trace satisfy [P]. *)
Lemma run_ends {A B C : Type} (r : A * B * C) (c : C) (P : A -> B -> Prop) :
  (let '(a, b, c') := r in c' = c /\ P a b) ->
  exists a b, r = (a, b, c) /\ P a b.
Proof. destruct r as [[a b] c']. intros [-> H]. by exists a, b. Qed.

(** The scenario of the design document: of five items the third is
    answered 429 twice and then 200.  The run completes with five successes;
    the third fetch sleeps twice, for 5 s and for 10 s. *)
Example third_item_rate_limited_twice :
  exists final trace,
    Enrich.enrich Enrich.CONFIG fresh_run [ann; bob; cyd; dee; eli] None
      [answers_profile; answers_profile; answers_429_twice; answers_profile; answers_profile]
    = (final, trace, Completed) /\
    Enrich.stats final
      = {| Enrich.total := 5; Enrich.enriched := 5; Enrich.notFound := 0;
           Enrich.noLinkedIn := 0 |} /\
    retry_log trace = [[]; []; [5000; 10000]; []; []].
Proof. apply run_ends; vm_compute; repeat split. Qed.

(** The scenario of the design document: an item answered 404 is recorded as
    not found without a retry and the run goes on with the next item. *)
Example not_found_then_next_item :
  exists final trace,
    Enrich.enrich Enrich.CONFIG fresh_run [ann; bob] None [answers_404; answers_profile]
    = (final, trace, Completed) /\
    Enrich.stats final
      = {| Enrich.total := 2; Enrich.enriched := 1; Enrich.notFound := 1;
           Enrich.noLinkedIn := 0 |} /\
    fetch_log trace = [(JStr "tm-1", []); (JStr "tm-2", [JStr "tm-1"])] /\
    retry_log trace = [[]; []].
Proof. apply run_ends; vm_compute; repeat split. Qed.

(** On resume the members whose ids are in the loaded record are left out of
    the work list, and [--limit] cuts what remains. *)
Example resume_skips_processed :
  Enrich.toProcess [ann; bob; cyd; dee; eli]
    {| Enrich.processedIds := [JStr "tm-1"; JStr "tm-3"];
       Enrich.enrichedMembers := [];
       Enrich.stats := Enrich.stats Enrich.empty_progress |}
    {| Enrich.limit := Some 2; Enrich.delay := 1000; Enrich.resume := true;
       Enrich.dryRun := false |}
  = [bob; dee].
Proof. reflexivity. Qed.



(** A checkpoint whose output files cannot be written: the pass ends in the
    call of [saveOutputs], and the loop is left. *)
Example checkpoint_raises_leaves_loop :
  Full.saveOutputs_raises (Full.progress unwritable_checkpoint) = true /\
  Full.for_slugs scrape_pause_every_2 {| Full.delay := 2000 |} two_known five_slugs
    unwritable_checkpoint
  = (unwritable_checkpoint,
     [Full.EvProgressLine 3 5; Full.EvSave (Full.progress unwritable_checkpoint);
      Full.EvOutputs (Full.progress unwritable_checkpoint)],
     Aborted).
Proof. split; vm_compute; reflexivity. Qed.

(** ** What every path of the enrichment loop preserves *)

Section EnrichInvariants.
Import Enrich.

Lemma record_result_aligned p m v now e found :
  extractEnrichedData m v now = Some e ->
  aligned p -> aligned (record_result p m e found).
Proof.
  intros He Hp. unfold aligned, record_result in *. cbn [enrichedMembers processedIds].
  rewrite map_app, Hp. cbn [map]. by rewrite (extract_keeps_id _ _ _ _ He).
Qed.

Lemma try_body_aligned cfg opts todo w s member s' evs c :
  try_body cfg opts todo w s member = (s', evs, c) ->
  aligned (progress s) ->
  aligned (progress s') /\ Forall checkpoint_aligned evs.
Proof.
  unfold try_body. intros H Hp.
  assert (Hrec : forall v e found, extractEnrichedData member v (now w) = Some e ->
                   aligned (record_result (progress s) member e found))
    by (intros; by eapply record_result_aligned).
  destruct (printProgress_raises _);
    [injection H as <- <- <-; split; [done|each_event ltac:(exact I || assumption)]|].
  destruct (call_raises w member);
    [injection H as <- <- <-; split; [done|each_event ltac:(exact I || assumption)]|].
  destruct (enrichLinkedInProfile cfg (upstream w) 0) as [backoff out].
  destruct out as [v| |];
    try (injection H as <- <- <-; split; [done|each_event ltac:(exact I || assumption)]).
  destruct (extractEnrichedData member v (now w)) as [e|] eqn:He;
    [|injection H as <- <- <-; split; [done|each_event ltac:(exact I || assumption)]].
  pose proof (Hrec v e (truthy v) He) as Hp'.
  destruct (show_emails_raises v);
    injection H as <- <- <-;
    (split; [exact Hp'|each_event ltac:(exact I || assumption)]).
Qed.

Lemma iteration_aligned cfg opts todo w s s' evs c :
  iteration cfg opts todo w s = (s', evs, c) ->
  aligned (progress s) ->
  aligned (progress s') /\ Forall checkpoint_aligned evs.
Proof.
  unfold iteration. destruct (todo !! i s) as [member|];
    [|intros [= <- <- <-]; split; [done|constructor]].
  destruct (try_body cfg opts todo w s member) as [[s1 evs1] c1] eqn:Htry.
  intros H Hp. destruct (try_body_aligned _ _ _ _ _ _ _ _ _ Htry Hp) as [H1 H2].
  destruct c1; [|destruct (unprintable _)|]; injection H as <- <- <-;
    (split; [done|each_event ltac:(exact I || assumption)]).
Qed.

Lemma while_loop_aligned cfg opts todo : forall worlds s s' evs e,
  while_loop cfg opts todo worlds s = (s', evs, e) ->
  aligned (progress s) ->
  aligned (progress s') /\ Forall checkpoint_aligned evs.
Proof.
  induction worlds as [|w ws IH]; intros s s' evs e H Hp; cbn [while_loop] in H.
  - destruct (i s <? length todo)%nat; injection H as <- <- <-; (split; [done|constructor]).
  - destruct (i s <? length todo)%nat; [|injection H as <- <- <-; split; [done|constructor]].
    destruct (iteration cfg opts todo w s) as [[s1 evs1] c1] eqn:Hit.
    destruct (iteration_aligned _ _ _ _ _ _ _ _ Hit Hp) as [H1 H2].
    destruct (while_loop cfg opts todo ws s1) as [[s2 evs2] e2] eqn:Hloop.
    destruct (IH _ _ _ _ Hloop H1) as [H3 H4].
    destruct c1; injection H as <- <- <-; (split; [done|each_event fail]).
Qed.

(** X1. On every path of the enrichment loop, the [catch] block included,
    every saved progress record has as many results as processed ids, the [k]-th
    result carrying the [k]-th id, provided the record the run started from
    had; and so has the final record. *)
Theorem checkpoints_stay_aligned cfg opts members stored worlds final trace e :
  enrich cfg opts members stored worlds = (final, trace, e) ->
  aligned (loadProgress stored) ->
  Forall checkpoint_aligned trace /\
  aligned final /\
  length (enrichedMembers final) = length (processedIds final).
Proof.
  unfold enrich. intros H Hst.
  set (p := if resume opts then loadProgress stored else empty_progress) in *.
  assert (Hp : aligned p) by (unfold p; by destruct (resume opts)).
  assert (Hlen : forall q, aligned q -> length (enrichedMembers q) = length (processedIds q)).
  { intros q Hq. by rewrite <- Hq, length_map. }
  destruct (dryRun opts); [injection H as <- <- <-; split; [constructor|auto]|].
  destruct (length _ =? 0)%nat; [injection H as <- <- <-; split; [constructor|auto]|].
  destruct (while_loop _ _ _ _ _) as [[s evs] e'] eqn:Hloop.
  destruct (while_loop_aligned _ _ _ _ _ _ _ _ Hloop Hp) as [H1 H2].
  destruct e'; injection H as <- <- <-;
    (split; [each_event ltac:(exact I || assumption)|auto]).
Qed.

Lemma strict_eq_true a b : strict_eq a b = true -> a = b.
Proof.
  destruct a, b; cbn; try discriminate; intros H; try done.
  - by apply Bool.eqb_prop in H as ->.
  - by apply Z.eqb_eq in H as ->.
  - by apply String.eqb_eq in H as ->.
Qed.

Lemma set_has_absent ids x : x ∉ ids -> set_has ids x = false.
Proof.
  unfold set_has. induction ids as [|y ids IH]; intros Hx; [done|].
  apply not_elem_of_cons in Hx as [Hne Hx]. cbn. rewrite (IH Hx), orb_false_r.
  destruct (strict_eq x y) eqn:E; [|done]. by apply strict_eq_true in E.
Qed.

Lemma set_has_present ids x : is_primitive x = true -> x ∈ ids -> set_has ids x = true.
Proof.
  intros Hx Hin. unfold set_has. apply existsb_exists. exists x. split.
  - by apply list_elem_of_In.
  - destruct x; try done; cbn.
    + by destruct b.
    + apply Z.eqb_refl.
    + apply String.eqb_refl.
Qed.

Lemma set_has_app ids ids' x : set_has (ids ++ ids') x = set_has ids x || set_has ids' x.
Proof. apply existsb_app. Qed.

Lemma id_not_among_earlier (todo : list JsObject) k m :
  NoDup (member_id <$> todo) -> todo !! k = Some m ->
  member_id m ∉ member_id <$> take k todo.
Proof.
  intros Hnd Hk Hin.
  rewrite <- (take_drop_middle todo k m Hk), fmap_app, fmap_cons in Hnd.
  apply NoDup_app in Hnd as (_ & Hdisj & _).
  apply (Hdisj _ Hin). left.
Qed.

Lemma try_body_unprocessed cfg opts todo ids0 w s member s' evs c :
  NoDup (member_id <$> todo) ->
  (forall m, m ∈ todo -> set_has ids0 (member_id m) = false) ->
  todo !! i s = Some member ->
  raises_after_recording cfg member w = false ->
  progress_tracks ids0 todo s ->
  try_body cfg opts todo w s member = (s', evs, c) ->
  progress_tracks ids0 todo s' /\ Forall fetched_unprocessed evs.
Proof.
  intros Hnd Hfresh Hk Hlate Htrack. unfold raises_after_recording in Hlate.
  assert (Hunp : forall backoff,
            fetched_unprocessed (EvFetch member (processedIds (progress s)) backoff)).
  { intros backoff. cbn. rewrite Htrack, set_has_app.
    rewrite (Hfresh member) by (by eapply list_elem_of_lookup_2).
    apply set_has_absent, id_not_among_earlier; done. }
  unfold try_body. intros H.
  destruct (printProgress_raises _);
    [injection H as <- <- <-; split; [done|each_event ltac:(exact I || apply Hunp)]|].
  destruct (call_raises w member);
    [injection H as <- <- <-; split; [done|each_event ltac:(exact I || apply Hunp)]|].
  destruct (enrichLinkedInProfile cfg (upstream w) 0) as [backoff out].
  destruct out as [v| |];
    try (injection H as <- <- <-; split; [done|each_event ltac:(exact I || apply Hunp)]).
  destruct (extractEnrichedData member v (now w)) as [e|] eqn:He;
    [|injection H as <- <- <-; split; [done|each_event ltac:(exact I || apply Hunp)]].
  cbn [negb andb] in Hlate. rewrite Hlate in H.
  injection H as <- <- <-. split; [|each_event ltac:(exact I || apply Hunp)].
  unfold progress_tracks, record_result. cbn [i progress processedIds].
  by rewrite (take_S_r _ _ _ Hk), fmap_app, app_assoc, <- Htrack.
Qed.

Lemma iteration_unprocessed cfg opts todo ids0 w s s' evs c :
  NoDup (member_id <$> todo) ->
  (forall m, m ∈ todo -> set_has ids0 (member_id m) = false) ->
  (forall m, m ∈ todo -> raises_after_recording cfg m w = false) ->
  progress_tracks ids0 todo s ->
  iteration cfg opts todo w s = (s', evs, c) ->
  progress_tracks ids0 todo s' /\ Forall fetched_unprocessed evs.
Proof.
  intros Hnd Hfresh Hlate Htrack. unfold iteration.
  destruct (todo !! i s) as [member|] eqn:Hk;
    [|intros [= <- <- <-]; split; [done|constructor]].
  destruct (try_body cfg opts todo w s member) as [[s1 evs1] c1] eqn:Htry.
  destruct (try_body_unprocessed cfg opts todo ids0 w s member s1 evs1 c1)
    as (H1 & H2); try done.
  { apply Hlate. by eapply list_elem_of_lookup_2. }
  intros H. destruct c1; [|destruct (unprintable _)|]; injection H as <- <- <-;
    (split; [done|each_event ltac:(exact I)]).
Qed.

Lemma while_loop_unprocessed cfg opts todo ids0 : forall worlds s s' evs e,
  NoDup (member_id <$> todo) ->
  (forall m, m ∈ todo -> set_has ids0 (member_id m) = false) ->
  (forall m w, m ∈ todo -> w ∈ worlds -> raises_after_recording cfg m w = false) ->
  progress_tracks ids0 todo s ->
  while_loop cfg opts todo worlds s = (s', evs, e) ->
  progress_tracks ids0 todo s' /\ Forall fetched_unprocessed evs.
Proof.
  induction worlds as [|w ws IH]; intros s s' evs e Hnd Hfresh Hlate Htrack H;
    cbn [while_loop] in H.
  - destruct (i s <? length todo)%nat; injection H as <- <- <-; (split; [done|constructor]).
  - destruct (i s <? length todo)%nat; [|injection H as <- <- <-; split; [done|constructor]].
    destruct (iteration cfg opts todo w s) as [[s1 evs1] c1] eqn:Hit.
    destruct (iteration_unprocessed cfg opts todo ids0 w s s1 evs1 c1) as [H1 H2]; try done.
    { intros m Hm. apply Hlate; [done|left]. }
    destruct (while_loop cfg opts todo ws s1) as [[s2 evs2] e2] eqn:Hloop.
    assert (H3 : progress_tracks ids0 todo s2 /\ Forall fetched_unprocessed evs2).
    { eapply IH; try done. intros m w' Hm Hw. apply Hlate; [done|by right]. }
    destruct H3 as [H3 H4].
    destruct c1; injection H as <- <- <-; (split; [done|each_event fail]).
Qed.

Lemma filter_sublist {A} (f : A -> bool) (l : list A) : List.filter f l `sublist_of` l.
Proof.
  induction l as [|x l IH]; cbn; [constructor|].
  destruct (f x); by constructor.
Qed.

Lemma slice_sublist {A} (l : list A) (limit : option Z) :
  slice_from_start l limit `sublist_of` l.
Proof.
  unfold slice_from_start. destruct limit as [n|]; [|done].
  destruct (n <? 0); apply sublist_take.
Qed.

Lemma toProcess_sublist members p opts : toProcess members p opts `sublist_of` members.
Proof.
  unfold toProcess. etrans; [apply slice_sublist | apply filter_sublist].
Qed.

(** The work list holds no member whose id is in the loaded [processedIds]. *)
Lemma toProcess_unprocessed members p opts m :
  m ∈ toProcess members p opts -> set_has (processedIds p) (member_id m) = false.
Proof.
  unfold toProcess. intros Hm.
  eapply elem_of_sublist in Hm; [|apply slice_sublist].
  apply list_elem_of_In, filter_In in Hm as [_ Hm]. by apply negb_true_iff in Hm.
Qed.

(** X2. When the eligible members have pairwise distinct ids and no pass
    raises after its result was recorded, every call of the fetcher by the
    loop is for a member whose id is not in [processedIds] at that time (the
    retries inside a call ask for the member of the call); and when moreover
    the ids are primitive values and the loaded record lists no id twice,
    the final record lists no id twice. *)
Theorem distinct_ids_never_refetched cfg opts members stored worlds final trace e :
  NoDup (member_id <$> members) ->
  (forall m w, m ∈ members -> w ∈ worlds -> raises_after_recording cfg m w = false) ->
  enrich cfg opts members stored worlds = (final, trace, e) ->
  Forall fetched_unprocessed trace /\
  (Forall (fun m => is_primitive (member_id m) = true) members ->
   NoDup (processedIds (loadProgress stored)) ->
   NoDup (processedIds final)).
Proof.
  intros Hnd Hlate. unfold enrich.
  set (p := if resume opts then loadProgress stored else empty_progress).
  assert (Hp0 : NoDup (processedIds (loadProgress stored)) -> NoDup (processedIds p)).
  { unfold p. destruct (resume opts); [done|]. intros _. constructor. }
  destruct (dryRun opts); [intros [= <- <- <-]; split; [constructor|auto]|].
  destruct (length _ =? 0)%nat; [intros [= <- <- <-]; split; [constructor|auto]|].
  destruct (while_loop _ _ _ _ _) as [[s evs] e'] eqn:Hloop. intros H.
  assert (Hsub : toProcess members p opts `sublist_of` members) by apply toProcess_sublist.
  assert (Hnd' : NoDup (member_id <$> toProcess members p opts)).
  { apply (sublist_NoDup _ (member_id <$> members)); [exact Hnd|]. by apply fmap_sublist. }
  assert (Hevs : progress_tracks (processedIds p) (toProcess members p opts) s
                 /\ Forall fetched_unprocessed evs).
  { eapply (while_loop_unprocessed cfg opts _ (processedIds p)); [done| | | |exact Hloop].
    - intros m Hm. by eapply toProcess_unprocessed.
    - intros m w Hm Hw. apply Hlate; [|done]. by eapply elem_of_sublist.
    - unfold progress_tracks, initial_state. cbn. by rewrite app_nil_r. }
  destruct Hevs as [Htrack Hevs].
  assert (Hfinal : progress s = final /\ Forall fetched_unprocessed trace).
  { destruct e'; injection H as <- <- <-; (split; [done|each_event ltac:(exact I)]). }
  destruct Hfinal as [<- Htrace]. split; [done|].
  intros Hprim Hst. rewrite Htrack. apply NoDup_app. split; [auto|]. split.
  - intros x Hx Hin. apply list_elem_of_fmap in Hin as (m & -> & Hm).
    eapply elem_of_sublist in Hm; [|apply sublist_take].
    pose proof (toProcess_unprocessed _ _ _ _ Hm) as Hfresh.
    rewrite set_has_present in Hfresh; [done| |done].
    eapply (proj1 (Forall_forall _ _) Hprim). by eapply elem_of_sublist.
  - apply (sublist_NoDup _ (member_id <$> toProcess members p opts)); [done|].
    apply fmap_sublist, sublist_take.
Qed.

Lemma try_body_raised cfg opts todo w s member s' evs :
  try_body cfg opts todo w s member = (s', evs, Raised) ->
  i s' = i s /\ consecutiveInBatch s' = consecutiveInBatch s.
Proof.
  unfold try_body. intros H.
  destruct (printProgress_raises _); [by injection H as <- <-|].
  destruct (call_raises w member); [by injection H as <- <-|].
  destruct (enrichLinkedInProfile cfg (upstream w) 0) as [backoff out].
  destruct out as [v| |]; try by injection H as <- <-.
  destruct (extractEnrichedData member v (now w)) as [e|];
    [|by injection H as <- <-].
  destruct (show_emails_raises v); [by injection H as <- <-|discriminate].
Qed.

End EnrichInvariants.

(** The [try] block of a slug touches neither the processed slugs nor the
    counters, and it never waits as a [catch] block would. *)
Lemma scrape_try_body_frame cfg opts w slug s s1 evs c :
  Full.try_body cfg opts w slug s = (s1, evs, c) ->
  Full.processedSlugs (Full.progress s1) = Full.processedSlugs (Full.progress s) /\
  Full.processedSet s1 = Full.processedSet s /\
  Full.processed s1 = Full.processed s /\
  Full.consecutiveInThisBatch s1 = Full.consecutiveInThisBatch s /\
  Forall (fun e => scrape_mark e = MPace \/ scrape_mark e = MFetch) evs.
Proof.
  unfold Full.try_body. intros H.
  destruct (Full.fetchInvestorBySlug cfg (Full.investor_upstream w)) as [backoff out].
  destruct out as [v| |];
    try (injection H as <- <- _; repeat split; each_event ltac:(by (left + right))).
  destruct (truthy v);
    [|injection H as <- <- _; repeat split; each_event ltac:(by (left + right))].
  destruct (Full.extractInvestor w v) as [investor|];
    [|injection H as <- <- _; repeat split; each_event ltac:(by (left + right))].
  destruct (Full.fetchTeamMembers cfg (Full.team_upstream w)) as [backoff2 out2].
  destruct out2 as [teamData| |];
    try (injection H as <- <- _; repeat split; each_event ltac:(by (left + right))).
  destruct (Full.push_array _ teamData _) as [team [|]];
    [injection H as <- <- _; repeat split; each_event ltac:(by (left + right))|].
  destruct (Full.fetchInvestments cfg (Full.rounds_upstream w)) as [backoff3 out3].
  destruct out3 as [roundsData| |];
    try (injection H as <- <- _; repeat split; each_event ltac:(by (left + right))).
  destruct (Full.push_array _ roundsData _) as [rounds raised].
  injection H as <- <- _; repeat split; each_event ltac:(by (left + right)).
Qed.

(** C9, as it holds.  In the enrichment script, when the [try] block of a
    pass raises for a member whose name has a string conversion, the [catch]
    block logs the error, saves the progress record as the [try] block left
    it, waits [INITIAL_RETRY_DELAY] and lets the loop go on with the same
    index, so the same member is attempted again; the [catch] block itself
    records nothing.  In the full scraper, when the [try] block of a slug
    raises, the [catch] block logs the error and marks the slug processed,
    and the loop advances: the trace of the pass is what precedes the [try]
    block (the progress line and, when due, the periodic pause), the events
    of the [try] block, the error line and, when the count of processed slugs
    has reached a multiple of [SAVE_EVERY], the periodic save that follows
    every pass; the [catch] block makes no save of its own and waits for
    nothing. *)
Theorem catch_branch_behaviour :
  (forall cfg opts todo w s member s' evs,
     todo !! Enrich.i s = Some member ->
     unprintable (field member "name") = false ->
     Enrich.try_body cfg opts todo w s member = (s', evs, Raised) ->
     Enrich.iteration cfg opts todo w s =
       (s', evs ++ [Enrich.EvError member; Enrich.EvSave (Enrich.progress s');
                    Enrich.EvSleep CatchWait (Enrich.INITIAL_RETRY_DELAY cfg)], Normal) /\
     Enrich.i s' = Enrich.i s /\
     todo !! Enrich.i s' = Some member /\
     (forall later,
        Enrich.while_loop cfg opts todo (w :: later) s =
          (let '(s2, evs2, e) := Enrich.while_loop cfg opts todo later s' in
           (s2,
            (evs ++ [Enrich.EvError member; Enrich.EvSave (Enrich.progress s');
                     Enrich.EvSleep CatchWait (Enrich.INITIAL_RETRY_DELAY cfg)]) ++ evs2,
            e)))) /\
  (forall cfg opts w slug s s1 evs,
     Full.checkpoint_raises cfg s = false ->
     Full.try_body cfg opts w slug s = (s1, evs, Raised) ->
     exists s2 evs2,
       Full.loop_body cfg opts w slug s = (s2, evs2, Normal) /\
       s2 = Full.mark_processed slug s1 /\
       evs2 =
         [Full.EvProgressLine (S (Full.processed s)) (Full.total (Full.progress s))]
         ++ (if Full.pause_due cfg s
             then [Full.EvSave (Full.progress s); Full.EvOutputs (Full.progress s);
                   Full.EvSleep BatchPause (Full.PAUSE_DURATION cfg)]
             else [])
         ++ evs ++ [Full.EvError slug]
         ++ (if (S (Full.processed s) mod Full.SAVE_EVERY cfg =? 0)%nat
             then [Full.EvSave (Full.progress s2)] else []) /\
       Full.processedSlugs (Full.progress s2)
         = Full.processedSlugs (Full.progress s) ++ [slug] /\
       slug ∈ Full.processedSet s2 /\
       Full.processed s2 = S (Full.processed s) /\
       Forall (fun e => scrape_mark e = MPace \/ scrape_mark e = MFetch) evs /\
       Forall (fun e => scrape_mark e <> MWait) evs2).
Proof.
  split.
  - intros cfg opts todo w s member s' evs Hk Hname Htry.
    destruct (try_body_raised _ _ _ _ _ _ _ _ Htry) as [Hi _].
    assert (Hit : Enrich.iteration cfg opts todo w s =
              (s', evs ++ [Enrich.EvError member; Enrich.EvSave (Enrich.progress s');
                           Enrich.EvSleep CatchWait (Enrich.INITIAL_RETRY_DELAY cfg)],
               Normal))
      by (unfold Enrich.iteration; by rewrite Hk, Htry, Hname).
    split; [exact Hit|]. split; [exact Hi|]. split; [by rewrite Hi|].
    intros later. cbn [Enrich.while_loop]. rewrite Hit.
    by replace (Enrich.i s <? length todo)%nat with true
      by (symmetry; apply Nat.ltb_lt; by eapply lookup_lt_Some).
  - intros cfg opts w slug s s1 evs Hsave Htry. unfold Full.loop_body.
    rewrite Hsave, Htry.
    destruct (scrape_try_body_frame _ _ _ _ _ _ _ _ Htry) as (H1 & H2 & H3 & _ & H4).
    eexists _, _. split; [reflexivity|]. split; [reflexivity|].
    cbn [Full.mark_processed Full.progress Full.processedSlugs Full.processedSet
         Full.processed].
    rewrite H1, H2, H3.
    split; [reflexivity|]. split; [reflexivity|]. split; [set_solver|].
    split; [reflexivity|]. split; [exact H4|].
    each_event discriminate.
    eapply Forall_impl; [exact H4|]. intros e [-> | ->]; discriminate.
Qed.

(** A member whose name is a number makes the progress line raise. *)
Lemma catch_branch_behaviour_witness :
  Enrich.iteration Enrich.CONFIG fresh_run [numbered] answers_404
    (Enrich.initial_state Enrich.empty_progress)
  = (Enrich.initial_state Enrich.empty_progress,
     [Enrich.EvError numbered; Enrich.EvSave Enrich.empty_progress;
      Enrich.EvSleep CatchWait 5000],
     Normal).
Proof.
  apply (proj1 catch_branch_behaviour Enrich.CONFIG fresh_run [numbered] answers_404
           (Enrich.initial_state Enrich.empty_progress) numbered
           (Enrich.initial_state Enrich.empty_progress) []); reflexivity.
Defined.

(** A member whose name has no string conversion makes the progress line
    raise, and then the first statement of the [catch] block: nothing is
    logged, saved or waited for, and the loop is left. *)
Example catch_raises_on_unprintable_name :
  let member : JsObject := <["name" := JObj {["toString" := JNull]}]> ann in
  Enrich.iteration Enrich.CONFIG fresh_run [member] answers_404
    (Enrich.initial_state Enrich.empty_progress)
  = (Enrich.initial_state Enrich.empty_progress, [], Raised) /\
  Enrich.while_loop Enrich.CONFIG fresh_run [member] [answers_404; answers_404]
    (Enrich.initial_state Enrich.empty_progress)
  = (Enrich.initial_state Enrich.empty_progress, [], Aborted).
Proof. split; reflexivity. Qed.

(** C9, as stated, fails in the full scraper: the pass for a slug whose
    [try] block raises ends with the slug in [processedSlugs]; the trace has
    the error line and neither a save nor a wait after it. *)
Lemma scrape_catch_marks_processed :
  exists s',
    Full.loop_body Full.CONFIG {| Full.delay := 2000 |} raising_item "acme-ventures"
      (Full.initial_state (empty_scrape 1))
    = (s',
       [Full.EvProgressLine 1 1; Full.EvSleep Pacing 2000;
        Full.EvFetchInvestor "acme-ventures" []; Full.EvError "acme-ventures"],
       Normal)
    /\ Full.processedSlugs (Full.progress s') = ["acme-ventures"]
    /\ Full.processed s' = 1%nat.
Proof. eexists. split; [reflexivity|]. split; reflexivity. Qed.

(** ** Processing an item twice *)

(** The display of the emails found (lines 617-623) raises for an [email]
    that is a text, for an object whose [length] converts to a number above
    zero, and for a list with an element that has no string conversion; it
    does not for a list of texts, nor for an object whose [length] is no
    number. *)
Example emails_display_raises :
  map (fun email => Enrich.show_emails_raises (JObj {["email" := email]}))
    [JStr "ann@acme.example";
     JObj {["length" := JStr "5"]};
     JObj {["length" := JArr [JNum 2]]};
     JObj {["length" := JObj {["toString" := JNum 1]}]};
     JArr [JObj {["toString" := JNull]}];
     JArr [JStr "ann@acme.example"; JNull];
     JArr [];
     JObj {["length" := JStr "five"]};
     JObj {["length" := JStr "-5"]};
     JNum 5]
  = [true; true; true; true; true; false; false; false; false; false].
Proof. vm_compute. reflexivity. Qed.

(** C1 fails on the code.  When the same record is listed twice among the
    eligible members, and when the display of the emails raises after the
    result was recorded (a profile whose [email] is a text), the loop calls
    the fetcher for id "tm-1" a second time while "tm-1" is already in
    [processedIds]. *)
Theorem enrich_fetches_recorded_member_again :
  (exists final trace,
     Enrich.enrich Enrich.CONFIG fresh_run [ann; ann] None [answers_404; answers_404]
       = (final, trace, Completed) /\
     fetch_log trace = [(JStr "tm-1", []); (JStr "tm-1", [JStr "tm-1"])]) /\
  (exists final trace,
     Enrich.enrich Enrich.CONFIG fresh_run [ann] None [answers_text_email; answers_404]
       = (final, trace, Completed) /\
     fetch_log trace = [(JStr "tm-1", []); (JStr "tm-1", [JStr "tm-1"])]) /\
  set_has [JStr "tm-1"] (JStr "tm-1") = true.
Proof.
  split; [|split]; [(apply run_ends; vm_compute; repeat split)..|reflexivity].
Qed.

(** C2 fails on the code.  In the same two runs the progress record that is
    saved last lists the id "tm-1" twice, with two results for it; in the
    second run the [catch] block had saved the record with the id once just
    before the member was attempted again. *)
Theorem enrich_saves_repeated_id :
  (exists final trace,
     Enrich.enrich Enrich.CONFIG fresh_run [ann; ann] None [answers_404; answers_404]
       = (final, trace, Completed) /\
     Enrich.processedIds <$> saved trace = [[JStr "tm-1"; JStr "tm-1"]] /\
     Enrich.processedIds final = [JStr "tm-1"; JStr "tm-1"] /\
     length (Enrich.enrichedMembers final) = 2%nat) /\
  (exists final trace,
     Enrich.enrich Enrich.CONFIG fresh_run [ann] None [answers_text_email; answers_404]
       = (final, trace, Completed) /\
     Enrich.processedIds <$> saved trace = [[JStr "tm-1"]; [JStr "tm-1"; JStr "tm-1"]] /\
     Enrich.processedIds final = [JStr "tm-1"; JStr "tm-1"] /\
     length (Enrich.enrichedMembers final) = 2%nat).
Proof.
  split; apply run_ends; vm_compute; repeat split.
Qed.

(** The run in which the display of the emails raises. *)
Lemma checkpoints_stay_aligned_witness :
  exists final trace e,
    Enrich.enrich Enrich.CONFIG fresh_run [ann] None [answers_text_email; answers_404]
      = (final, trace, e) /\
    length (Enrich.enrichedMembers final) = length (Enrich.processedIds final).
Proof.
  destruct (Enrich.enrich Enrich.CONFIG fresh_run [ann] None
              [answers_text_email; answers_404]) as [[final trace] e] eqn:Hrun.
  exists final, trace, e. split; [reflexivity|].
  exact (proj2 (proj2 (checkpoints_stay_aligned _ _ _ _ _ _ _ _ Hrun eq_refl))).
Defined.

(** Two members with different ids, neither known to the upstream. *)
Lemma distinct_ids_never_refetched_witness :
  exists final trace e,
    Enrich.enrich Enrich.CONFIG fresh_run [ann; bob] None [answers_404; answers_404]
      = (final, trace, e) /\
    Forall fetched_unprocessed trace.
Proof.
  destruct (Enrich.enrich Enrich.CONFIG fresh_run [ann; bob] None
              [answers_404; answers_404]) as [[final trace] e] eqn:Hrun.
  exists final, trace, e. split; [reflexivity|].
  refine (proj1 (distinct_ids_never_refetched _ _ _ _ _ _ _ _ _ _ Hrun)).
  - change (NoDup [JStr "tm-1"; JStr "tm-2"]).
    apply NoDup_cons. split; [|apply NoDup_singleton].
    intros H. apply list_elem_of_singleton in H. discriminate H.
  - intros m w Hm Hw.
    apply elem_of_cons in Hw as [->|Hw];
      [|apply list_elem_of_singleton in Hw as ->];
      (apply elem_of_cons in Hm as [->|Hm];
       [|apply list_elem_of_singleton in Hm as ->]); reflexivity.
Defined.

(** * Properties of the surrounding code *)

(** ** Fetchers: how many attempts, and how a fetch can end *)

(** Induction on an answer, with the answers to the second retry of a
    timeout. *)
Lemma Response_nested_ind (P : Response -> Prop) :
  (forall statusCode data, P (Http statusCode data)) ->
  P NetworkError ->
  (forall error_draw second_retry,
     Forall (fun answer => P answer.1) second_retry ->
     P (RequestTimeout error_draw second_retry)) ->
  forall res, P res.
Proof.
  intros Hhttp Herror Htimeout. fix IH 1.
  intros [statusCode data| |error_draw second_retry]; [apply Hhttp|apply Herror|].
  apply Htimeout. induction second_retry as [|[res random] later IHlater];
    constructor; [apply IH|apply IHlater].
Qed.

Lemma sleeps_of_cons run runs : sleeps_of (run :: runs) = run.1 ++ sleeps_of runs.
Proof. reflexivity. Qed.

Lemma basic_makeRequest_bounded : forall upstream n,
  (length (Basic.makeRequest upstream n).1 <= Basic.MAX_RETRIES - n)%nat /\
  Forall (fun ms => ms = Basic.RETRY_DELAY) (Basic.makeRequest upstream n).1 /\
  ((Basic.MAX_RETRIES - n < length upstream)%nat ->
   (Basic.makeRequest upstream n).2 <> Pending).
Proof.
  induction upstream as [|res later IH]; intros n.
  - cbn. split; [lia|]. split; [constructor|]. lia.
  - cbn [Basic.makeRequest length].
    destruct (Basic.on_response res n) as [v|delay|] eqn:Hres.
    + cbn. split; [lia|]. split; [constructor|]. discriminate.
    + assert (Hlt : (n < Basic.MAX_RETRIES)%nat /\ delay = Basic.RETRY_DELAY).
      { unfold Basic.on_response in Hres.
        destruct res as [statusCode data| |]; [| |discriminate].
        - destruct (statusCode =? 200); [destruct data; discriminate|].
          destruct (statusCode =? 429); [|discriminate].
          destruct (n <? Basic.MAX_RETRIES)%nat eqn:Hn; [|discriminate].
          apply Nat.ltb_lt in Hn. by injection Hres as <-.
        - destruct (n <? Basic.MAX_RETRIES)%nat eqn:Hn; [|discriminate].
          apply Nat.ltb_lt in Hn. by injection Hres as <-. }
      destruct Hlt as [Hlt ->].
      destruct (IH (S n)) as (Hlen & Hall & Hset).
      destruct (Basic.makeRequest later (S n)) as [sleeps out]. cbn [fst snd length] in *.
      split; [lia|]. split; [by constructor|]. intros H. apply Hset. lia.
    + cbn. split; [lia|]. split; [constructor|]. discriminate.
Qed.

(** After a timeout has rejected the promise, the [error] handler goes on
    while [retryCount < MAX_RETRIES]. *)
Lemma basic_unawaited_of_timeout error_draw second_retry n :
  Basic.unawaited_of (RequestTimeout error_draw second_retry) n =
  if (n <? 3)%nat then
    (5000 :: (Basic.makeRequest second_retry.*1 (S n)).1,
     (Basic.makeRequest second_retry.*1 (S n)).2)
    :: Basic.unawaited second_retry.*1 (S n)
  else [].
Proof.
  cbn [Basic.unawaited_of]. change Basic.MAX_RETRIES with 3%nat.
  destruct (n <? 3)%nat; [|done].
  destruct (Basic.makeRequest second_retry.*1 (S n)) as [sleeps out].
  cbn [fst snd]. f_equal. generalize (S n).
  induction second_retry as [|[res random] later IH]; intros k; [done|].
  cbn [fmap list_fmap Basic.unawaited fst]. f_equal.
  by destruct (Basic.on_response res k).
Qed.

Lemma basic_retry_inv res n delay :
  Basic.on_response res n = RetryAfter delay ->
  (n < 3)%nat /\ delay = 5000 /\ Basic.unawaited_of res n = [].
Proof.
  unfold Basic.on_response. change Basic.MAX_RETRIES with 3%nat.
  destruct res as [statusCode data| |error_draw second_retry]; [| |discriminate].
  - destruct (statusCode =? 200); [destruct data; discriminate|].
    destruct (statusCode =? 429); [|discriminate].
    destruct (n <? 3)%nat eqn:Hn; [|discriminate].
    apply Nat.ltb_lt in Hn. by intros [= <-].
  - destruct (n <? 3)%nat eqn:Hn; [|discriminate].
    apply Nat.ltb_lt in Hn. by intros [= <-].
Qed.

(** The sleeps of a call and of the retries it leaves unawaited, given those
    of the retries left by each of its answers. *)
Lemma basic_call_bounded (upstream : list Response) :
  Forall (fun res => forall n,
            (length (sleeps_of (Basic.unawaited_of res n)) <= 3 - n)%nat /\
            Forall (fun ms => ms = 5000) (sleeps_of (Basic.unawaited_of res n))) upstream ->
  forall n,
    (length (sleeps_of (Basic.makeRequest upstream n :: Basic.unawaited upstream n))
     <= 3 - n)%nat /\
    Forall (fun ms => ms = 5000)
      (sleeps_of (Basic.makeRequest upstream n :: Basic.unawaited upstream n)).
Proof.
  induction 1 as [|res later Hres _ IH]; intros n.
  - cbn. split; [lia|constructor].
  - rewrite sleeps_of_cons. cbn [Basic.makeRequest Basic.unawaited].
    destruct (Basic.on_response res n) as [v|delay|] eqn:Hon.
    + rewrite app_nil_r. cbn [fst app]. apply Hres.
    + destruct (basic_retry_inv _ _ _ Hon) as (Hn & -> & ->). cbn [app].
      destruct (IH (S n)) as [Hlen Hall]. rewrite sleeps_of_cons in Hlen, Hall.
      destruct (Basic.makeRequest later (S n)) as [sleeps out]. cbn [fst snd app length] in *.
      split; [lia|by constructor].
    + rewrite app_nil_r. cbn [fst app]. apply Hres.
Qed.

Lemma basic_unawaited_of_bounded (res : Response) : forall n,
  (length (sleeps_of (Basic.unawaited_of res n)) <= 3 - n)%nat /\
  Forall (fun ms => ms = 5000) (sleeps_of (Basic.unawaited_of res n)).
Proof.
  induction res as [statusCode data| |error_draw second_retry IH] using Response_nested_ind;
    intros n; try (cbn; split; [lia|constructor]).
  rewrite basic_unawaited_of_timeout.
  destruct (n <? 3)%nat eqn:Hn; [|cbn; split; [lia|constructor]].
  apply Nat.ltb_lt in Hn.
  destruct (basic_call_bounded second_retry.*1) with (n := S n) as [Hlen Hall].
  { by apply Forall_fmap. }
  rewrite sleeps_of_cons in Hlen, Hall |- *. cbn [fst snd app length].
  split; [lia|by constructor].
Qed.

Lemma basic_runs_bounded (upstream : list Response) (n : nat) :
  (length (sleeps_of (Basic.makeRequest upstream n :: Basic.unawaited upstream n))
   <= 3 - n)%nat /\
  Forall (fun ms => ms = 5000)
    (sleeps_of (Basic.makeRequest upstream n :: Basic.unawaited upstream n)).
Proof.
  apply basic_call_bounded, Forall_forall. intros res _. apply basic_unawaited_of_bounded.
Qed.

(** X3. The basic scraper gives up: a request started with [retryCount = 0]
    sleeps at most [MAX_RETRIES] = 3 times, each time for [RETRY_DELAY] =
    5000 ms, so at most 15 s in all, and its promise is settled (resolved or
    rejected) by the fourth answer of the upstream at the latest.  The bound
    counts the sleeps after the promise is settled too: a timeout rejects the
    promise at once, and the [error] handler that runs after it still sleeps
    and requests again while [retryCount < 3], with nothing awaiting the
    result. *)
Theorem basic_request_gives_up (upstream : list Response) :
  let run := Basic.makeRequest upstream 0 in
  let sleeps := sleeps_of (run :: Basic.unawaited upstream 0) in
  (length run.1 <= 3)%nat /\
  (length sleeps <= 3)%nat /\
  Forall (fun ms => ms = 5000) sleeps /\
  foldr Z.add 0 sleeps <= 15000 /\
  ((3 < length upstream)%nat -> run.2 <> Pending) /\
  (forall error_draw second_retry later n,
     Basic.makeRequest (RequestTimeout error_draw second_retry :: later) n = ([], Rejected) /\
     Basic.unawaited (RequestTimeout error_draw second_retry :: later) n =
       if (n <? 3)%nat then
         (5000 :: (Basic.makeRequest second_retry.*1 (S n)).1,
          (Basic.makeRequest second_retry.*1 (S n)).2)
         :: Basic.unawaited second_retry.*1 (S n)
       else []).
Proof.
  intros run sleeps.
  destruct (basic_makeRequest_bounded upstream 0) as (Hown & _ & Hset).
  destruct (basic_runs_bounded upstream 0) as [Hlen Hall].
  change (Basic.MAX_RETRIES - 0)%nat with 3%nat in *.
  change (3 - 0)%nat with 3%nat in Hlen. fold run in Hlen, Hall. fold sleeps in Hlen, Hall.
  split; [exact Hown|]. split; [exact Hlen|]. split; [exact Hall|].
  split; [|split; [exact Hset|]].
  - revert Hlen Hall. generalize sleeps. clear. intros sleeps Hlen Hall.
    assert (foldr Z.add 0 sleeps = 5000 * Z.of_nat (length sleeps)) as ->.
    { clear Hlen. induction Hall as [|ms rest -> _ IH]; cbn [foldr length]; [reflexivity|].
      rewrite IH. lia. }
    lia.
  - intros error_draw second_retry later n. split; [reflexivity|].
    cbn [Basic.unawaited Basic.on_response]. rewrite app_nil_r.
    apply basic_unawaited_of_timeout.
Qed.

(** A timeout at the second attempt: the promise is rejected after one sleep,
    and the [error] handler sleeps and requests twice more. *)
Example basic_timeout_goes_on :
  let upstream :=
    [Http 429 Unparsable;
     RequestTimeout 0 [(NetworkError, 0%Q); (Http 200 (Parsed (JObj ∅)), 0%Q)]] in
  Basic.makeRequest upstream 0 = ([5000], Rejected) /\
  Basic.unawaited upstream 0 = [([5000; 5000], Resolved (JObj ∅))].
Proof. split; reflexivity. Qed.


Lemma full_on_response_no_reject cfg res n random :
  Full.on_response cfg res n random <> Reject.
Proof.
  unfold Full.on_response. destruct res as [statusCode data| |]; try discriminate.
  destruct (statusCode =? 200); [destruct data; discriminate|].
  repeat (match goal with |- context [if ?b then _ else _] => destruct b end;
          try discriminate).
Qed.


Lemma full_makeRequest_settles cfg : forall upstream n,
  (Full.makeRequest cfg upstream n).2 <> Rejected /\
  (length (Full.makeRequest cfg upstream n).1 <= length upstream)%nat /\
  ((Full.makeRequest cfg upstream n).2 = Pending ->
   length (Full.makeRequest cfg upstream n).1 = length upstream).
Proof.
  induction upstream as [|[res random] later IH]; intros n; [cbn; by repeat split|].
  cbn [Full.makeRequest length].
  pose proof (full_on_response_no_reject cfg res n random) as Hno.
  destruct (Full.on_response cfg res n random) as [v|delay|]; [| |done].
  - cbn. split; [discriminate|]. split; [lia|discriminate].
  - destruct (IH (S n)) as (H1 & H2 & H3).
    destruct (Full.makeRequest cfg later (S n)) as [sleeps out].
    cbn [fst snd length] in *. split; [done|]. split; [lia|]. intros H. by rewrite H3.
Qed.











(** A timeout at the first attempt: the promise follows the retry that is
    answered 200, after one sleep; the second retry sleeps as long and is
    answered 429, then 404. *)
Example enrich_timeout_retries_twice :
  let upstream :=
    [RequestTimeout 0 [(Http 429 Unparsable, 0%Q); (Http 404 Unparsable, 0%Q)];
     Http 200 found_profile] in
  (Enrich.enrichLinkedInProfile Enrich.CONFIG upstream 0).1 = [5000] /\
  Enrich.unawaited Enrich.CONFIG upstream 0 = [([5000; 10000], Resolved JNull)].
Proof. split; reflexivity. Qed.

Lemma full_fetch_shape cfg : forall upstream n,
  (forall k d, (Full.makeRequest cfg upstream n).1 !! k = Some d ->
     exists res random, upstream !! k = Some (res, random) /\
                 Full.on_response cfg res (n + k) random = RetryAfter d) /\
  (forall v, (Full.makeRequest cfg upstream n).2 = Resolved v ->
     exists res random,
       upstream !! length (Full.makeRequest cfg upstream n).1 = Some (res, random) /\
       Full.on_response cfg res
         (n + length (Full.makeRequest cfg upstream n).1) random = Resolve v).
Proof.
  induction upstream as [|[res random] later IH]; intros n;
    [cbn; split; [done|discriminate]|].
  cbn [Full.makeRequest].
  destruct (Full.on_response cfg res n random) as [v|delay|] eqn:Hres.
  - cbn. split; [done|]. intros v' [= <-]. exists res, random. by rewrite Nat.add_0_r.
  - destruct (IH (S n)) as [Hs Hv].
    destruct (Full.makeRequest cfg later (S n)) as [sleeps out].
    cbn [fst snd length] in *. split.
    + intros [|k] d Hk; cbn in Hk.
      * injection Hk as <-. exists res, random. by rewrite Nat.add_0_r.
      * destruct (Hs k d Hk) as (r & q & Hr & Hon). exists r, q. split; [done|].
        by replace (n + S k)%nat with (S n + k)%nat by lia.
    + intros v Hout. destruct (Hv v Hout) as (r & q & Hr & Hon). exists r, q.
      split; [done|].
      by replace (n + S (length sleeps))%nat with (S n + length sleeps)%nat by lia.
  - cbn. split; [done|discriminate].
Qed.

Lemma full_resolve_inv cfg res n random v :
  Full.on_response cfg res n random = Resolve v ->
  (exists statusCode data,
     res = Http statusCode data /\ v = JNull /\
     400 <= statusCode < 500 /\ statusCode <> 429) \/
  res = Http 200 (Parsed v).
Proof.
  unfold Full.on_response. destruct res as [statusCode data| |]; try discriminate.
  destruct (statusCode =? 200) eqn:H200.
  - apply Z.eqb_eq in H200 as ->. destruct data as [|json]; [discriminate|].
    intros [= <-]. by right.
  - destruct (statusCode =? 429) eqn:H429; [discriminate|].
    destruct (statusCode >=? 500) eqn:H500; [discriminate|].
    destruct (statusCode >=? 400) eqn:H400; [|discriminate].
    intros [= <-]. left. exists statusCode, data. split; [done|]. split; [done|]. lia.
Qed.

(** After a timeout the retry whose sleep ends second calls the fetcher as
    well. *)
Lemma full_unawaited_of_timeout cfg error_draw second_retry n random :
  Full.unawaited_of cfg (RequestTimeout error_draw second_retry) n random =
  (Z.max (Full.getRetryDelay cfg n random) (Full.getRetryDelay cfg n error_draw)
     :: (Full.makeRequest cfg second_retry (S n)).1,
   (Full.makeRequest cfg second_retry (S n)).2)
  :: Full.unawaited cfg second_retry (S n).
Proof.
  cbn [Full.unawaited_of].
  destruct (Full.makeRequest cfg second_retry (S n)) as [sleeps out].
  cbn [fst snd]. f_equal. generalize (S n).
  induction second_retry as [|[res random'] later IH]; intros k; [done|].
  cbn [Full.unawaited]. f_equal.
  by destruct (Full.on_response cfg res k random').
Qed.

Lemma full_retry_later cfg n run : full_retry cfg (S n) run -> full_retry cfg n run.
Proof.
  intros (k & random & error_draw & upstream & Hk & ->).
  exists k, random, error_draw, upstream. split; [lia|done].
Qed.

Lemma full_call_unawaited cfg (upstream : list (Response * Q)) :
  Forall (fun answer => forall n random,
            Forall (full_retry cfg n) (Full.unawaited_of cfg answer.1 n random)) upstream ->
  forall n, Forall (full_retry cfg n) (Full.unawaited cfg upstream n).
Proof.
  induction 1 as [|[res random] later Hres _ IH]; intros n; [constructor|].
  cbn [Full.unawaited]. apply Forall_app. split; [apply Hres|].
  destruct (Full.on_response cfg res n random); try constructor.
  eapply Forall_impl; [apply IH|]. apply full_retry_later.
Qed.

Lemma full_unawaited_of_retries cfg (res : Response) : forall n random,
  Forall (full_retry cfg n) (Full.unawaited_of cfg res n random).
Proof.
  induction res as [statusCode data| |error_draw second_retry IH] using Response_nested_ind;
    intros n random; try constructor.
  rewrite full_unawaited_of_timeout. constructor.
  - by exists n, random, error_draw, second_retry.
  - eapply Forall_impl; [|apply full_retry_later]. by apply full_call_unawaited.
Qed.

Lemma full_unawaited_retries cfg upstream n :
  Forall (full_retry cfg n) (Full.unawaited cfg upstream n).
Proof.
  apply full_call_unawaited, Forall_forall. intros answer _.
  apply full_unawaited_of_retries.
Qed.

Lemma full_timeout_unawaited cfg : forall upstream n k error_draw second_retry random d,
  upstream !! k = Some (RequestTimeout error_draw second_retry, random) ->
  (Full.makeRequest cfg upstream n).1 !! k = Some d ->
  (Z.max (Full.getRetryDelay cfg (n + k) random) (Full.getRetryDelay cfg (n + k) error_draw)
     :: (Full.makeRequest cfg second_retry (S (n + k))).1,
   (Full.makeRequest cfg second_retry (S (n + k))).2)
  ∈ Full.unawaited cfg upstream n.
Proof.
  induction upstream as [|[res random'] later IH];
    intros n k error_draw second_retry random d Hk Hd; [done|].
  cbn [Full.unawaited]. destruct k as [|k]; cbn in Hk.
  - injection Hk as -> ->. rewrite full_unawaited_of_timeout, Nat.add_0_r.
    apply elem_of_app. left. left.
  - cbn [Full.makeRequest] in Hd. apply elem_of_app. right.
    destruct (Full.on_response cfg res n random') as [v|delay|]; [done| |done].
    destruct (Full.makeRequest cfg later (S n)) as [sleeps out] eqn:Hrun.
    cbn in Hd. replace (n + S k)%nat with (S n + k)%nat by lia.
    eapply IH; [exact Hk|]. by rewrite Hrun.
Qed.

Lemma full_no_timeout_none_unawaited cfg : forall upstream n,
  Forall (fun answer => Full.unawaited_of cfg answer.1 = fun _ _ => []) upstream ->
  Full.unawaited cfg upstream n = [].
Proof.
  intros upstream n Hall. revert n.
  induction Hall as [|[res random] later Hres _ IH]; intros n; [done|].
  cbn [Full.unawaited]. cbn [fst] in Hres. rewrite Hres. cbn [app].
  by destruct (Full.on_response cfg res n random).
Qed.

(** X5. [makeRequest] of the full scraper never rejects.  Its promise
    follows one sleep for each answer it retries and resolves with the first
    answer its handler accepts: the parsed body of a 200, or [null] for a
    status from 400 to 499 other than 429 (the request is skipped).  When it
    is still pending, every answer so far was retried.  For a timeout the
    fetcher sleeps twice and retries twice, each handler with a delay of its
    own draw: the promise follows the shorter sleep, and after the longer one
    the fetcher is called with the next attempt count as well, with nothing
    awaiting the result.  Every retry left unawaited is such a call after
    such a sleep; none rejects; and a call that meets no timeout leaves
    none. *)
Theorem full_request_never_rejects cfg upstream n :
  let sleeps := (Full.makeRequest cfg upstream n).1 in
  let out := (Full.makeRequest cfg upstream n).2 in
  out <> Rejected /\
  (forall k d, sleeps !! k = Some d ->
     exists res random, upstream !! k = Some (res, random) /\
                 Full.on_response cfg res (n + k) random = RetryAfter d) /\
  (out = Pending -> length sleeps = length upstream) /\
  (forall v, out = Resolved v ->
     exists res random,
       upstream !! length sleeps = Some (res, random) /\
       ((exists statusCode data,
           res = Http statusCode data /\ v = JNull /\
           400 <= statusCode < 500 /\ statusCode <> 429) \/
        res = Http 200 (Parsed v))) /\
  (forall k d error_draw second_retry random,
     upstream !! k = Some (RequestTimeout error_draw second_retry, random) ->
     sleeps !! k = Some d ->
     d = Z.min (Full.getRetryDelay cfg (n + k) random)
               (Full.getRetryDelay cfg (n + k) error_draw) /\
     (Z.max (Full.getRetryDelay cfg (n + k) random)
            (Full.getRetryDelay cfg (n + k) error_draw)
        :: (Full.makeRequest cfg second_retry (S (n + k))).1,
      (Full.makeRequest cfg second_retry (S (n + k))).2)
     ∈ Full.unawaited cfg upstream n) /\
  Forall (fun run => full_retry cfg n run /\ run.2 <> Rejected)
    (Full.unawaited cfg upstream n) /\
  (Forall (fun answer => match answer.1 with RequestTimeout _ _ => False | _ => True end)
     upstream ->
   Full.unawaited cfg upstream n = []).
Proof.
  intros sleeps out.
  destruct (full_makeRequest_settles cfg upstream n) as (Hno & _ & Hpending).
  destruct (full_fetch_shape cfg upstream n) as [Hs Hv].
  split; [exact Hno|]. split; [exact Hs|]. split; [exact Hpending|].
  split; [|split; [|split]].
  - intros v Hout. destruct (Hv v Hout) as (res & random & Hres & Hon).
    exists res, random. split; [exact Hres|]. by eapply full_resolve_inv.
  - intros k d error_draw second_retry random Hk Hd.
    split; [|by eapply full_timeout_unawaited].
    destruct (Hs k d Hd) as (res & random' & Hres & Hon). rewrite Hk in Hres.
    injection Hres as <- <-. cbn in Hon. by injection Hon as <-.
  - eapply Forall_impl; [apply full_unawaited_retries|].
    intros run Hrun. split; [exact Hrun|].
    destruct Hrun as (k & random & error_draw & answers & _ & ->). cbn [snd].
    apply full_makeRequest_settles.
  - intros Hall. apply full_no_timeout_none_unawaited.
    eapply Forall_impl; [exact Hall|]. by intros [[statusCode data| |] random].
Qed.

(** A timeout at the first attempt, the timeout handler drawing 7/8 and the
    [error] handler 1/8: the promise follows the retry of the [error]
    handler, whose sleep of 27750 ms ends first; the retry of the timeout
    handler starts after 32250 ms. *)
Example full_timeout_retries_twice :
  let upstream :=
    [(RequestTimeout (1 # 8) [(Http 404 Unparsable, 1 # 2)], 7 # 8);
     (Http 200 (Parsed (JObj ∅)), 1 # 2)]%Q in
  Full.makeRequest Full.CONFIG upstream 0 = ([27750], Resolved (JObj ∅)) /\
  Full.unawaited Full.CONFIG upstream 0 = [([32250], Resolved JNull)].
Proof. split; reflexivity. Qed.

Section ScrapeInvariants.
Import Full.

Lemma fetched_slugs_app evs evs' :
  fetched_slugs (evs ++ evs') = fetched_slugs evs ++ fetched_slugs evs'.
Proof. apply omap_app. Qed.

Lemma push_each_prefix extract : forall items records records' raised,
  push_each extract items records = (records', raised) -> records `prefix_of` records'.
Proof.
  induction items as [|x later IH]; intros records records' raised H; cbn in H.
  - by injection H as <- _.
  - destruct (extract x) as [r|].
    + apply IH in H. etrans; [|exact H]. by apply prefix_app_r.
    + by injection H as <- _.
Qed.

Lemma push_array_prefix extract data records records' raised :
  push_array extract data records = (records', raised) -> records `prefix_of` records'.
Proof.
  destruct data; cbn; try (by intros [= <- _]). apply push_each_prefix.
Qed.

Lemma try_body_records cfg opts w slug s s1 evs c :
  try_body cfg opts w slug s = (s1, evs, c) ->
  fetched_slugs evs = [slug] /\
  total (progress s1) = total (progress s) /\
  investors (progress s) `prefix_of` investors (progress s1) /\
  teamMembers (progress s) `prefix_of` teamMembers (progress s1) /\
  investments (progress s) `prefix_of` investments (progress s1).
Proof.
  unfold try_body. intros H.
  destruct (fetchInvestorBySlug cfg (investor_upstream w)) as [backoff out].
  destruct out as [v| |]; try (by injection H as <- <- _).
  destruct (truthy v); [|by injection H as <- <- _].
  destruct (extractInvestor w v) as [investor|]; [|by injection H as <- <- _].
  assert (Hinv : investors (progress s) `prefix_of` investors (progress s) ++ [investor])
    by (by apply prefix_app_r).
  destruct (fetchTeamMembers cfg (team_upstream w)) as [backoff2 out2].
  destruct out2 as [teamData| |]; try (by injection H as <- <- _).
  destruct (push_array _ teamData _) as [team raised2] eqn:Hteam.
  apply push_array_prefix in Hteam.
  destruct raised2; [by injection H as <- <- _|].
  destruct (fetchInvestments cfg (rounds_upstream w)) as [backoff3 out3].
  destruct out3 as [roundsData| |]; try (by injection H as <- <- _).
  destruct (push_array _ roundsData _) as [rounds raised3] eqn:Hrounds.
  apply push_array_prefix in Hrounds.
  by injection H as <- <- _.
Qed.

(** One pass of the loop body: what it leaves of the state it found. *)
Lemma loop_body_step cfg opts w slug s s' evs c :
  loop_body cfg opts w slug s = (s', evs, c) ->
  c = Raised /\ s' = s /\ fetched_slugs evs = []
  \/
  fetched_slugs evs = [slug] /\
  total (progress s') = total (progress s) /\
  investors (progress s) `prefix_of` investors (progress s') /\
  teamMembers (progress s) `prefix_of` teamMembers (progress s') /\
  investments (progress s) `prefix_of` investments (progress s') /\
  (c = Hangs /\
   processedSlugs (progress s') = processedSlugs (progress s) /\
   processedSet s' = processedSet s /\ processed s' = processed s
   \/
   c = Normal /\
   processedSlugs (progress s') = processedSlugs (progress s) ++ [slug] /\
   processedSet s' = {[slug]} ∪ processedSet s /\ processed s' = S (processed s)).
Proof.
  unfold loop_body. intros H.
  destruct (checkpoint_raises cfg s); [injection H as <- <- <-; by left|]. right.
  destruct (try_body cfg opts w slug s) as [[s1 evs1] c1] eqn:Htry.
  destruct (try_body_records _ _ _ _ _ _ _ _ Htry) as (Hf & Ht & Hi & Htm & Hr).
  destruct (scrape_try_body_frame _ _ _ _ _ _ _ _ Htry) as (H1 & H2 & H3 & _ & _).
  destruct c1; injection H as <- <- <-;
    cbn [mark_processed progress total investors teamMembers investments processedSlugs
         processedSet processed];
    rewrite ?fetched_slugs_app, ?Hf, ?H1, ?H2, ?H3.
  - split; [unfold fetched_slugs in *; cbn; rewrite !omap_app, Hf; by repeat case_match|].
    repeat (split; [done|]). by right.
  - split; [unfold fetched_slugs in *; cbn; rewrite !omap_app, Hf; by repeat case_match|].
    repeat (split; [done|]). by right.
  - split; [unfold fetched_slugs in *; cbn; rewrite !omap_app, Hf; by repeat case_match|].
    repeat (split; [done|]). by left.
Qed.

Lemma for_slugs_invariants cfg opts upstream : forall allSlugs s s' evs e,
  for_slugs cfg opts upstream allSlugs s = (s', evs, e) ->
  counters_agree s ->
  total (progress s') = total (progress s) /\
  investors (progress s) `prefix_of` investors (progress s') /\
  teamMembers (progress s) `prefix_of` teamMembers (progress s') /\
  investments (progress s) `prefix_of` investments (progress s') /\
  counters_agree s' /\
  (forall x, x ∈ fetched_slugs evs -> x ∈ allSlugs /\ x ∉ processedSlugs (progress s)) /\
  NoDup (fetched_slugs evs) /\
  (processed s <= total (progress s) -> processed s' <= total (progress s))%nat /\
  (e <> StillFetching ->
   processedSlugs (progress s') = processedSlugs (progress s) ++ fetched_slugs evs) /\
  (e = StillFetching ->
   exists slug,
     fetched_slugs evs = drop (length (processedSlugs (progress s)))
                           (processedSlugs (progress s')) ++ [slug] /\
     processedSlugs (progress s) `prefix_of` processedSlugs (progress s')) /\
  (e = Completed -> (processed s' < total (progress s))%nat ->
   forall x, x ∈ allSlugs -> x ∈ processedSlugs (progress s')) /\
  e <> Horizon /\
  ((total (progress s) <= processed s)%nat -> s' = s /\ evs = [] /\ e = Completed).
Proof.
  induction allSlugs as [|slug later IH]; intros s s' evs e H Hagree.
  - injection H as <- <- <-. cbn. split_and!; try done.
    + by intros x ?%elem_of_nil.
    + constructor.
    + by rewrite app_nil_r.
    + by intros _ _ x ?%elem_of_nil.
  - cbn [for_slugs] in H. pose proof Hagree as [Hset Hcount].
    destruct (bool_decide (slug ∈ processedSet s)) eqn:Hin.
    { apply bool_decide_eq_true in Hin.
      destruct (IH _ _ _ _ H Hagree)
        as (Ht & Hi & Htm & Hr & Hag & Hf & Hnd & Hle & Hdone & Hhang & Hcov & Hhor & Hfull).
      split_and!; try done.
      - intros x Hx. destruct (Hf x Hx). split; [by apply list_elem_of_further|done].
      - intros He Hlt x [->|Hx]%elem_of_cons; [|by apply Hcov].
        rewrite Hset in Hin. apply elem_of_list_to_set in Hin.
        rewrite Hdone by (by rewrite He). apply elem_of_app. by left. }
    apply bool_decide_eq_false in Hin.
    destruct (total (progress s) <=? processed s)%nat eqn:Hbreak.
    { apply Nat.leb_le in Hbreak. injection H as <- <- <-. cbn.
      split_and!; try done.
      - by intros x ?%elem_of_nil.
      - constructor.
      - by rewrite app_nil_r.
      - lia. }
    apply Nat.leb_gt in Hbreak.
    destruct (loop_body cfg opts (upstream slug) slug s) as [[s1 evs1] c] eqn:Hbody.
    destruct (loop_body_step _ _ _ _ _ _ _ _ Hbody)
      as [(-> & -> & Hf1) | (Hf1 & Ht1 & Hi1 & Htm1 & Hr1 & Hcase)].
    { injection H as <- <- <-. rewrite Hf1.
      split_and!; try done.
      - by intros x ?%elem_of_nil.
      - constructor.
      - by rewrite app_nil_r.
      - lia. }
    assert (Hfresh : slug ∉ processedSlugs (progress s)).
    { intros Hx. apply Hin. rewrite Hset. by apply elem_of_list_to_set. }
    destruct Hcase as [(-> & Hs1 & Hset1 & Hp1) | (-> & Hs1 & Hset1 & Hp1)].
    + injection H as <- <- <-. rewrite Hf1.
      split_and!; try done.
      * split; [by rewrite Hset1, Hs1|by rewrite Hp1, Hs1].
      * intros x ->%list_elem_of_singleton. split; [left|done].
      * apply NoDup_singleton.
      * rewrite Hp1. lia.
      * intros _. exists slug. rewrite Hs1, drop_all. done.
      * lia.
    + destruct (for_slugs cfg opts upstream later s1) as [[s2 evs2] e2] eqn:Hloop.
      injection H as <- <- <-.
      assert (Hag1 : counters_agree s1).
      { split.
        - rewrite Hset1, Hs1, Hset, list_to_set_app_L. set_solver.
        - rewrite Hp1, Hs1, length_app, Hcount. cbn. lia. }
      destruct (IH _ _ _ _ Hloop Hag1)
        as (Ht & Hi & Htm & Hr & Hag & Hf & Hnd & Hle & Hdone & Hhang & Hcov & Hhor & Hfull).
      rewrite fetched_slugs_app, Hf1.
      assert (Hnotin : slug ∉ fetched_slugs evs2).
      { intros Hx. apply Hf in Hx as [_ Hx]. apply Hx. rewrite Hs1.
        apply elem_of_app. right. left. }
      split_and!.
      * by rewrite Ht.
      * by etrans.
      * by etrans.
      * by etrans.
      * done.
      * intros x Hx. cbn in Hx. apply elem_of_cons in Hx as [->|Hx]; [split; [left|done]|].
        apply Hf in Hx as [Hx1 Hx2]. split; [by apply list_elem_of_further|].
        intros Hy. apply Hx2. rewrite Hs1. apply elem_of_app. by left.
      * cbn. by apply NoDup_cons.
      * intros Hle0. rewrite <- Ht1. apply Hle. rewrite Ht1, Hp1. lia.
      * intros He. rewrite (Hdone He), Hs1, <- app_assoc. done.
      * intros He. destruct (Hhang He) as (x & Hx & Hpre). exists x. split.
        -- rewrite Hx. destruct Hpre as [k Hk]. rewrite Hk, Hs1.
           rewrite drop_app_length.
           rewrite <- app_assoc, drop_app_length. done.
        -- etrans; [|exact Hpre]. rewrite Hs1. by apply prefix_app_r.
      * intros He Hlt x [->|Hx]%elem_of_cons.
        -- rewrite Hdone by (by rewrite He). rewrite Hs1.
           apply elem_of_app. left. apply elem_of_app. right. left.
        -- apply Hcov; [done| |done]. by rewrite Ht1.
      * done.
      * lia.
Qed.

End ScrapeInvariants.

Lemma initial_state_agrees p : counters_agree (Full.initial_state p).
Proof. by split. Qed.

(** X6. The loop of [scrape] calls [fetchInvestorBySlug] at most once for
    a slug, only for slugs of the list that were not among the processed
    slugs it started with, whatever the list repeats and whatever raises;
    when the loop ends, the slugs it appended to [processedSlugs] are the
    slugs it fetched, in the order of the fetches, and a list of processed
    slugs without repetition stays without repetition. *)
Theorem scrape_fetches_each_slug_once cfg opts upstream allSlugs p s' evs e :
  Full.for_slugs cfg opts upstream allSlugs (Full.initial_state p) = (s', evs, e) ->
  NoDup (fetched_slugs evs) /\
  (forall x, x ∈ fetched_slugs evs -> x ∈ allSlugs /\ x ∉ Full.processedSlugs p) /\
  (e = Completed ->
   Full.processedSlugs (Full.progress s') = Full.processedSlugs p ++ fetched_slugs evs) /\
  (NoDup (Full.processedSlugs p) -> NoDup (Full.processedSlugs (Full.progress s'))).
Proof.
  intros H.
  destruct (for_slugs_invariants _ _ _ _ _ _ _ _ H (initial_state_agrees p))
    as (_ & _ & _ & _ & _ & Hf & Hnd & _ & Hdone & Hhang & _ & Hhor & _).
  cbn [Full.initial_state Full.progress] in *.
  split; [exact Hnd|]. split; [exact Hf|]. split.
  - intros ->. by apply Hdone.
  - intros Hp. destruct (decide (e = StillFetching)) as [->|He].
    + destruct (Hhang eq_refl) as (slug & Hx & [k Hk]).
      rewrite Hk, drop_app_length in Hx. rewrite Hk.
      rewrite Hx in Hnd, Hf. apply NoDup_app in Hnd as (Hk1 & _ & _).
      apply NoDup_app. split; [done|]. split; [|done].
      intros x Hx1 Hx2. destruct (Hf x); [|done]. apply elem_of_app. by left.
    + rewrite Hdone by done. apply NoDup_app. split; [done|]. split; [|done].
      intros x Hx Hy. by destruct (Hf x Hy).
Qed.

(** A list that names a slug twice, every request answered 404. *)
Lemma scrape_fetches_each_slug_once_witness :
  NoDup (fetched_slugs
    (Full.for_slugs Full.CONFIG {| Full.delay := 2000 |} (fun _ => absent_slug)
       ["acme"; "bolt"; "acme"] (Full.initial_state (empty_scrape 3))).1.2).
Proof.
  pose (r := Full.for_slugs Full.CONFIG {| Full.delay := 2000 |} (fun _ => absent_slug)
               ["acme"; "bolt"; "acme"] (Full.initial_state (empty_scrape 3))).
  exact (proj1 (scrape_fetches_each_slug_once Full.CONFIG {| Full.delay := 2000 |}
                  (fun _ => absent_slug) ["acme"; "bolt"; "acme"] (empty_scrape 3)
                  r.1.1 r.1.2 r.2 eq_refl)).
Defined.

(** X7. The loop of [scrape] stops at [progress.total]: it leaves
    [total] as it found it; started with no more processed slugs than
    [total], it ends with no more than [total]; started with at least
    [total], it fetches nothing and changes nothing. *)
Theorem scrape_stops_at_total cfg opts upstream allSlugs p s' evs e :
  Full.for_slugs cfg opts upstream allSlugs (Full.initial_state p) = (s', evs, e) ->
  Full.total (Full.progress s') = Full.total p /\
  ((length (Full.processedSlugs p) <= Full.total p)%nat ->
   (length (Full.processedSlugs (Full.progress s')) <= Full.total p)%nat) /\
  ((Full.total p <= length (Full.processedSlugs p))%nat ->
   s' = Full.initial_state p /\ evs = [] /\ e = Completed).
Proof.
  intros H.
  destruct (for_slugs_invariants _ _ _ _ _ _ _ _ H (initial_state_agrees p))
    as (Ht & _ & _ & _ & [_ Hcount] & _ & _ & Hle & _ & _ & _ & _ & Hfull).
  cbn [Full.initial_state Full.progress Full.processed] in *.
  split; [exact Ht|]. split; [|exact Hfull].
  intros Hp. rewrite <- Hcount. by apply Hle.
Qed.

(** Three slugs listed, a total of two. *)
Lemma scrape_stops_at_total_witness :
  Full.total (Full.progress
    (Full.for_slugs Full.CONFIG {| Full.delay := 2000 |} (fun _ => absent_slug)
       ["acme"; "bolt"; "cask"] (Full.initial_state (empty_scrape 2))).1.1) = 2%nat.
Proof.
  pose (r := Full.for_slugs Full.CONFIG {| Full.delay := 2000 |} (fun _ => absent_slug)
               ["acme"; "bolt"; "cask"] (Full.initial_state (empty_scrape 2))).
  exact (proj1 (scrape_stops_at_total Full.CONFIG {| Full.delay := 2000 |}
                  (fun _ => absent_slug) ["acme"; "bolt"; "cask"] (empty_scrape 2)
                  r.1.1 r.1.2 r.2 eq_refl)).
Defined.

(** X8. When the loop of [scrape] has gone through the list and the
    number of processed slugs is below [progress.total], every slug of the
    list is among the processed slugs: none is left out. *)
Theorem scrape_completed_covers_list cfg opts upstream allSlugs p s' evs :
  Full.for_slugs cfg opts upstream allSlugs (Full.initial_state p) = (s', evs, Completed) ->
  (length (Full.processedSlugs (Full.progress s')) < Full.total p)%nat ->
  forall x, x ∈ allSlugs -> x ∈ Full.processedSlugs (Full.progress s').
Proof.
  intros H Hlt.
  destruct (for_slugs_invariants _ _ _ _ _ _ _ _ H (initial_state_agrees p))
    as (_ & _ & _ & _ & [_ Hcount] & _ & _ & _ & _ & _ & Hcov & _).
  cbn [Full.initial_state Full.progress Full.processed] in *.
  apply Hcov; [done|]. by rewrite Hcount.
Qed.

Lemma scrape_completed_covers_list_witness :
  "bolt" ∈ Full.processedSlugs (Full.progress
    (Full.for_slugs Full.CONFIG {| Full.delay := 2000 |} (fun _ => absent_slug)
       ["acme"; "bolt"] (Full.initial_state (empty_scrape 3))).1.1).
Proof.
  pose (r := Full.for_slugs Full.CONFIG {| Full.delay := 2000 |} (fun _ => absent_slug)
               ["acme"; "bolt"] (Full.initial_state (empty_scrape 3))).
  apply (scrape_completed_covers_list Full.CONFIG {| Full.delay := 2000 |}
           (fun _ => absent_slug) ["acme"; "bolt"] (empty_scrape 3) r.1.1 r.1.2 eq_refl).
  - vm_compute. lia.
  - right. left.
Defined.

(** X9. The loop of [scrape] only appends: the investors, team members,
    investments and processed slugs it started with are still there, in the
    same places, when it ends or hangs, whatever raised in between. *)
Theorem scrape_only_appends cfg opts upstream allSlugs p s' evs e :
  Full.for_slugs cfg opts upstream allSlugs (Full.initial_state p) = (s', evs, e) ->
  Full.investors p `prefix_of` Full.investors (Full.progress s') /\
  Full.teamMembers p `prefix_of` Full.teamMembers (Full.progress s') /\
  Full.investments p `prefix_of` Full.investments (Full.progress s') /\
  Full.processedSlugs p `prefix_of` Full.processedSlugs (Full.progress s').
Proof.
  intros H.
  destruct (for_slugs_invariants _ _ _ _ _ _ _ _ H (initial_state_agrees p))
    as (_ & Hi & Htm & Hr & _ & _ & _ & _ & Hdone & Hhang & _ & Hhor & _).
  cbn [Full.initial_state Full.progress] in *.
  split; [exact Hi|]. split; [exact Htm|]. split; [exact Hr|].
  destruct (decide (e = StillFetching)) as [->|He].
  - by destruct (Hhang eq_refl) as (_ & _ & ?).
  - rewrite Hdone by done. by apply prefix_app_r.
Qed.

Lemma scrape_only_appends_witness :
  ["zeta"] `prefix_of` Full.processedSlugs (Full.progress
    (Full.for_slugs Full.CONFIG {| Full.delay := 2000 |} (fun _ => absent_slug)
       ["acme"; "zeta"]
       (Full.initial_state
          {| Full.processedSlugs := ["zeta"]; Full.investors := [];
             Full.teamMembers := []; Full.investments := []; Full.total := 5 |})).1.1).
Proof.
  pose (p := {| Full.processedSlugs := ["zeta"]; Full.investors := [];
                Full.teamMembers := []; Full.investments := []; Full.total := 5 |}).
  pose (r := Full.for_slugs Full.CONFIG {| Full.delay := 2000 |} (fun _ => absent_slug)
               ["acme"; "zeta"] (Full.initial_state p)).
  exact (proj2 (proj2 (proj2
           (scrape_only_appends Full.CONFIG {| Full.delay := 2000 |}
              (fun _ => absent_slug) ["acme"; "zeta"] p r.1.1 r.1.2 r.2 eq_refl)))).
Defined.

(** ** Object literals *)

Lemma object_literal_app (props props' : list (string * option JsValue)) :
  object_literal (props ++ props')
  = foldl (fun acc kv => o ← acc; v ← kv.2; Some (<[kv.1 := v]> o))
      (object_literal props) props'.
Proof. unfold object_literal. apply foldl_app. Qed.

(** The property written last under a name has the value written. *)
Lemma object_literal_at (props : list (string * option JsValue)) (o : JsObject)
    (n : nat) (k : string) (ov : option JsValue) :
  object_literal props = Some o ->
  props !! n = Some (k, ov) ->
  k ∉ (drop (S n) props).*1 ->
  o !! k = ov.
Proof.
  intros Hfold Hn Hk. rewrite <- (take_drop_middle props n (k, ov) Hn) in Hfold.
  rewrite object_literal_app in Hfold. cbn [foldl] in Hfold.
  destruct (object_literal (take n props)) as [acc|]; cbn in Hfold;
    [|by rewrite object_literal_aborted in Hfold].
  destruct ov as [v|]; cbn in Hfold; [|by rewrite object_literal_aborted in Hfold].
  eapply object_literal_keeps; [exact Hfold|apply lookup_insert_eq|exact Hk].
Qed.

Lemma object_literal_fold_dom : forall (props : list (string * option JsValue)) (acc o : JsObject),
  foldl (fun acc kv => o ← acc; v ← kv.2; Some (<[kv.1 := v]> o)) (Some acc) props = Some o ->
  dom o = dom acc ∪ list_to_set props.*1.
Proof.
  induction props as [|[k ov] props IH]; intros acc o H; cbn in H.
  - injection H as <-. cbn. set_solver.
  - destruct ov as [v|]; cbn in H; [|by rewrite object_literal_aborted in H].
    rewrite (IH _ _ H), dom_insert_L. cbn. set_solver.
Qed.

(** The properties of an object literal are the names written. *)
Lemma object_literal_dom (props : list (string * option JsValue)) (o : JsObject) :
  object_literal props = Some o -> dom o = list_to_set props.*1.
Proof.
  intros H. rewrite (object_literal_fold_dom _ _ _ H). set_solver.
Qed.

(** An object literal raises exactly when one of its properties does. *)
Lemma object_literal_raises (props : list (string * option JsValue)) :
  object_literal props = None <-> exists k, (k, None) ∈ props.
Proof.
  unfold object_literal. generalize (∅ : JsObject) as acc.
  induction props as [|[k ov] props IH]; intros acc; cbn.
  - split; [discriminate|]. by intros [k ?%elem_of_nil].
  - destruct ov as [v|]; cbn.
    + rewrite IH. split; intros [k' Hk'].
      * exists k'. by right.
      * apply elem_of_cons in Hk' as [[=]|Hk']. by exists k'.
    + rewrite object_literal_aborted. split; [|done]. intros _. exists k. left.
Qed.

(** ** The record built for a found profile *)

Lemma prop_truthy v k : truthy v = true -> prop v k = Some (prop_opt v k).
Proof. by destruct v. Qed.

Lemma prop_nullish v k : prop v k = None <-> is_nullish v = true.
Proof. destruct v; cbn; split; congruence. Qed.

Lemma mapM_raises {A B} (f : A -> option B) (l : list A) :
  mapM f l = None <-> exists x, x ∈ l /\ f x = None.
Proof.
  induction l as [|x l IH]; cbn.
  - split; [discriminate|]. by intros (x & ?%elem_of_nil & _).
  - destruct (f x) as [y|] eqn:Hx; cbn.
    + destruct (mapM f l) as [ys|]; cbn.
      * split; [discriminate|]. intros (x' & [->|Hin]%elem_of_cons & Hx'); [congruence|].
        assert (Some ys = None) by (apply IH; eauto). discriminate.
      * split; [|done]. intros _. destruct (proj1 IH eq_refl) as (x' & Hin & Hx').
        exists x'. split; [by right|done].
    + split; [|done]. intros _. exists x. split; [left|done].
Qed.

Lemma or_default_raises ov d : or_default ov d = None <-> ov = None.
Proof. destruct ov; cbn; split; congruence. Qed.

(** Every property of the literal reads a property of [x]. *)
Lemma reads_raise (x : JsValue) (props : list (string * option JsValue)) :
  props <> [] ->
  Forall (fun kv => exists k d, kv.2 = or_default (prop x k) d) props ->
  (JObj <$> object_literal props) = None <-> is_nullish x = true.
Proof.
  intros Hne Hall. rewrite fmap_None, object_literal_raises. split.
  - intros [k Hk]. rewrite Forall_forall in Hall.
    destruct (Hall _ Hk) as (k' & d & Hkv). cbn in Hkv. symmetry in Hkv.
    apply or_default_raises in Hkv. by apply prop_nullish in Hkv.
  - intros Hx. destruct props as [|[k ov] props]; [done|].
    apply Forall_cons in Hall as [(k' & d & Hkv) _]. cbn in Hkv.
    exists k. replace ov with (None : option JsValue); [left|].
    rewrite Hkv. symmetry. apply or_default_raises. by apply prop_nullish.
Qed.

(** The callbacks raise on [null] and [undefined] and on nothing else. *)
Lemma entry_raises (f : JsValue -> option JsValue) :
  f = Enrich.experience_entry \/ f = Enrich.education_entry \/
  f = Enrich.language_entry \/ f = Enrich.certification_entry ->
  forall x, f x = None <-> is_nullish x = true.
Proof.
  intros Hf x.
  destruct Hf as [-> | [-> | [-> | ->]]];
    (apply reads_raise; [discriminate|]);
    repeat (apply Forall_cons; split; [eexists _, _; reflexivity|]);
    apply Forall_nil_2.
Qed.

Lemma array_map_raises (f : JsValue -> option JsValue) (v : JsValue) :
  (forall x, f x = None <-> is_nullish x = true) ->
  array_map f (js_or v (JArr [])) = None <-> map_raises v = true.
Proof.
  intros Hf. unfold map_raises. destruct (js_or v (JArr [])) as [| | | | |items|]; try done.
  cbn. rewrite fmap_None, mapM_raises, existsb_exists. split.
  - intros (x & Hin & Hx). exists x. split; [by apply list_elem_of_In|by apply Hf].
  - intros (x & Hin & Hx). exists x. split; [by apply list_elem_of_In|by apply Hf].
Qed.

Lemma current_company_total v : truthy v = true -> Enrich.current_company v <> None.
Proof.
  intros Hv. unfold Enrich.current_company. rewrite (prop_truthy _ _ Hv). cbn.
  destruct (truthy (prop_opt v "company")) eqn:Hc; [|done].
  rewrite !(prop_truthy _ _ Hc). cbn. done.
Qed.

(** X13. [extractEnrichedData] raises exactly when the profile is truthy
    and one of its [experience], [education], [languages] and
    [certifications] is truthy without being an array, or is an array with
    a [null] or [undefined] element; nothing else in a profile makes it
    raise. *)
Theorem extract_raises_iff (m : JsObject) (v : JsValue) (now : string) :
  Enrich.extractEnrichedData m v now = None <->
  truthy v = true /\
  (map_raises (prop_opt v "experience") = true \/
   map_raises (prop_opt v "education") = true \/
   map_raises (prop_opt v "languages") = true \/
   map_raises (prop_opt v "certifications") = true).
Proof.
  unfold Enrich.extractEnrichedData. destruct (truthy v) eqn:Hv; cbn [negb].
  2: { split; [discriminate|]. by intros [? _]. }
  pose proof (current_company_total v Hv) as Hcompany.
  rewrite !(prop_truthy _ _ Hv). cbn [or_default fmap option_fmap option_map mbind option_bind].
  pose proof (array_map_raises Enrich.experience_entry (prop_opt v "experience")
                (entry_raises _ (or_introl eq_refl))) as Hexp.
  pose proof (array_map_raises Enrich.education_entry (prop_opt v "education")
                (entry_raises _ (or_intror (or_introl eq_refl)))) as Hedu.
  pose proof (array_map_raises Enrich.language_entry (prop_opt v "languages")
                (entry_raises _ (or_intror (or_intror (or_introl eq_refl))))) as Hlang.
  pose proof (array_map_raises Enrich.certification_entry (prop_opt v "certifications")
                (entry_raises _ (or_intror (or_intror (or_intror eq_refl))))) as Hcert.
  rewrite object_literal_raises. split.
  - intros [k Hk]. split; [done|].
    repeat (apply elem_of_cons in Hk as [Hk|Hk];
            [injection Hk as _ Hk; try discriminate; try (by symmetry in Hk)|]).
    all: try (by apply elem_of_nil in Hk).
    + left. apply Hexp. by symmetry.
    + right. left. apply Hedu. by symmetry.
    + right. right. left. apply Hlang. by symmetry.
    + right. right. right. apply Hcert. by symmetry.
  - intros [_ [H|[H|[H|H]]]].
    + apply Hexp in H. exists "experience". apply (list_elem_of_lookup_2 _ 22).
      rewrite <- H. reflexivity.
    + apply Hedu in H. exists "education". apply (list_elem_of_lookup_2 _ 23).
      rewrite <- H. reflexivity.
    + apply Hlang in H. exists "languages". apply (list_elem_of_lookup_2 _ 25).
      rewrite <- H. reflexivity.
    + apply Hcert in H. exists "certifications". apply (list_elem_of_lookup_2 _ 26).
      rewrite <- H. reflexivity.
Qed.

(** X14. The record built for a found profile has the same 36 properties
    whatever the member and the profile hold.  Of the member it keeps [id],
    [investor_id], [investor_slug], [title] and [avatar_url], and [name] and
    [linkedin_url] where the profile has none; the other properties of the
    member are not copied.  It is flagged [enriched: true] and stamped with
    the time of the call. *)
Theorem enriched_record_schema (m : JsObject) (v : JsValue) (now : string) (e : JsObject) :
  truthy v = true ->
  Enrich.extractEnrichedData m v now = Some e ->
  dom e = list_to_set enriched_record_keys /\
  e !! "id" = Some (field m "id") /\
  e !! "investor_id" = Some (field m "investor_id") /\
  e !! "investor_slug" = Some (field m "investor_slug") /\
  e !! "title" = Some (field m "title") /\
  e !! "avatar_url" = Some (field m "avatar_url") /\
  e !! "name" = Some (js_or (prop_opt v "full_name") (field m "name")) /\
  e !! "linkedin_url" = Some (js_or (prop_opt v "url") (field m "linkedin_url")) /\
  e !! "emails" = Some (js_or (prop_opt v "email") (JArr [])) /\
  e !! "enriched" = Some (JBool true) /\
  e !! "enriched_at" = Some (JStr now).
Proof.
  intros Hv. unfold Enrich.extractEnrichedData. rewrite Hv. cbn [negb].
  rewrite !(prop_truthy _ _ Hv). cbn [or_default fmap option_fmap option_map].
  intros H. split; [by rewrite (object_literal_dom _ _ H)|].
  split; [apply (object_literal_at _ _ 0 _ _ H); [reflexivity|absent_from_literal]|].
  split; [apply (object_literal_at _ _ 1 _ _ H); [reflexivity|absent_from_literal]|].
  split; [apply (object_literal_at _ _ 2 _ _ H); [reflexivity|absent_from_literal]|].
  split; [apply (object_literal_at _ _ 4 _ _ H); [reflexivity|absent_from_literal]|].
  split; [apply (object_literal_at _ _ 35 _ _ H); [reflexivity|absent_from_literal]|].
  split; [apply (object_literal_at _ _ 3 _ _ H); [reflexivity|absent_from_literal]|].
  split; [apply (object_literal_at _ _ 10 _ _ H); [reflexivity|absent_from_literal]|].
  split; [apply (object_literal_at _ _ 6 _ _ H); [reflexivity|absent_from_literal]|].
  split; [apply (object_literal_at _ _ 33 _ _ H); [reflexivity|absent_from_literal]|].
  apply (object_literal_at _ _ 34 _ _ H); [reflexivity|absent_from_literal].
Qed.

(** A profile with a name and one email. *)
Lemma enriched_record_schema_witness :
  exists e,
    Enrich.extractEnrichedData ann
      (JObj (list_to_map [("full_name", JStr "Ann A."); ("email", JArr [JStr "a@x.example"])]))
      "2024-05-01T00:00:00.000Z" = Some e /\
    e !! "title" = Some (JStr "Partner") /\
    e !! "name" = Some (JStr "Ann A.").
Proof.
  assert (Hsome : match Enrich.extractEnrichedData ann
      (JObj (list_to_map [("full_name", JStr "Ann A."); ("email", JArr [JStr "a@x.example"])]))
      "2024-05-01T00:00:00.000Z" with Some _ => true | None => false end = true)
    by (vm_compute; reflexivity).
  destruct (Enrich.extractEnrichedData ann
      (JObj (list_to_map [("full_name", JStr "Ann A."); ("email", JArr [JStr "a@x.example"])]))
      "2024-05-01T00:00:00.000Z") as [e|] eqn:H; [|discriminate Hsome].
  exists e. split; [reflexivity|].
  destruct (enriched_record_schema ann _ "2024-05-01T00:00:00.000Z" e
              (eq_refl : truthy (JObj (list_to_map [("full_name", JStr "Ann A.");
                                   ("email", JArr [JStr "a@x.example"])])) = true) H)
    as (_ & _ & _ & _ & Htitle & _ & Hname & _).
  split; [exact Htitle|exact Hname].
Defined.

(** ** Counters and coverage of the enrichment loop *)

Section EnrichCounters.
Import Enrich.

Lemma extract_flags m v now e :
  extractEnrichedData m v now = Some e -> flagged_enriched e = truthy v.
Proof.
  unfold extractEnrichedData, flagged_enriched, field.
  destruct (truthy v) eqn:Hv; cbn [negb].
  - rewrite !(prop_truthy _ _ Hv). cbn [or_default fmap option_fmap option_map].
    intros H. by rewrite (object_literal_at _ _ 33 _ _ H eq_refl ltac:(absent_from_literal)).
  - intros [= <-]. by rewrite lookup_insert_ne, lookup_insert_eq.
Qed.

Lemma gained_refl p : gained p p [].
Proof. unfold gained. cbn. rewrite app_nil_r. repeat split; lia. Qed.

Lemma gained_record start p new member e v now :
  extractEnrichedData member v now = Some e ->
  gained start p new ->
  gained start (record_result p member e (truthy v)) (new ++ [e]).
Proof.
  intros He (H1 & H2 & H3 & H4 & H5). unfold gained, record_result.
  cbn [enrichedMembers stats total enriched notFound noLinkedIn].
  rewrite H1, H2, H3, H4, H5, !List.filter_app, !length_app, <- app_assoc.
  cbn [List.filter]. rewrite (extract_flags _ _ _ _ He).
  destruct (truthy v); cbn; repeat split; lia.
Qed.

Lemma try_body_counts cfg opts todo ids0 start w s member s' evs c new :
  todo !! i s = Some member ->
  try_body cfg opts todo w s member = (s', evs, c) ->
  gained start (progress s) new -> covers ids0 todo s ->
  (exists new', gained start (progress s') new') /\ covers ids0 todo s' /\
  Forall (fun e => match e with EvFetch m _ _ => m ∈ todo | _ => True end) evs.
Proof.
  intros Hk H Hg Hc. unfold try_body in H.
  assert (Hin : member ∈ todo) by (by eapply list_elem_of_lookup_2).
  assert (Hsame : (exists new', gained start (progress s) new') /\ covers ids0 todo s)
    by (split; [by exists new|done]).
  destruct (printProgress_raises _);
    [injection H as <- <- <-; split; [apply Hsame|split; [apply Hsame|constructor]]|].
  destruct (call_raises w member);
    [injection H as <- <- <-; split; [apply Hsame|split; [apply Hsame|]];
     each_event ltac:(exact I || assumption)|].
  destruct (enrichLinkedInProfile cfg (upstream w) 0) as [backoff out].
  destruct out as [v| |];
    try (injection H as <- <- <-; split; [apply Hsame|split; [apply Hsame|]];
         each_event ltac:(exact I || assumption)).
  destruct (extractEnrichedData member v (now w)) as [e|] eqn:He;
    [|injection H as <- <- <-; split; [apply Hsame|split; [apply Hsame|]];
      each_event ltac:(exact I || assumption)].
  pose proof (gained_record _ _ _ _ _ _ _ He Hg) as Hg'.
  destruct Hc as (Hle & ids & Hids & Hsub & Hall).
  assert (Hlt : (i s < length todo)%nat) by (by eapply lookup_lt_Some).
  assert (Hall' : Forall (fun id => id ∈ member_id <$> todo) (ids ++ [field member "id"])).
  { apply Forall_app. split; [done|]. apply Forall_singleton.
    apply list_elem_of_fmap. by exists member. }
  destruct (show_emails_raises v); injection H as <- <- <-;
    (split; [by eexists|]); (split; [|each_event ltac:(exact I || assumption)]);
    unfold covers; cbn [i progress record_result processedIds].
  - split; [lia|]. exists (ids ++ [field member "id"]).
    split; [by rewrite Hids, <- app_assoc|]. split; [|done].
    by apply sublist_inserts_r.
  - split; [lia|]. exists (ids ++ [field member "id"]).
    split; [by rewrite Hids, <- app_assoc|]. split; [|done].
    rewrite (take_S_r _ _ _ Hk), fmap_app. by apply sublist_app.
Qed.

Lemma iteration_counts cfg opts todo ids0 start w s s' evs c new :
  iteration cfg opts todo w s = (s', evs, c) ->
  gained start (progress s) new -> covers ids0 todo s ->
  (exists new', gained start (progress s') new') /\ covers ids0 todo s' /\
  Forall (fun e => match e with EvFetch m _ _ => m ∈ todo | _ => True end) evs.
Proof.
  unfold iteration. intros H Hg Hc.
  destruct (todo !! i s) as [member|] eqn:Hk;
    [|injection H as <- <- <-; split; [by exists new|split; [done|constructor]]].
  destruct (try_body cfg opts todo w s member) as [[s1 evs1] c1] eqn:Htry.
  destruct (try_body_counts _ _ _ _ _ _ _ _ _ _ _ _ Hk Htry Hg Hc) as (H1 & H2 & H3).
  destruct c1; [|destruct (unprintable _)|]; injection H as <- <- <-;
    (split; [done|]); (split; [done|]); each_event ltac:(exact I || assumption).
Qed.

Lemma while_loop_counts cfg opts todo ids0 start : forall worlds s s' evs e new,
  while_loop cfg opts todo worlds s = (s', evs, e) ->
  gained start (progress s) new -> covers ids0 todo s ->
  (exists new', gained start (progress s') new') /\ covers ids0 todo s' /\
  Forall (fun e => match e with EvFetch m _ _ => m ∈ todo | _ => True end) evs /\
  (e = Completed -> i s' = length todo).
Proof.
  induction worlds as [|w ws IH]; intros s s' evs e new H Hg Hc; cbn [while_loop] in H.
  - destruct (i s <? length todo)%nat eqn:Hlt; injection H as <- <- <-;
      (split; [by exists new|]); (split; [done|]); (split; [constructor|]); [done|].
    intros _. apply Nat.ltb_ge in Hlt. destruct Hc. lia.
  - destruct (i s <? length todo)%nat eqn:Hlt.
    2: { injection H as <- <- <-. split; [by exists new|]. split; [done|].
         split; [constructor|]. intros _. apply Nat.ltb_ge in Hlt. destruct Hc. lia. }
    destruct (iteration cfg opts todo w s) as [[s1 evs1] c1] eqn:Hit.
    destruct (iteration_counts _ _ _ _ _ _ _ _ _ _ _ Hit Hg Hc) as ([new1 H1] & H2 & H3).
    destruct (while_loop cfg opts todo ws s1) as [[s2 evs2] e2] eqn:Hloop.
    destruct (IH _ _ _ _ _ Hloop H1 H2) as (H4 & H5 & H6 & H7).
    destruct c1; injection H as <- <- <-;
      try (split; [done|]; split; [done|]; split; [by apply Forall_app|done]).
    all: split; [by exists new1|]; split; [done|]; split; [done|]; discriminate.
Qed.

End EnrichCounters.

Lemma enrich_run_counts cfg opts members stored worlds final trace e :
  Enrich.enrich cfg opts members stored worlds = (final, trace, e) ->
  let start := if Enrich.resume opts then Enrich.loadProgress stored
               else Enrich.empty_progress in
  let todo := Enrich.toProcess members start opts in
  (exists new, gained start final new) /\
  Forall (fun e => match e with Enrich.EvFetch m _ _ => m ∈ todo | _ => True end) trace /\
  (Enrich.dryRun opts = false -> e = Completed ->
   exists new,
     Enrich.processedIds final = Enrich.processedIds start ++ new /\
     (member_id <$> todo) `sublist_of` new /\
     Forall (fun id => id ∈ member_id <$> todo) new).
Proof.
  intros H start todo. unfold Enrich.enrich in H. fold start in H. fold todo in H.
  destruct (Enrich.dryRun opts).
  { injection H as <- <- <-. split; [exists []; apply gained_refl|].
    split; [constructor|discriminate]. }
  destruct (length todo =? 0)%nat eqn:Hlen.
  { injection H as <- <- <-. apply Nat.eqb_eq, length_zero_iff_nil in Hlen.
    split; [exists []; apply gained_refl|]. split; [constructor|].
    intros _ _. exists []. rewrite Hlen, app_nil_r. by repeat split. }
  destruct (Enrich.while_loop cfg opts todo worlds (Enrich.initial_state start))
    as [[s evs] e'] eqn:Hloop.
  destruct (while_loop_counts cfg opts todo (Enrich.processedIds start) start
              worlds _ _ _ _ [] Hloop) as (Hg & Hc & Hf & Hi).
  { apply gained_refl. }
  { split; [cbn; lia|]. exists []. cbn. rewrite app_nil_r. by repeat split. }
  assert (Hcov : e' = Completed ->
            exists new,
              Enrich.processedIds (Enrich.progress s) = Enrich.processedIds start ++ new /\
              (member_id <$> todo) `sublist_of` new /\
              Forall (fun id => id ∈ member_id <$> todo) new).
  { intros He. destruct Hc as (_ & new & H1 & H2 & H3). exists new.
    split; [done|]. split; [|done]. by rewrite (Hi He), firstn_all in H2. }
  destruct e'; injection H as <- <- <-.
  - split; [done|]. split; [|auto]. apply Forall_app. split; [done|].
    by repeat constructor.
  - split; [done|]. split; [done|]. discriminate.
  - split; [done|]. split; [done|]. discriminate.
  - split; [done|]. split; [done|]. discriminate.
Qed.

(** X10. The counters of the progress record account for the results: at
    the end of a run of [enrich], however it ended, the results it started
    with are still there, followed by the new ones; [stats.total] grew by the
    number of new results, [stats.enriched] by the number of those flagged
    [enriched: true], [stats.notFound] by the number of the others, and
    [stats.noLinkedIn] is untouched. *)
Theorem enrich_stats_count_results cfg opts members stored worlds final trace e :
  Enrich.enrich cfg opts members stored worlds = (final, trace, e) ->
  let start := if Enrich.resume opts then Enrich.loadProgress stored
               else Enrich.empty_progress in
  exists new,
    Enrich.enrichedMembers final = Enrich.enrichedMembers start ++ new /\
    Enrich.total (Enrich.stats final) = (Enrich.total (Enrich.stats start) + length new)%nat /\
    Enrich.enriched (Enrich.stats final)
      = (Enrich.enriched (Enrich.stats start)
         + length (List.filter flagged_enriched new))%nat /\
    Enrich.notFound (Enrich.stats final)
      = (Enrich.notFound (Enrich.stats start)
         + length (List.filter (fun r => negb (flagged_enriched r)) new))%nat /\
    Enrich.noLinkedIn (Enrich.stats final) = Enrich.noLinkedIn (Enrich.stats start).
Proof.
  intros H start. by destruct (enrich_run_counts _ _ _ _ _ _ _ _ H) as [Hg _].
Qed.

(** X11. A run of [enrich] only fetches members of its work list, and when
    it completes every member of the work list was recorded: the ids
    appended to [processedIds] are ids of members of the work list and
    contain the ids of the whole work list, in its order. *)
Theorem enrich_completed_covers_work_list cfg opts members stored worlds final trace e :
  Enrich.enrich cfg opts members stored worlds = (final, trace, e) ->
  let start := if Enrich.resume opts then Enrich.loadProgress stored
               else Enrich.empty_progress in
  let todo := Enrich.toProcess members start opts in
  Forall (fun e => match e with Enrich.EvFetch m _ _ => m ∈ todo | _ => True end) trace /\
  (Enrich.dryRun opts = false -> e = Completed ->
   exists new,
     Enrich.processedIds final = Enrich.processedIds start ++ new /\
     (member_id <$> todo) `sublist_of` new /\
     Forall (fun id => id ∈ member_id <$> todo) new).
Proof.
  intros H start todo. by destruct (enrich_run_counts _ _ _ _ _ _ _ _ H) as (_ & Hf & Hc).
Qed.

(** X12. Resuming after a completed run does nothing.  When a run without
    [--limit] has completed and the ids of the eligible members are
    primitive values, a run with [--resume] that reads back a progress
    record with the same [processedIds] has an empty work list: it fetches
    nothing, saves nothing and returns the record it loaded. *)
Theorem resume_after_completion_is_idle cfg opts members stored worlds final trace
    cfg' opts' worlds' reloaded :
  Enrich.enrich cfg opts members stored worlds = (final, trace, Completed) ->
  Enrich.dryRun opts = false ->
  Enrich.limit opts = None ->
  Forall (fun m => is_primitive (member_id m) = true) members ->
  Enrich.processedIds reloaded = Enrich.processedIds final ->
  Enrich.resume opts' = true ->
  Enrich.toProcess members reloaded opts' = [] /\
  Enrich.enrich cfg' opts' members (Some reloaded) worlds' = (reloaded, [], Completed).
Proof.
  intros H Hdry Hlimit Hprim Hids Hres.
  destruct (enrich_run_counts _ _ _ _ _ _ _ _ H) as (_ & _ & Hc).
  destruct (Hc Hdry eq_refl) as (new & Hnew & Hsub & _). clear Hc.
  set (start := if Enrich.resume opts then Enrich.loadProgress stored
                else Enrich.empty_progress) in *.
  assert (Hdone : forall m, m ∈ members ->
            set_has (Enrich.processedIds reloaded) (member_id m) = true).
  { intros m Hm. rewrite Hids, Hnew, set_has_app.
    destruct (set_has (Enrich.processedIds start) (member_id m)) eqn:Hs; [done|].
    cbn [orb]. apply set_has_present.
    - rewrite Forall_forall in Hprim. by apply Hprim.
    - eapply elem_of_sublist; [|exact Hsub]. apply list_elem_of_fmap. exists m.
      split; [done|]. unfold Enrich.toProcess. rewrite Hlimit. cbn [slice_from_start].
      apply list_elem_of_In, filter_In. split; [by apply list_elem_of_In|].
      unfold member_id in Hs. by rewrite Hs. }
  assert (Hempty : Enrich.toProcess members reloaded opts' = []).
  { unfold Enrich.toProcess.
    assert (List.filter
              (fun m => negb (set_has (Enrich.processedIds reloaded) (field m "id")))
              members = []) as ->.
    { clear -Hdone. unfold member_id in Hdone.
      induction members as [|m ms IH]; [done|]. cbn.
      rewrite (Hdone m) by left. cbn. apply IH. intros x Hx. apply Hdone. by right. }
    unfold slice_from_start. destruct (Enrich.limit opts') as [n|]; [|done].
    destruct (n <? 0); apply take_nil. }
  split; [exact Hempty|].
  unfold Enrich.enrich. rewrite Hres.
  change (Enrich.loadProgress (Some reloaded)) with reloaded.
  rewrite Hempty. by destruct (Enrich.dryRun opts').
Qed.

Lemma enrich_stats_count_results_witness :
  exists final trace e (new : list JsObject),
    Enrich.enrich Enrich.CONFIG fresh_run [ann; bob] None [answers_404; answers_profile]
      = (final, trace, e) /\
    Enrich.total (Enrich.stats final) = (0 + length new)%nat.
Proof.
  destruct (Enrich.enrich Enrich.CONFIG fresh_run [ann; bob] None
              [answers_404; answers_profile]) as [[final trace] e] eqn:Hrun.
  destruct (enrich_stats_count_results _ _ _ _ _ _ _ _ Hrun) as (new & _ & Htotal & _).
  exists final, trace, e, new. split; [reflexivity|exact Htotal].
Defined.

Lemma enrich_completed_covers_work_list_witness :
  exists final trace e,
    Enrich.enrich Enrich.CONFIG fresh_run [ann; bob] None [answers_404; answers_profile]
      = (final, trace, e) /\
    Forall (fun e => match e with
                     | Enrich.EvFetch m _ _ => m ∈ [ann; bob]
                     | _ => True
                     end) trace.
Proof.
  destruct (Enrich.enrich Enrich.CONFIG fresh_run [ann; bob] None
              [answers_404; answers_profile]) as [[final trace] e] eqn:Hrun.
  exists final, trace, e. split; [reflexivity|].
  exact (proj1 (enrich_completed_covers_work_list _ _ _ _ _ _ _ _ Hrun)).
Defined.

(** A completed run over two members, then a run with [--resume]. *)
Lemma resume_after_completion_is_idle_witness :
  exists final,
    Enrich.enrich Enrich.CONFIG
      {| Enrich.limit := None; Enrich.delay := 1000; Enrich.resume := true;
         Enrich.dryRun := false |}
      [ann; bob] (Some final) [] = (final, [], Completed).
Proof.
  assert (He : (Enrich.enrich Enrich.CONFIG fresh_run [ann; bob] None
                  [answers_404; answers_profile]).2 = Completed)
    by (vm_compute; reflexivity).
  destruct (Enrich.enrich Enrich.CONFIG fresh_run [ann; bob] None
              [answers_404; answers_profile]) as [[final trace] e] eqn:Hrun.
  cbn [snd] in He. subst e. exists final.
  refine (proj2 (resume_after_completion_is_idle _ _ _ _ _ _ _ Enrich.CONFIG
                   {| Enrich.limit := None; Enrich.delay := 1000; Enrich.resume := true;
                      Enrich.dryRun := false |} [] final
                   Hrun eq_refl eq_refl _ eq_refl eq_refl)).
  repeat constructor.
Defined.

(** ** Text *)

Section Text.

Lemma append_cons (c : ascii) (s t : string) : String c s +:+ t = String c (s +:+ t).
Proof. reflexivity. Qed.

Lemma append_nil_l (t : string) : "" +:+ t = t.
Proof. reflexivity. Qed.

Lemma append_nil_r (s : string) : s +:+ "" = s.
Proof. induction s as [|c s IH]; [done|]. by rewrite append_cons, IH. Qed.

Lemma append_assoc (s1 s2 s3 : string) : (s1 +:+ s2) +:+ s3 = s1 +:+ s2 +:+ s3.
Proof. induction s1 as [|c s1 IH]; [done|]. by rewrite !append_cons, IH. Qed.

Lemma includes_char_append c s1 s2 :
  includes_char c (s1 +:+ s2) = includes_char c s1 || includes_char c s2.
Proof.
  induction s1 as [|c' s1 IH]; [done|]. rewrite append_cons. cbn.
  by rewrite IH, orb_assoc.
Qed.

Lemma replace_line_breaks_clean in_run str c :
  is_line_break c = true ->
  includes_char c (replace_line_breaks_from in_run str) = false.
Proof.
  intros Hc. revert in_run. induction str as [|c' str IH]; intros in_run; [done|].
  cbn [replace_line_breaks_from]. destruct (is_line_break c') eqn:Hc'.
  - destruct in_run; [apply IH|]. cbn [includes_char]. rewrite IH, orb_false_r.
    apply Ascii.eqb_neq. intros <-. by vm_compute in Hc.
  - cbn [includes_char]. rewrite IH, orb_false_r. apply Ascii.eqb_neq. intros ->.
    congruence.
Qed.

Lemma trimStart_keeps c str :
  includes_char c str = false -> includes_char c (trimStart str) = false.
Proof.
  induction str as [|c' str IH]; [done|]. cbn [includes_char trimStart]. intros H.
  apply orb_false_elim in H as [H1 H2].
  destruct (is_white_space c'); [by apply IH|]. cbn [includes_char]. by rewrite H1, H2.
Qed.

Lemma trimEnd_keeps c str :
  includes_char c str = false -> includes_char c (trimEnd str) = false.
Proof.
  induction str as [|c' str IH]; [done|]. cbn [includes_char trimEnd]. intros H.
  apply orb_false_elim in H as [H1 H2]. specialize (IH H2).
  destruct (trimEnd str) as [|c'' kept].
  - destruct (is_white_space c'); [done|]. cbn [includes_char]. by rewrite H1.
  - cbn [includes_char] in *. by rewrite H1, IH.
Qed.

Lemma csv_text_single_line str c :
  is_line_break c = true -> includes_char c (csv_text str) = false.
Proof.
  intros Hc. unfold csv_text, trim.
  by apply trimEnd_keeps, trimStart_keeps, replace_line_breaks_clean.
Qed.

Lemma double_quotes_keeps c str :
  c <> double_quote ->
  includes_char c (double_quotes str) = includes_char c str.
Proof.
  intros Hc. induction str as [|c' str IH]; [done|]. cbn [double_quotes includes_char].
  destruct (Ascii.eqb c' double_quote) eqn:Hq; cbn [includes_char]; rewrite IH; [|done].
  apply Ascii.eqb_eq in Hq as ->.
  by replace (Ascii.eqb double_quote c) with false
    by (symmetry; apply Ascii.eqb_neq; congruence).
Qed.

Lemma quote_if_needed_keeps b c str :
  c <> double_quote ->
  includes_char c str = false -> includes_char c (quote_if_needed b str) = false.
Proof.
  intros Hc H. unfold quote_if_needed.
  destruct (_ || _ || _); [|done]. cbn [includes_char].
  rewrite includes_char_append, double_quotes_keeps, H by done. cbn [includes_char].
  assert (Ascii.eqb double_quote c = false) as -> by (apply Ascii.eqb_neq; congruence).
  done.
Qed.

(** The line-feed test of [escapeCSV] never decides. *)
Lemma quote_if_needed_csv_text b str :
  quote_if_needed b (csv_text str) = quote_if_needed false (csv_text str).
Proof.
  unfold quote_if_needed. rewrite (csv_text_single_line str line_feed) by done.
  by rewrite andb_false_r.
Qed.

Lemma ToString_array items : ToString (JArr items) = join "," items.
Proof.
  cbn [ToString]. induction items as [|x [|y items] IH]; [done|by destruct x|].
  rewrite IH. by destruct x.
Qed.

End Text.

Section Escaping.

Lemma existsb_Exists {A} (f : A -> bool) (l : list A) :
  existsb f l = true <-> Exists (fun x => f x = true) l.
Proof.
  rewrite existsb_exists, Exists_exists. by setoid_rewrite list_elem_of_In.
Qed.

Lemma escape_is_quoted_text value :
  EnrichOutputs.escapeCSV value
  = (if unprintable value then None
     else Some (quote_if_needed true (cell_text value))) /\
  BasicOutputs.escapeCSV value
  = (if unprintable value then None
     else Some (quote_if_needed false (cell_text value))) /\
  FullOutputs.escapeCSV value
  = (if unprintable value then None
     else Some (quote_if_needed true (full_cell_text value))).
Proof.
  unfold EnrichOutputs.escapeCSV, BasicOutputs.escapeCSV, FullOutputs.escapeCSV,
    string_of, join_of.
  destruct value; try done; cbn [unprintable]; by case_match.
Qed.

Lemma cell_text_single_line value c :
  is_line_break c = true ->
  includes_char c (cell_text value) = false /\
  includes_char c (full_cell_text value) = false.
Proof.
  intros Hc. unfold cell_text, full_cell_text.
  destruct value; try done; split; by apply csv_text_single_line.
Qed.

Lemma escape_single_line (value : JsValue) (c : ascii) (cell : string) :
  is_line_break c = true ->
  EnrichOutputs.escapeCSV value = Some cell \/
  BasicOutputs.escapeCSV value = Some cell \/
  FullOutputs.escapeCSV value = Some cell ->
  includes_char c cell = false.
Proof.
  intros Hc.
  assert (Hq : c <> double_quote) by (intros ->; by vm_compute in Hc).
  destruct (escape_is_quoted_text value) as (-> & -> & ->).
  destruct (cell_text_single_line value c Hc) as [H1 H2].
  destruct (unprintable value); intros [H|[H|H]]; try done;
    injection H as <-; by apply quote_if_needed_keeps.
Qed.

(** The cells of a row: every value is escaped, or one conversion raises. *)
Lemma escaped_cells (values : list JsValue) :
  mapM EnrichOutputs.escapeCSV values
  = (if existsb unprintable values then None
     else Some (map (quote_if_needed true) (map cell_text values))) /\
  mapM BasicOutputs.escapeCSV values
  = (if existsb unprintable values then None
     else Some (map (quote_if_needed false) (map cell_text values))) /\
  mapM FullOutputs.escapeCSV values
  = (if existsb unprintable values then None
     else Some (map (quote_if_needed true) (map full_cell_text values))).
Proof.
  induction values as [|v values (IH1 & IH2 & IH3)]; [done|].
  cbn [mapM existsb map]. rewrite IH1, IH2, IH3.
  destruct (escape_is_quoted_text v) as (-> & -> & ->).
  destruct (unprintable v); [done|]. cbn [orb mbind option_bind].
  by destruct (existsb unprintable values).
Qed.

End Escaping.

(** X15. A cell written by any of the three [escapeCSV] never holds a
    line break (neither a carriage return nor a line feed), so that its
    test for a line feed never decides: the [escapeCSV] of the enrichment
    script and of the basic scraper do the same for every value, and so
    does the one of the full scraper for every value that is not an array
    (an array it joins with a semicolon and a space instead of a comma).
    The three raise on the same values: those [String] cannot convert. *)
Theorem escaped_cell_is_one_line (value : JsValue) (c : ascii) :
  (forall cell,
     is_line_break c = true ->
     EnrichOutputs.escapeCSV value = Some cell \/
     BasicOutputs.escapeCSV value = Some cell \/
     FullOutputs.escapeCSV value = Some cell ->
     includes_char c cell = false) /\
  EnrichOutputs.escapeCSV value = BasicOutputs.escapeCSV value /\
  match value with
  | JArr items =>
      FullOutputs.escapeCSV value
      = (str ← join_of "; " items; EnrichOutputs.escapeCSV (JStr str))
  | _ => FullOutputs.escapeCSV value = EnrichOutputs.escapeCSV value
  end /\
  (EnrichOutputs.escapeCSV value = None <-> unprintable value = true) /\
  (FullOutputs.escapeCSV value = None <-> unprintable value = true).
Proof.
  split; [|split; [|split; [|split]]].
  - intros cell. apply escape_single_line.
  - unfold EnrichOutputs.escapeCSV, BasicOutputs.escapeCSV, string_of.
    destruct value; try done; cbn [mbind option_bind]; case_match; try done;
      cbn [mbind option_bind]; f_equal; apply quote_if_needed_csv_text.
  - by destruct value.
  - destruct (escape_is_quoted_text value) as (-> & _ & _). by destruct (unprintable value).
  - destruct (escape_is_quoted_text value) as (_ & _ & ->). by destruct (unprintable value).
Qed.

(** ** Reading back what was written *)

Section Reading.

Lemma read_plain_field mode t :
  mode = InPlainField \/ (mode = AtFieldStart /\ includes_char double_quote t = false) ->
  includes_char "," t = false ->
  read_record_from mode t = [t] /\
  forall later,
    read_record_from mode (t +:+ String "," later)
    = t :: read_record_from AtFieldStart later.
Proof.
  intros Hmode Hcomma.
  assert (Hplain : read_record_from InPlainField t = [t] /\
            forall later, read_record_from InPlainField (t +:+ String "," later)
                          = t :: read_record_from AtFieldStart later).
  { clear Hmode. induction t as [|c t IH]; [done|].
    cbn [includes_char] in Hcomma. apply orb_false_elim in Hcomma as [Hc Ht].
    destruct (IH Ht) as [IH1 IH2]. split.
    - cbn [read_record_from]. by rewrite Hc, IH1.
    - intros later. rewrite append_cons. cbn [read_record_from]. by rewrite Hc, IH2. }
  destruct Hmode as [->|[-> Hquote]]; [done|].
  destruct t as [|c t]; [done|].
  cbn [includes_char] in Hcomma, Hquote.
  apply orb_false_elim in Hcomma as [Hc Ht]. apply orb_false_elim in Hquote as [Hq _].
  destruct Hplain as [_ Hplain].
  assert (Ht' : read_record_from InPlainField t = [t] /\
            forall later, read_record_from InPlainField (t +:+ String "," later)
                          = t :: read_record_from AtFieldStart later).
  { clear -Ht. induction t as [|c t IH]; [done|].
    cbn [includes_char] in Ht. apply orb_false_elim in Ht as [Hc Ht].
    destruct (IH Ht) as [IH1 IH2]. split.
    - cbn [read_record_from]. by rewrite Hc, IH1.
    - intros later. rewrite append_cons. cbn [read_record_from]. by rewrite Hc, IH2. }
  destruct Ht' as [Ht1 Ht2]. split.
  - cbn [read_record_from]. by rewrite Hq, Hc, Ht1.
  - intros later. rewrite append_cons. cbn [read_record_from]. by rewrite Hq, Hc, Ht2.
Qed.

Lemma read_quoted_field t :
  read_record_from InQuotedField (double_quotes t +:+ String double_quote "") = [t] /\
  forall later,
    read_record_from InQuotedField
      (double_quotes t +:+ String double_quote (String "," later))
    = t :: read_record_from AtFieldStart later.
Proof.
  induction t as [|c t [IH1 IH2]]; [done|].
  cbn [double_quotes]. destruct (Ascii.eqb c double_quote) eqn:Hc.
  - apply Ascii.eqb_eq in Hc as ->. split.
    + rewrite !append_cons. cbn [read_record_from]. by rewrite Ascii.eqb_refl, IH1.
    + intros later. rewrite !append_cons. cbn [read_record_from].
      by rewrite Ascii.eqb_refl, IH2.
  - split.
    + rewrite append_cons. cbn [read_record_from]. by rewrite Hc, IH1.
    + intros later. rewrite append_cons. cbn [read_record_from]. by rewrite Hc, IH2.
Qed.

Lemma read_cell b t :
  read_record (quote_if_needed b t) = [t] /\
  forall later,
    read_record (quote_if_needed b t +:+ String "," later) = t :: read_record later.
Proof.
  unfold read_record, quote_if_needed.
  destruct (includes_char "," t) eqn:Hcomma; cbn [orb].
  { destruct (read_quoted_field t) as [H1 H2]. split.
    - cbn [read_record_from]. by rewrite Ascii.eqb_refl.
    - intros later. rewrite append_cons, append_assoc, append_cons, append_nil_l.
      cbn [read_record_from]. by rewrite Ascii.eqb_refl. }
  destruct (includes_char double_quote t) eqn:Hquote; cbn [orb].
  { destruct (read_quoted_field t) as [H1 H2]. split.
    - cbn [read_record_from]. by rewrite Ascii.eqb_refl.
    - intros later. rewrite append_cons, append_assoc, append_cons, append_nil_l.
      cbn [read_record_from]. by rewrite Ascii.eqb_refl. }
  destruct (b && includes_char line_feed t).
  { destruct (read_quoted_field t) as [H1 H2]. split.
    - cbn [read_record_from]. by rewrite Ascii.eqb_refl.
    - intros later. rewrite append_cons, append_assoc, append_cons, append_nil_l.
      cbn [read_record_from]. by rewrite Ascii.eqb_refl. }
  apply read_plain_field; [right|]; done.
Qed.

(** A record of escaped cells reads back as the texts that were escaped. *)
Lemma read_written_record b (texts : list string) :
  texts <> [] ->
  read_record (join_strings "," (map (quote_if_needed b) texts)) = texts.
Proof.
  induction texts as [|t [|t' texts] IH]; [done| |]; intros _.
  - apply read_cell.
  - cbn [map join_strings] in *. rewrite append_cons, append_nil_l.
    rewrite (proj2 (read_cell b t)). by rewrite IH.
Qed.

Lemma lines_of_line row :
  includes_char line_feed row = false ->
  lines row = [row] /\
  forall later, lines (row +:+ String line_feed later) = row :: lines later.
Proof.
  induction row as [|c row IH]; [done|]. cbn [includes_char]. intros H.
  apply orb_false_elim in H as [Hc Hrow]. destruct (IH Hrow) as [IH1 IH2]. split.
  - cbn [lines]. by rewrite Hc, IH1.
  - intros later. rewrite append_cons. cbn [lines]. by rewrite Hc, IH2.
Qed.

Lemma lines_of_rows (rows : list string) :
  rows <> [] ->
  Forall (fun row => includes_char line_feed row = false) rows ->
  lines (join_strings (String line_feed "") rows) = rows.
Proof.
  induction rows as [|row [|row' rows] IH]; [done| |]; intros _ Hall.
  - apply lines_of_line. by apply Forall_inv in Hall.
  - apply Forall_cons in Hall as [Hrow Hall]. cbn [join_strings] in *.
    rewrite append_cons, append_nil_l, (proj2 (lines_of_line row Hrow)).
    by rewrite IH.
Qed.

End Reading.

Section WrittenTables.

Lemma quote_if_needed_plain b t :
  includes_char "," t = false -> includes_char double_quote t = false ->
  includes_char line_feed t = false -> quote_if_needed b t = t.
Proof.
  intros H1 H2 H3. unfold quote_if_needed. by rewrite H1, H2, H3, andb_false_r.
Qed.

Lemma join_strings_single_line (cells : list string) :
  Forall (fun cell => includes_char line_feed cell = false) cells ->
  includes_char line_feed (join_strings "," cells) = false.
Proof.
  induction cells as [|cell [|cell' cells] IH]; [done| |]; intros Hall.
  - by apply Forall_inv in Hall.
  - apply Forall_cons in Hall as [Hcell Hall]. cbn [join_strings] in *.
    rewrite !includes_char_append, Hcell, (IH Hall). done.
Qed.

(** A row of escaped cells holds no line feed. *)
Lemma quoted_row_single_line b (texts : list string) :
  Forall (fun t => includes_char line_feed t = false) texts ->
  includes_char line_feed (join_strings "," (map (quote_if_needed b) texts)) = false.
Proof.
  intros Hall. apply join_strings_single_line. rewrite Forall_map.
  eapply Forall_impl; [exact Hall|]. intros t Ht. cbn.
  by apply quote_if_needed_keeps.
Qed.

End WrittenTables.

(** X16. A record made of escaped cells separated by commas reads back,
    cell by cell, as the texts that were escaped, for each of the three
    [escapeCSV]: a comma or a double quote inside a cell never splits or
    ends it. *)
Theorem written_record_reads_back (values : list JsValue) (cells : list string) :
  values <> [] ->
  (mapM EnrichOutputs.escapeCSV values = Some cells ->
   read_record (join_strings "," cells) = map cell_text values) /\
  (mapM BasicOutputs.escapeCSV values = Some cells ->
   read_record (join_strings "," cells) = map cell_text values) /\
  (mapM FullOutputs.escapeCSV values = Some cells ->
   read_record (join_strings "," cells) = map full_cell_text values).
Proof.
  intros Hne. destruct (escaped_cells values) as (-> & -> & ->).
  destruct (existsb unprintable values); [done|].
  split_and!; intros [= <-]; apply read_written_record; by destruct values.
Qed.

(** A name with a comma, a quotation and a list. *)
Lemma written_record_reads_back_witness :
  exists cells,
    mapM FullOutputs.escapeCSV
      [JStr "Acme, Inc."; JNull; JArr [JStr "Seed"; JStr "Series A"]; JNum 42]
    = Some cells /\
    read_record (join_strings "," cells) = ["Acme, Inc."; ""; "Seed; Series A"; "42"].
Proof.
  destruct (mapM FullOutputs.escapeCSV
              [JStr "Acme, Inc."; JNull; JArr [JStr "Seed"; JStr "Series A"]; JNum 42])
    as [cells|] eqn:Hcells; [|by vm_compute in Hcells].
  exists cells. split; [reflexivity|].
  refine (proj2 (proj2 (written_record_reads_back
            [JStr "Acme, Inc."; JNull; JArr [JStr "Seed"; JStr "Series A"]; JNum 42]
            cells _)) Hcells).
  discriminate.
Defined.

Lemma prop_defined v k : is_nullish v = false -> prop v k = Some (prop_opt v k).
Proof. by destruct v. Qed.

Lemma mapM_ext' {A B} (f g : A -> option B) (l : list A) :
  (forall x, f x = g x) -> mapM f l = mapM g l.
Proof. intros Hfg. induction l as [|x l IH]; [done|]. cbn. by rewrite Hfg, IH. Qed.

Lemma mapM_map {A B C} (f : B -> option C) (g : A -> B) (l : list A) :
  mapM (fun x => f (g x)) l = mapM f (map g l).
Proof. induction l as [|x l IH]; [done|]. cbn. by rewrite IH. Qed.

(** A table written row by row: one line of titles, then for every item the
    escaped values of its properties [keys], separated by commas. *)
Section Tables.
Variable escape : JsValue -> option string.
Variable check_line_feed : bool.
Variable text : JsValue -> string.
Hypothesis escape_cells : forall values,
  mapM escape values
  = if existsb unprintable values then None
    else Some (map (quote_if_needed check_line_feed) (map text values)).
Hypothesis text_single_line : forall v, includes_char line_feed (text v) = false.

Lemma row_of_item item (keys : list string) :
  is_nullish item = false ->
  mapM (fun k => value ← prop item k; escape value) keys
  = mapM escape (map (prop_opt item) keys).
Proof.
  intros Hitem. induction keys as [|k keys IH]; [done|].
  cbn [mapM map]. by rewrite IH, (prop_defined _ _ Hitem).
Qed.

Lemma row_of_nullish item (keys : list string) :
  keys <> [] -> is_nullish item = true ->
  mapM (fun k => value ← prop item k; escape value) keys = None.
Proof.
  intros Hne Hitem. destruct keys as [|k keys]; [done|]. cbn.
  by rewrite (proj2 (prop_nullish item k) Hitem).
Qed.

Lemma rows_of_items (data : list JsValue) (keys : list string) :
  keys <> [] ->
  match mapM (fun item =>
                cells ← mapM (fun k => value ← prop item k; escape value) keys;
                Some (join_strings "," cells)) data with
  | Some rows =>
      Forall (fun item => is_nullish item = false /\
                          existsb unprintable (map (prop_opt item) keys) = false) data /\
      rows = map (fun item =>
                    join_strings ","
                      (map (quote_if_needed check_line_feed)
                         (map text (map (prop_opt item) keys)))) data
  | None =>
      Exists (fun item => is_nullish item = true \/
                          existsb unprintable (map (prop_opt item) keys) = true) data
  end.
Proof.
  intros Hne. induction data as [|item data IH]; [by split|].
  cbn [mapM mbind option_bind].
  destruct (is_nullish item) eqn:Hitem.
  - rewrite (row_of_nullish _ _ Hne Hitem). cbn. left. by left.
  - rewrite (row_of_item _ _ Hitem), escape_cells.
    destruct (existsb unprintable (map (prop_opt item) keys)) eqn:Hbad;
      cbn [mbind option_bind].
    + left. by right.
    + destruct (mapM _ data) as [rows|]; cbn [mbind option_bind].
      * destruct IH as [Hall ->]. split; [by constructor|done].
      * by right.
Qed.

Lemma plain_titles_row (titles : list string) :
  Forall (fun title => plain_title title = true) titles ->
  titles = map (quote_if_needed false) titles /\
  includes_char line_feed (join_strings "," titles) = false.
Proof.
  intros Htitles.
  assert (Hplain : Forall (fun title => quote_if_needed false title = title /\
                                        includes_char line_feed title = false) titles).
  { eapply Forall_impl; [exact Htitles|]. intros title Hc. unfold plain_title in Hc.
    apply andb_prop in Hc as [Hc H4]. apply andb_prop in Hc as [Hc H3].
    apply andb_prop in Hc as [H1 H2]. apply negb_true_iff in H2, H3, H4.
    split; [by apply quote_if_needed_plain|done]. }
  split.
  - clear Htitles. induction Hplain as [|title titles [Ht _] _ IH]; [done|]. cbn [map].
    by f_equal.
  - apply join_strings_single_line. eapply Forall_impl; [exact Hplain|]. by intros ? [_ ?].
Qed.

Lemma written_table (titles keys : list string) (data : list JsValue) :
  titles <> [] -> keys <> [] ->
  Forall (fun title => plain_title title = true) titles ->
  (write_table escape titles keys data = None <->
   Exists (fun item =>
             is_nullish item = true \/
             Exists (fun k => unprintable (prop_opt item k) = true) keys) data) /\
  forall file,
    write_table escape titles keys data = Some file ->
    map read_record (lines file)
    = titles :: map (fun item => map (fun k => text (prop_opt item k)) keys) data.
Proof.
  intros Hne Hkeys Htitles. unfold write_table.
  pose proof (rows_of_items data keys Hkeys) as Hrows.
  destruct (plain_titles_row titles Htitles) as [Hquoted Hline].
  assert (Hbad : forall item,
            existsb unprintable (map (prop_opt item) keys) = true <->
            Exists (fun k => unprintable (prop_opt item k) = true) keys).
  { intros item. by rewrite existsb_Exists, Exists_fmap. }
  destruct (mapM _ data) as [rows|]; cbn [mbind option_bind].
  2: { split; [|intros file [=]]. split; [intros _|done].
       eapply Exists_impl; [exact Hrows|]. intros item [?|?]; [by left|right].
       by apply Hbad. }
  destruct Hrows as [Hall ->]. split.
  { split; [discriminate|]. intros Hex. apply Exists_exists in Hex as (x & Hx & Hn).
    rewrite Forall_forall in Hall. destruct (Hall x Hx) as [H1 H2].
    destruct Hn as [Hn|Hn]; [congruence|]. apply Hbad in Hn. congruence. }
  intros file Hfile. apply (inj Some) in Hfile. rewrite <- Hfile. clear Hfile file.
  rewrite lines_of_rows.
  - cbn [map]. f_equal.
    + rewrite Hquoted at 1. apply read_written_record. by destruct titles.
    + rewrite map_map. apply map_ext. intros item.
      rewrite read_written_record; [by rewrite map_map|by destruct keys].
  - discriminate.
  - constructor; [done|].
    rewrite Forall_map. apply Forall_forall. intros item _. cbn.
    apply quoted_row_single_line. rewrite !Forall_map. apply Forall_forall.
    by intros k _.
Qed.

End Tables.

Section FullTables.
Import FullOutputs.

Lemma arrayToCSV_table (data : list JsValue) (columns : list Column) :
  arrayToCSV data columns
  = write_table escapeCSV
      (map (fun c => if String.eqb (header c) "" then key c else header c) columns)
      (map key columns) data.
Proof.
  unfold arrayToCSV, write_table. f_equal. apply mapM_ext'. intros item.
  by rewrite <- (mapM_map (fun k => value ← prop item k; escapeCSV value) key).
Qed.

(** X17. [arrayToCSV] raises exactly when an item is [null] or
    [undefined], or has in one of the columns a value that [String] cannot
    convert.  Otherwise the text it returns, cut at its line feeds and
    each line read as a CSV record, is the table it was given: the titles
    of the columns, then for every item, in order, the texts of its cells,
    one per column; an absent property gives an empty cell.  (The titles
    are plain: not empty, without comma, double quote or line feed.) *)
Theorem table_reads_back (data : list JsValue) (columns : list Column) :
  columns <> [] ->
  Forall (fun c => plain_title (header c) = true) columns ->
  (arrayToCSV data columns = None <->
   Exists (fun item =>
             is_nullish item = true \/
             Exists (fun c => unprintable (prop_opt item (key c)) = true) columns) data) /\
  forall file,
    arrayToCSV data columns = Some file ->
    map read_record (lines file)
    = map header columns
      :: map (fun item => map (fun c => full_cell_text (prop_opt item (key c))) columns) data.
Proof.
  intros Hne Htitles. rewrite arrayToCSV_table.
  assert (Hheaders : map (fun c => if String.eqb (header c) "" then key c else header c)
                       columns
                     = map header columns).
  { apply map_ext_Forall. eapply Forall_impl; [exact Htitles|].
    intros c Hc. unfold plain_title in Hc.
    apply andb_prop in Hc as [Hc _]. apply andb_prop in Hc as [Hc _].
    apply andb_prop in Hc as [H1 _]. apply negb_true_iff in H1. by rewrite H1. }
  rewrite Hheaders.
  destruct (written_table escapeCSV true full_cell_text
              (fun values => proj2 (proj2 (escaped_cells values)))
              (fun v => proj2 (cell_text_single_line v line_feed eq_refl))
              (map header columns) (map key columns) data) as [Hnone Hsome].
  - by destruct columns.
  - by destruct columns.
  - by rewrite Forall_map.
  - split.
    + rewrite Hnone. split; intros Hex; (eapply Exists_impl; [exact Hex|]);
        intros item [?|Hbad]; try (by left); right;
        first [by rewrite Exists_fmap in Hbad | by rewrite Exists_fmap].
    + intros file Hfile. rewrite (Hsome file Hfile). f_equal.
      apply map_ext. intros item. by rewrite map_map.
Qed.

End FullTables.

(** X26. The CSV text of [saveToCSV] in the basic scraper.  Building it
    raises exactly when an investor is [null] or [undefined], or has in one
    of the twenty-one properties read a value that [String] cannot convert.
    Otherwise the text, cut at its line feeds and each line read as a CSV
    record, is the twenty-one titles followed, for every investor in order,
    by the texts of its twenty-one cells; an absent property gives an empty
    cell. *)
Theorem basic_csv_reads_back (investors : list JsValue) :
  (BasicOutputs.saveToCSV investors = None <->
   Exists (fun inv =>
             is_nullish inv = true \/
             Exists (fun k => unprintable (prop_opt inv k) = true) BasicOutputs.row_keys)
     investors) /\
  forall file,
    BasicOutputs.saveToCSV investors = Some file ->
    map read_record (lines file)
    = BasicOutputs.headers
      :: map (fun inv => map (fun k => cell_text (prop_opt inv k)) BasicOutputs.row_keys)
           investors.
Proof.
  apply (written_table BasicOutputs.escapeCSV false cell_text
           (fun values => proj1 (proj2 (escaped_cells values)))
           (fun v => proj1 (cell_text_single_line v line_feed eq_refl))).
  - discriminate.
  - discriminate.
  - repeat constructor.
Qed.

(** One team member, with a title that holds a comma. *)
Lemma table_reads_back_witness :
  exists file,
    FullOutputs.arrayToCSV
      [JObj (list_to_map [("id", JStr "tm-1"); ("investor_id", JStr "17");
                          ("name", JStr "Ann"); ("title", JStr "Partner, Seed")])]
      teamColumns = Some file /\
    map read_record (lines file)
    = [["ID"; "Investor ID"; "Investor Slug"; "Name"; "Title"; "LinkedIn URL";
        "Twitter URL"; "Avatar URL"; "Scraped At"];
       ["tm-1"; "17"; ""; "Ann"; "Partner, Seed"; ""; ""; ""; ""]].
Proof.
  destruct (FullOutputs.arrayToCSV
      [JObj (list_to_map [("id", JStr "tm-1"); ("investor_id", JStr "17");
                          ("name", JStr "Ann"); ("title", JStr "Partner, Seed")])]
      teamColumns) as [file|] eqn:Hfile; [|by vm_compute in Hfile].
  exists file. split; [reflexivity|].
  refine (proj2 (table_reads_back _ teamColumns _ _) file Hfile).
  - discriminate.
  - repeat constructor.
Defined.

Section EnrichTable.
Import EnrichOutputs.

Lemma joined_raises first v : joined first v = None <-> unjoinable first v = true.
Proof.
  unfold joined, unjoinable, join_of. destruct (js_or v (JArr [])); try done.
  by case_match.
Qed.

Lemma csv_cells_length m cells : csv_cells m = Some cells -> length cells = 19%nat.
Proof.
  unfold csv_cells.
  destruct (joined None (field m "personal_emails")); cbn [mbind option_bind]; [|done].
  destruct (joined None (field m "work_emails")); cbn [mbind option_bind]; [|done].
  destruct (joined None (field m "emails")); cbn [mbind option_bind]; [|done].
  destruct (joined None (field m "phones")); cbn [mbind option_bind]; [|done].
  destruct (joined None (field m "twitter")); cbn [mbind option_bind]; [|done].
  destruct (joined (Some 10%nat) (field m "skills")); cbn [mbind option_bind]; [|done].
  intros H.
  by injection H as <-.
Qed.

Lemma joined_printable first v cell : joined first v = Some cell -> unprintable cell = false.
Proof.
  unfold joined. destruct (js_or v (JArr [])); try done.
  destruct (join_of _ _); [|done]. by intros [= <-].
Qed.

Lemma csv_row_raises m : csv_row m = None <-> row_raises m.
Proof.
  unfold csv_row, csv_cells, row_raises.
  rewrite !Exists_cons, !Exists_nil.
  pose proof (joined_raises None (field m "personal_emails")) as H1.
  pose proof (joined_raises None (field m "work_emails")) as H2.
  pose proof (joined_raises None (field m "emails")) as H3.
  pose proof (joined_raises None (field m "phones")) as H4.
  pose proof (joined_raises None (field m "twitter")) as H5.
  pose proof (joined_raises (Some 10%nat) (field m "skills")) as H6.
  destruct (joined None (field m "personal_emails")) as [c1|] eqn:J1;
    cbn [mbind option_bind]; [|by split; [left; left; apply H1|]].
  destruct (joined None (field m "work_emails")) as [c2|] eqn:J2;
    cbn [mbind option_bind]; [|by split; [left; right; left; apply H2|]].
  destruct (joined None (field m "emails")) as [c3|] eqn:J3;
    cbn [mbind option_bind]; [|by split; [left; right; right; left; apply H3|]].
  destruct (joined None (field m "phones")) as [c4|] eqn:J4;
    cbn [mbind option_bind]; [|by split; [left; right; right; right; left; apply H4|]].
  destruct (joined None (field m "twitter")) as [c5|] eqn:J5;
    cbn [mbind option_bind];
    [|by split; [left; right; right; right; right; left; apply H5|]].
  destruct (joined (Some 10%nat) (field m "skills")) as [c6|] eqn:J6;
    cbn [mbind option_bind]; [|by split; [right; left; apply H6|]].
  apply joined_printable in J1, J2, J3, J4, J5, J6.
  rewrite (proj1 (escaped_cells _)). cbn [existsb]. rewrite J1, J2, J3, J4, J5, J6.
  assert (Hn1 : unjoinable None (field m "personal_emails") <> true)
    by (intros ?%H1; done).
  assert (Hn2 : unjoinable None (field m "work_emails") <> true) by (intros ?%H2; done).
  assert (Hn3 : unjoinable None (field m "emails") <> true) by (intros ?%H3; done).
  assert (Hn4 : unjoinable None (field m "phones") <> true) by (intros ?%H4; done).
  assert (Hn5 : unjoinable None (field m "twitter") <> true) by (intros ?%H5; done).
  assert (Hn6 : unjoinable (Some 10%nat) (field m "skills") <> true)
    by (intros ?%H6; done).
  cbn [orb].
  destruct (unprintable (field m "id")); [by split; [right; right; left; left|]|].
  destruct (unprintable (field m "investor_id"));
    [by split; [right; right; left; right; left|]|].
  destruct (unprintable (field m "investor_slug"));
    [by split; [right; right; left; do 2 right; left|]|].
  destruct (unprintable (field m "name"));
    [by split; [right; right; left; do 3 right; left|]|].
  destruct (unprintable (field m "title"));
    [by split; [right; right; left; do 4 right; left|]|].
  destruct (unprintable (field m "headline"));
    [by split; [right; right; left; do 5 right; left|]|].
  destruct (unprintable (field m "linkedin_url"));
    [by split; [right; right; left; do 6 right; left|]|].
  destruct (unprintable (field m "location"));
    [by split; [right; right; left; do 7 right; left|]|].
  destruct (unprintable (field m "country"));
    [by split; [right; right; left; do 8 right; left|]|].
  destruct (unprintable (js_or (prop_opt (field m "current_company") "name") (JStr "")));
    [by split; [right; right; right|]|].
  destruct (unprintable (field m "industry"));
    [by split; [right; right; left; do 9 right; left|]|].
  destruct (unprintable (field m "enriched"));
    [by split; [right; right; left; do 10 right; left|]|].
  destruct (unprintable (field m "enriched_at"));
    [by split; [right; right; left; do 11 right; left|]|].
  cbn [orb]. split; [done|]. naive_solver.
Qed.

Lemma csv_row_texts m row :
  csv_row m = Some row ->
  exists cells,
    csv_cells m = Some cells /\ length cells = 19%nat /\
    row = map (quote_if_needed true) (map cell_text cells).
Proof.
  unfold csv_row. destruct (csv_cells m) as [cells|] eqn:Hcells; [|done].
  cbn [mbind option_bind]. rewrite (proj1 (escaped_cells _)).
  destruct (existsb unprintable cells); [done|]. intros [= <-].
  exists cells. split_and!; [done| |done]. by eapply csv_cells_length.
Qed.

Lemma mapM_then {A B C} (f : A -> option B) (g : B -> C) (l : list A) :
  mapM (fun x => y ← f x; Some (g y)) l = map g <$> mapM f l.
Proof.
  induction l as [|x l IH]; [done|]. cbn. destruct (f x) as [y|]; cbn; [|done].
  rewrite IH. by destruct (mapM f l).
Qed.

Lemma csv_rows (enrichedMembers : list JsObject) :
  mapM (fun m => cells ← csv_cells m; row ← mapM escapeCSV cells;
                 Some (join_strings "," row)) enrichedMembers
  = map (join_strings ",") <$> mapM csv_row enrichedMembers.
Proof.
  induction enrichedMembers as [|m ms IH]; [done|]. cbn [mapM]. rewrite IH.
  assert (csv_row m = csv_cells m ≫= mapM escapeCSV) as -> by done.
  destruct (csv_cells m) as [cells|]; [|reflexivity].
  cbn [mbind option_bind]. destruct (mapM escapeCSV cells); [|reflexivity].
  by destruct (mapM csv_row ms).
Qed.

(** X18. The CSV text of [saveOutputs] in the enrichment script.  Building
    it raises exactly when the row of some result raises: one of
    [personal_emails], [work_emails], [emails], [phones], [twitter] and
    [skills] is truthy without being an array, or a value that goes into a
    cell cannot be converted by [String].  Otherwise the text, cut at its
    line feeds and each line read as a CSV record, is the nineteen titles
    followed, for every result in order, by the texts of its nineteen
    cells. *)
Theorem enriched_csv_reads_back (enrichedMembers : list JsObject) :
  (csv enrichedMembers = None <-> Exists row_raises enrichedMembers) /\
  forall file,
    csv enrichedMembers = Some file ->
    exists table,
      mapM csv_cells enrichedMembers = Some table /\
      Forall (fun cells => length cells = 19%nat) table /\
      map read_record (lines file) = csvHeaders :: map (map cell_text) table.
Proof.
  unfold csv. rewrite csv_rows.
  destruct (mapM csv_row enrichedMembers) as [rows|] eqn:Hrows;
    cbn [fmap option_fmap option_map mbind option_bind].
  - split.
    { split; [discriminate|]. intros Hex. apply Exists_exists in Hex as (m & Hm & Hbad).
      apply csv_row_raises in Hbad.
      assert (Some rows = None); [|discriminate].
      rewrite <- Hrows. apply mapM_raises. by exists m. }
    intros file Hfile. apply (inj Some) in Hfile. rewrite <- Hfile. clear Hfile file.
    apply mapM_Some in Hrows.
    assert (Htable : exists table,
              mapM csv_cells enrichedMembers = Some table /\
              Forall (fun cells => length cells = 19%nat) table /\
              rows = map (fun cells => map (quote_if_needed true) (map cell_text cells))
                       table).
    { induction Hrows as [|m row ms rows Hm _ (table & Ht & Hlen & ->)].
      - by exists [].
      - apply csv_row_texts in Hm as (cells & Hcells & Hlen' & ->).
        exists (cells :: table). cbn [mapM]. rewrite Hcells, Ht.
        split_and!; [done|by constructor|done]. }
    destruct Htable as (table & Ht & Hlen & ->). exists table. split_and!; [done..|].
    rewrite lines_of_rows.
    + cbn [map]. f_equal.
      rewrite !map_map. apply map_ext_Forall. eapply Forall_impl; [exact Hlen|].
      intros cells Hcells. cbn. apply read_written_record. by destruct cells.
    + discriminate.
    + constructor; [done|]. rewrite !Forall_map. apply Forall_forall. intros cells _. cbn.
      apply quoted_row_single_line. rewrite Forall_map. apply Forall_forall.
      intros v _. cbn. by apply cell_text_single_line.
  - split; [|discriminate]. split; [|done]. intros _.
    apply mapM_raises in Hrows as (m & Hm & Hbad). apply Exists_exists. exists m.
    split; [done|]. by apply csv_row_raises.
Qed.

(** A result with two emails and a company. *)
Lemma enriched_csv_reads_back_witness :
  exists file,
    csv [list_to_map [("id", JStr "tm-1"); ("name", JStr "Ann A.");
                      ("emails", JArr [JStr "a@x.example"; JStr "ann@y.example"]);
                      ("current_company", JObj {["name" := JStr "Acme, Inc."]});
                      ("enriched", JBool true)]] = Some file /\
    map read_record (lines file)
    = [csvHeaders;
       ["tm-1"; ""; ""; "Ann A."; ""; ""; ""; ""; "a@x.example; ann@y.example"; "";
        ""; ""; ""; ""; "Acme, Inc."; ""; ""; "true"; ""]].
Proof.
  pose proof (proj2 (enriched_csv_reads_back
    [list_to_map [("id", JStr "tm-1"); ("name", JStr "Ann A.");
                  ("emails", JArr [JStr "a@x.example"; JStr "ann@y.example"]);
                  ("current_company", JObj {["name" := JStr "Acme, Inc."]});
                  ("enriched", JBool true)]])) as H.
  destruct (csv _) as [file|] eqn:Hfile; [|by vm_compute in Hfile].
  exists file. split; [reflexivity|].
  destruct (H file eq_refl) as (table & Htable & _ & Hread).
  rewrite Hread. vm_compute in Htable. injection Htable as <-. reflexivity.
Defined.

End EnrichTable.

(** ** What the extraction functions of the full scraper return *)

Section FullExtraction.
Import FullExtract.

Lemma trimmed_raises v : trimmed (js_or v (JStr "")) = None <-> not_text v = true.
Proof.
  unfold js_or, not_text. destruct (truthy v) eqn:Hv; [|done].
  destruct v; cbn; split; congruence.
Qed.

Lemma flattened_raises v : flattened (js_or v (JStr "")) = None <-> not_text v = true.
Proof.
  unfold js_or, not_text. destruct (truthy v) eqn:Hv; [|done].
  destruct v; cbn; split; congruence.
Qed.

Lemma printed_raises (f : string -> JsValue) v :
  (text ← string_of v; Some (f text)) = None <-> unprintable v = true.
Proof. unfold string_of. by destruct (unprintable v). Qed.

Lemma unprintable_truthy v : unprintable v = true -> truthy v = true.
Proof. by destruct v. Qed.

(** X19. [extractInvestor] raises exactly when its argument is [null] or
    [undefined], or one of the attributes [website], [secondary-website],
    [description], [thesis] and [traction-metrics-requirements] is truthy
    without being a string, or the value printed in the profile address
    ([attrs.slug || data.id]) cannot be converted to a string;
    [extractTeamMember] raises exactly when its first argument is [null] or
    [undefined], or the attribute [title] is truthy without being a string,
    or the avatar key cannot be converted to a string. *)
Theorem full_extraction_raises_iff (data investorId : JsValue) (slug now : string) :
  (extractInvestor data now = None <->
   is_nullish data = true \/
   Exists (fun k => not_text (prop_opt (attributes_of data) k) = true)
     ["website"; "secondary-website"; "description"; "thesis";
      "traction-metrics-requirements"] \/
   unprintable (js_or (prop_opt (attributes_of data) "slug") (prop_opt data "id")) = true) /\
  (extractTeamMember data investorId slug now = None <->
   is_nullish data = true \/
   not_text (prop_opt (attributes_of data) "title") = true \/
   unprintable (prop_opt (attributes_of data) "external-image-s3-key") = true).
Proof.
  unfold extractInvestor, extractTeamMember, attributes_of.
  destruct (is_nullish data) eqn:Hdata.
  { rewrite (proj2 (prop_nullish data "attributes") Hdata). cbn. split; split; auto. }
  rewrite !(prop_defined _ _ Hdata). cbn [mbind option_bind].
  set (attrs := js_or (prop_opt data "attributes") (JObj ∅)).
  pose proof (trimmed_raises (prop_opt attrs "website")) as Hw.
  pose proof (trimmed_raises (prop_opt attrs "secondary-website")) as Hs.
  pose proof (flattened_raises (prop_opt attrs "description")) as Hd.
  pose proof (flattened_raises (prop_opt attrs "thesis")) as Ht.
  pose proof (flattened_raises (prop_opt attrs "traction-metrics-requirements")) as Hm.
  pose proof (trimmed_raises (prop_opt attrs "title")) as Htitle.
  pose proof (printed_raises
                (fun text => JStr ("https://connect.visible.vc/investors/" +:+ text))
                (js_or (prop_opt attrs "slug") (prop_opt data "id"))) as Hp.
  pose proof (printed_raises
                (fun text => JStr ("https://d31s0k9giryrah.cloudfront.net/" +:+ text))
                (prop_opt attrs "external-image-s3-key")) as Ha.
  rewrite !object_literal_raises, !Exists_cons, Exists_nil. split; split.
  - intros [k Hk]. right.
    repeat (apply elem_of_cons in Hk as [Hk|Hk];
            [injection Hk as _ Hk; try discriminate; symmetry in Hk|]).
    all: try (by apply elem_of_nil in Hk).
    + left. left. by apply Hw.
    + left. right. left. by apply Hs.
    + left. right. right. left. by apply Hd.
    + left. right. right. right. left. by apply Ht.
    + left. right. right. right. right. left. by apply Hm.
    + right. by apply Hp.
  - intros [?|[[H|[H|[H|[H|[H|[]]]]]]|H]]; [done|..].
    + apply Hw in H. exists "website". apply (list_elem_of_lookup_2 _ 3).
      by rewrite <- H.
    + apply Hs in H. exists "secondary_website". apply (list_elem_of_lookup_2 _ 4).
      by rewrite <- H.
    + apply Hd in H. exists "description". apply (list_elem_of_lookup_2 _ 5).
      by rewrite <- H.
    + apply Ht in H. exists "thesis". apply (list_elem_of_lookup_2 _ 21).
      by rewrite <- H.
    + apply Hm in H. exists "traction_metrics". apply (list_elem_of_lookup_2 _ 22).
      by rewrite <- H.
    + apply Hp in H. exists "profile_url". apply (list_elem_of_lookup_2 _ 28).
      by rewrite <- H.
  - intros [k Hk]. right.
    repeat (apply elem_of_cons in Hk as [Hk|Hk];
            [injection Hk as _ Hk; try discriminate; symmetry in Hk|]).
    all: try (by apply elem_of_nil in Hk).
    + left. by apply Htitle.
    + right. destruct (truthy (prop_opt attrs "external-image-s3-key")); [|done].
      by apply Ha.
  - intros [?|[H|H]]; [done|..].
    + apply Htitle in H. exists "title".
      apply (list_elem_of_lookup_2 _ 4). by rewrite <- H.
    + exists "avatar_url". apply (list_elem_of_lookup_2 _ 7).
      rewrite (unprintable_truthy _ H). apply Ha in H. by rewrite H.
Qed.

(** X20. The properties of the record [extractInvestor] returns are the
    keys of the columns of the investor table, and the properties of the
    record [extractTeamMember] returns are the keys of the columns of the
    team-member table: every column finds its property and every property
    has a column.  Both records carry the [id] of the data and, as
    [scraped_at], the time of the call; a team member carries the investor id
    and the slug it was extracted for. *)
Theorem extracted_records_fill_columns (data investorId : JsValue) (slug now : string)
    (record : JsObject) :
  (extractInvestor data now = Some record ->
   dom record = list_to_set (map FullOutputs.key investorColumns) /\
   record !! "id" = Some (prop_opt data "id") /\
   record !! "scraped_at" = Some (JStr now)) /\
  (extractTeamMember data investorId slug now = Some record ->
   dom record = list_to_set (map FullOutputs.key teamColumns) /\
   record !! "id" = Some (prop_opt data "id") /\
   record !! "investor_id" = Some investorId /\
   record !! "investor_slug" = Some (JStr slug) /\
   record !! "scraped_at" = Some (JStr now)).
Proof.
  unfold extractInvestor, extractTeamMember.
  destruct (is_nullish data) eqn:Hdata.
  { rewrite (proj2 (prop_nullish data "attributes") Hdata). cbn. by split. }
  rewrite !(prop_defined _ _ Hdata). cbn [mbind option_bind]. split; intros H.
  - split; [by rewrite (object_literal_dom _ _ H)|].
    split; [apply (object_literal_at _ _ 0 _ _ H); [reflexivity|absent_from_literal]|].
    apply (object_literal_at _ _ 29 _ _ H); [reflexivity|absent_from_literal].
  - split; [by rewrite (object_literal_dom _ _ H)|].
    split; [apply (object_literal_at _ _ 0 _ _ H); [reflexivity|absent_from_literal]|].
    split; [apply (object_literal_at _ _ 1 _ _ H); [reflexivity|absent_from_literal]|].
    split; [apply (object_literal_at _ _ 2 _ _ H); [reflexivity|absent_from_literal]|].
    apply (object_literal_at _ _ 8 _ _ H); [reflexivity|absent_from_literal].
Qed.

End FullExtraction.

Section ScrapedReferences.
Import Full.

Lemma push_each_from extract : forall items records records' raised,
  push_each extract items records = (records', raised) ->
  exists new, records' = records ++ new /\
              Forall (fun r => exists x, extract x = Some r) new.
Proof.
  induction items as [|x later IH]; intros records records' raised H; cbn in H.
  - injection H as <- _. exists []. by rewrite app_nil_r.
  - destruct (extract x) as [r|] eqn:Hx.
    + destruct (IH _ _ _ H) as (new & -> & Hnew). exists (r :: new).
      split; [by rewrite <- app_assoc|]. constructor; [by exists x|done].
    + injection H as <- _. exists []. by rewrite app_nil_r.
Qed.

Lemma push_array_from extract data records records' raised :
  push_array extract data records = (records', raised) ->
  exists new, records' = records ++ new /\
              Forall (fun r => exists x, extract x = Some r) new.
Proof.
  destruct data; cbn; try (intros [= <- _]; exists []; by rewrite app_nil_r).
  apply push_each_from.
Qed.

Lemma team_member_refers w data investorId slug member :
  extracts_as_written w ->
  extractTeamMember w data investorId slug = Some member ->
  member !! "investor_id" = Some investorId /\
  member !! "investor_slug" = Some (JStr slug).
Proof.
  intros [_ Hw] H. destruct (Hw data investorId slug) as [now Hnow].
  rewrite Hnow in H. clear Hnow. unfold FullExtract.extractTeamMember in H.
  destruct (prop data "attributes"); cbn [mbind option_bind] in H; [|done].
  split.
  - apply (object_literal_at _ _ 1 _ _ H); [reflexivity|absent_from_literal].
  - apply (object_literal_at _ _ 2 _ _ H); [reflexivity|absent_from_literal].
Qed.

(** What a pass appends: team members only behind an investor of the same
    pass, whom they refer to. *)
Lemma try_body_refers cfg opts w slug s s1 evs c :
  extracts_as_written w ->
  try_body cfg opts w slug s = (s1, evs, c) ->
  exists newInvestors newMembers,
    investors (progress s1) = investors (progress s) ++ newInvestors /\
    teamMembers (progress s1) = teamMembers (progress s) ++ newMembers /\
    Forall (refers_to newInvestors [slug]) newMembers.
Proof.
  intros Hw H. unfold try_body in H.
  assert (Hnone : exists newInvestors newMembers : list JsObject,
            investors (progress s) = investors (progress s) ++ newInvestors /\
            teamMembers (progress s) = teamMembers (progress s) ++ newMembers /\
            Forall (refers_to newInvestors [slug]) newMembers)
    by (exists [], []; by rewrite !app_nil_r).
  destruct (fetchInvestorBySlug cfg (investor_upstream w)) as [backoff out].
  destruct out as [v| |]; try (by injection H as <- _ _).
  destruct (truthy v); [|by injection H as <- _ _].
  destruct (extractInvestor w v) as [investor|]; [|by injection H as <- _ _].
  assert (Hone : forall members : list JsObject,
            Forall (fun r => exists x,
                      extractTeamMember w x (field investor "id") slug = Some r) members ->
            Forall (refers_to [investor] [slug]) members).
  { intros members Hall. eapply Forall_impl; [exact Hall|]. intros r [x Hx]. cbn in Hx.
    destruct (team_member_refers _ _ _ _ _ Hw Hx) as [H1 H2]. split.
    - exists investor. split; [left|done].
    - exists slug. split; [left|done]. }
  destruct (fetchTeamMembers cfg (team_upstream w)) as [backoff2 out2].
  destruct out2 as [teamData| |];
    try (injection H as <- _ _; exists [investor], []; cbn; by rewrite app_nil_r).
  destruct (push_array _ teamData _) as [team raised2] eqn:Hteam.
  apply push_array_from in Hteam as (new & -> & Hnew).
  destruct raised2; [injection H as <- _ _; exists [investor], new; cbn; auto|].
  destruct (fetchInvestments cfg (rounds_upstream w)) as [backoff3 out3].
  destruct out3 as [roundsData| |];
    try (injection H as <- _ _; exists [investor], new; cbn; auto).
  destruct (push_array _ roundsData _) as [rounds raised3].
  injection H as <- _ _. exists [investor], new. cbn. auto.
Qed.

Lemma refers_to_more investors investors' slugs slugs' member :
  investors ⊆ investors' -> slugs ⊆ slugs' ->
  refers_to investors slugs member -> refers_to investors' slugs' member.
Proof.
  intros Hi Hs [(inv & Hinv & H1) (slug & Hslug & H2)]. split.
  - exists inv. split; [by apply Hi|done].
  - exists slug. split; [by apply Hs|done].
Qed.

Lemma for_slugs_refers cfg opts upstream : forall allSlugs s s' evs e,
  (forall slug, extracts_as_written (upstream slug)) ->
  for_slugs cfg opts upstream allSlugs s = (s', evs, e) ->
  exists newInvestors newMembers,
    investors (progress s') = investors (progress s) ++ newInvestors /\
    teamMembers (progress s') = teamMembers (progress s) ++ newMembers /\
    Forall (refers_to newInvestors allSlugs) newMembers.
Proof.
  induction allSlugs as [|slug later IH]; intros s s' evs e Hw H; cbn [for_slugs] in H.
  - injection H as <- _ _. exists [], []. by rewrite !app_nil_r.
  - assert (Hlater : forall s s' evs e,
              for_slugs cfg opts upstream later s = (s', evs, e) ->
              exists newInvestors newMembers,
                investors (progress s') = investors (progress s) ++ newInvestors /\
                teamMembers (progress s') = teamMembers (progress s) ++ newMembers /\
                Forall (refers_to newInvestors (slug :: later)) newMembers).
    { intros s0 s0' evs0 e0 H0. destruct (IH _ _ _ _ Hw H0) as (ni & nm & H1 & H2 & H3).
      exists ni, nm. split; [done|]. split; [done|].
      eapply Forall_impl; [exact H3|]. intros m. apply refers_to_more; [done|].
      intros x Hx. by right. }
    destruct (bool_decide (slug ∈ processedSet s)); [by eapply Hlater|].
    destruct (total (progress s) <=? processed s)%nat.
    { injection H as <- _ _. exists [], []. by rewrite !app_nil_r. }
    unfold loop_body in H.
    destruct (checkpoint_raises cfg s).
    { injection H as <- _ _. exists [], []. by rewrite !app_nil_r. }
    destruct (try_body cfg opts (upstream slug) slug s) as [[s1 evs1] c1] eqn:Htry.
    destruct (try_body_refers _ _ _ _ _ _ _ _ (Hw slug) Htry) as (ni & nm & H1 & H2 & H3).
    assert (H3' : Forall (refers_to ni (slug :: later)) nm).
    { eapply Forall_impl; [exact H3|]. intros m. apply refers_to_more; [done|].
      intros x ->%list_elem_of_singleton. left. }
    destruct c1.
    + destruct (for_slugs cfg opts upstream later (mark_processed slug s1))
        as [[s2 evs2] e2] eqn:Hloop.
      injection H as <- _ _.
      destruct (Hlater _ _ _ _ Hloop) as (ni' & nm' & H4 & H5 & H6).
      cbn [mark_processed progress investors teamMembers] in H4, H5.
      exists (ni ++ ni'), (nm ++ nm'). rewrite H4, H5, H1, H2, <- !app_assoc.
      split; [done|]. split; [done|]. apply Forall_app. split.
      * eapply Forall_impl; [exact H3'|]. intros m. apply refers_to_more; [|done].
        intros x Hx. apply elem_of_app. by left.
      * eapply Forall_impl; [exact H6|]. intros m. apply refers_to_more; [|done].
        intros x Hx. apply elem_of_app. by right.
    + destruct (for_slugs cfg opts upstream later (mark_processed slug s1))
        as [[s2 evs2] e2] eqn:Hloop.
      injection H as <- _ _.
      destruct (Hlater _ _ _ _ Hloop) as (ni' & nm' & H4 & H5 & H6).
      cbn [mark_processed progress investors teamMembers] in H4, H5.
      exists (ni ++ ni'), (nm ++ nm'). rewrite H4, H5, H1, H2, <- !app_assoc.
      split; [done|]. split; [done|]. apply Forall_app. split.
      * eapply Forall_impl; [exact H3'|]. intros m. apply refers_to_more; [|done].
        intros x Hx. apply elem_of_app. by left.
      * eapply Forall_impl; [exact H6|]. intros m. apply refers_to_more; [|done].
        intros x Hx. apply elem_of_app. by right.
    + injection H as <- _ _. by exists ni, nm.
Qed.

End ScrapedReferences.

(** X21. The team members the loop of [scrape] collects refer to investors
    it collected: when the extraction is done by [extractInvestor] and
    [extractTeamMember], every team member appended during the loop has as
    [investor_id] the [id] of an investor record appended during the same
    loop, and as [investor_slug] a slug of the list, whatever was skipped,
    raised or left pending. *)
Theorem collected_team_members_refer_to_investors cfg opts upstream allSlugs p s' evs e :
  (forall slug, extracts_as_written (upstream slug)) ->
  Full.for_slugs cfg opts upstream allSlugs (Full.initial_state p) = (s', evs, e) ->
  exists newInvestors newMembers,
    Full.investors (Full.progress s') = Full.investors p ++ newInvestors /\
    Full.teamMembers (Full.progress s') = Full.teamMembers p ++ newMembers /\
    Forall (refers_to newInvestors allSlugs) newMembers.
Proof. intros Hw H. by apply (for_slugs_refers _ _ _ _ _ _ _ _ Hw H). Qed.

Lemma extracting_world_as_written investor team rounds now :
  extracts_as_written (extracting_world investor team rounds now).
Proof. split; intros; by exists now. Qed.

(** One slug: the investor is found with two people. *)
Example scrape_of_one_slug :
  let r := Full.for_slugs Full.CONFIG {| Full.delay := 2000 |} (fun _ => acme_world)
             ["acme-ventures"] (Full.initial_state (empty_scrape 1)) in
  map scrape_mark r.1.2 = [MLine; MPace; MFetch; MPace; MFetch; MPace; MFetch] /\
  map (fun r => (field r "id", field r "website", field r "profile_url"))
    (Full.investors (Full.progress r.1.1))
  = [(JStr "17", JStr "https://acme.example",
      JStr "https://connect.visible.vc/investors/acme-ventures")] /\
  map (fun r => (field r "id", field r "investor_id", field r "investor_slug",
                 field r "title"))
    (Full.teamMembers (Full.progress r.1.1))
  = [(JStr "tm-1", JStr "17", JStr "acme-ventures", JStr "Partner");
     (JStr "tm-2", JStr "17", JStr "acme-ventures", JStr "")] /\
  Full.processedSlugs (Full.progress r.1.1) = ["acme-ventures"] /\
  r.2 = Completed.
Proof. vm_compute. repeat split. Qed.

Lemma collected_team_members_refer_to_investors_witness :
  exists s' evs e newInvestors newMembers,
    Full.for_slugs Full.CONFIG {| Full.delay := 2000 |} (fun _ => acme_world)
      ["acme-ventures"] (Full.initial_state (empty_scrape 1)) = (s', evs, e) /\
    Full.teamMembers (Full.progress s') = [] ++ newMembers /\
    Forall (refers_to newInvestors ["acme-ventures"]) newMembers.
Proof.
  destruct (Full.for_slugs Full.CONFIG {| Full.delay := 2000 |} (fun _ => acme_world)
              ["acme-ventures"] (Full.initial_state (empty_scrape 1)))
    as [[s' evs] e] eqn:Hrun.
  destruct (collected_team_members_refer_to_investors _ _ _ _ _ _ _ _
              (fun _ => extracting_world_as_written _ _ _ _) Hrun)
    as (newInvestors & newMembers & _ & Hmembers & Hrefer).
  exists s', evs, e, newInvestors, newMembers. split; [reflexivity|].
  split; [exact Hmembers|exact Hrefer].
Defined.

Lemma filter_raising_Some keep items sel :
  EnrichSelection.filter_raising keep items = Some sel ->
  sel `sublist_of` items /\
  forall x, x ∈ sel <-> x ∈ items /\ keep x = Some true.
Proof.
  revert sel. induction items as [|y items IH]; intros sel; cbn.
  - intros [= <-]. split; [done|]. intros x. split; [by intros ?%elem_of_nil|].
    by intros [?%elem_of_nil _].
  - destruct (keep y) as [kept|] eqn:Hy; cbn; [|done].
    destruct (EnrichSelection.filter_raising keep items) as [rest|]; cbn; [|done].
    intros [= <-]. destruct (IH rest eq_refl) as [Hsub Hin].
    destruct kept.
    + split; [by apply sublist_skip|]. intros x. rewrite !elem_of_cons, Hin.
      split; [intros [->|[? ?]]; auto|intros [[->|?] ?]; auto].
    + split; [by apply sublist_cons|]. intros x. rewrite elem_of_cons, Hin.
      split; [intros [? ?]; auto|intros [[->|?] ?]; [congruence|auto]].
Qed.

Lemma filter_raising_None keep items :
  EnrichSelection.filter_raising keep items = None <-> Exists (fun x => keep x = None) items.
Proof.
  induction items as [|y items IH]; cbn.
  - split; [done|by intros ?%Exists_nil].
  - rewrite Exists_cons, <- IH. destruct (keep y) as [kept|]; cbn.
    + destruct (EnrichSelection.filter_raising keep items); cbn; naive_solver.
    + naive_solver.
Qed.

Lemma lowered_None v : EnrichSelection.lowered v = None <-> not_text v = true.
Proof.
  unfold EnrichSelection.lowered, not_text, js_or.
  destruct v as [| |b|n|s|l|o]; cbn; try done; try (by destruct b).
  - by destruct (n =? 0).
  - destruct (String.eqb s ""); cbn; split; done.
Qed.

Lemma is_us_fund_None inv : EnrichSelection.is_us_fund inv = None <-> bad_fund inv.
Proof.
  unfold EnrichSelection.is_us_fund, bad_fund, prop_opt.
  destruct (prop inv "country") as [c|] eqn:Hc.
  - assert (Hn : is_nullish inv = false) by (by destruct inv).
    assert (exists r, prop inv "region" = Some r) as [r Hr] by (destruct inv; by eexists).
    rewrite Hr, Hn. cbn [mbind option_bind default].
    destruct (EnrichSelection.lowered c) as [country|] eqn:Hcountry; cbn [mbind option_bind].
    + destruct (EnrichSelection.lowered r) as [region|] eqn:Hregion; cbn [mbind option_bind].
      * assert (not_text c <> true) by (rewrite <- lowered_None; congruence).
        assert (not_text r <> true) by (rewrite <- lowered_None; congruence).
        split; [by case_match|]. intros [?|[?|?]]; done.
      * apply lowered_None in Hregion. split; auto.
    + apply lowered_None in Hcountry. split; auto.
  - assert (Hn : is_nullish inv = true) by (by destruct inv).
    cbn. split; auto.
Qed.

Lemma has_linkedin_in_None slugs m :
  EnrichSelection.has_linkedin_in slugs m = None <-> is_nullish m = true.
Proof.
  unfold EnrichSelection.has_linkedin_in.
  destruct m as [| |b|n|s|l|o]; cbn; try done; try (by case_match).
Qed.

Lemma has_linkedin_in_true slugs m :
  EnrichSelection.has_linkedin_in slugs m = Some true <->
  exists o, m = JObj o /\ truthy (field o "linkedin_url") = true /\
            set_has slugs (field o "investor_slug") = true.
Proof.
  unfold EnrichSelection.has_linkedin_in. split.
  - destruct m as [| |b|n|s|l|o]; cbn; try done.
    destruct (truthy (field o "linkedin_url")) eqn:Hl; cbn; [|done].
      intros [= Hs]. by exists o.
  - intros (o & -> & Hl & Hs). cbn. by rewrite Hl, Hs.
Qed.

Lemma fund_slugs funds :
  Forall (fun f => is_nullish f = false) funds ->
  mapM (fun f => prop f "slug") funds = Some ((fun f => prop_opt f "slug") <$> funds).
Proof.
  induction 1 as [|f funds Hf _ IH]; [done|].
  cbn. rewrite IH. unfold prop_opt. destruct f; try done.
Qed.

Lemma set_has_fmap {A} (f : A -> JsValue) (l : list A) x :
  set_has (f <$> l) x = true <-> exists y, y ∈ l /\ strict_eq x (f y) = true.
Proof.
  unfold set_has. rewrite existsb_exists. split.
  - intros (v & Hv & Heq). apply list_elem_of_In, list_elem_of_fmap in Hv as (y & -> & Hy).
    by exists y.
  - intros (y & Hy & Heq). exists (f y). split; [|done].
    apply list_elem_of_In, list_elem_of_fmap. by exists y.
Qed.

(** What the selection returns, and when it raises. *)
Lemma membersWithLinkedIn_spec allTeamMembers allInvestors :
  match EnrichSelection.membersWithLinkedIn allTeamMembers allInvestors with
  | Some selected =>
      exists members investors,
        allTeamMembers = JArr members /\ allInvestors = JArr investors /\
        selected `sublist_of` members /\
        forall m, m ∈ selected <-> m ∈ members /\ eligible investors m
  | None =>
      match allTeamMembers, allInvestors with
      | JArr members, JArr investors =>
          Exists bad_fund investors \/ Exists (fun m => is_nullish m = true) members
      | _, _ => True
      end
  end.
Proof.
  unfold EnrichSelection.membersWithLinkedIn.
  destruct allTeamMembers as [| | | | |members|]; try done.
  destruct allInvestors as [| | | | |investors|]; try done.
  destruct (EnrichSelection.filter_raising EnrichSelection.is_us_fund investors)
    as [usFunds|] eqn:Hfunds; cbn [mbind option_bind].
  - destruct (filter_raising_Some _ _ _ Hfunds) as [_ Hus].
    rewrite fund_slugs; cbn [mbind option_bind].
    2:{ apply Forall_forall. intros f Hf%Hus. destruct Hf as [_ Hf]. by destruct f. }
    destruct (EnrichSelection.filter_raising _ members) as [selected|] eqn:Hsel.
    + destruct (filter_raising_Some _ _ _ Hsel) as [Hsub Hin].
      exists members, investors. split_and!; try done.
      intros m. rewrite Hin, has_linkedin_in_true. unfold eligible.
      split.
      * intros (Hm & o & -> & Hl & Hs). split; [done|].
        apply set_has_fmap in Hs as (fund & Hfund%Hus & Heq).
        exists o, fund. by destruct Hfund.
      * intros (Hm & o & fund & -> & Hl & Hfund & Hus' & Heq). split; [done|].
        exists o. split_and!; try done. apply set_has_fmap. exists fund.
        split; [by apply Hus|done].
    + right. apply filter_raising_None in Hsel.
      eapply Exists_impl; [exact Hsel|]. intros m Hm. by apply has_linkedin_in_None in Hm.
  - left. apply filter_raising_None in Hfunds.
    eapply Exists_impl; [exact Hfunds|]. intros f Hf. by apply is_us_fund_None.
Qed.

Lemma lower_char_idemp c :
  EnrichSelection.lower_char (EnrichSelection.lower_char c) = EnrichSelection.lower_char c.
Proof.
  destruct c as [[] [] [] [] [] [] [] []]; reflexivity.
Qed.

Lemma toLowerCase_idemp s :
  EnrichSelection.toLowerCase (EnrichSelection.toLowerCase s) = EnrichSelection.toLowerCase s.
Proof.
  induction s as [|c s IH]; [done|]. cbn [EnrichSelection.toLowerCase].
  by rewrite lower_char_idemp, IH.
Qed.

Lemma lowered_toLowerCase s :
  EnrichSelection.lowered (JStr (EnrichSelection.toLowerCase s)) = EnrichSelection.lowered (JStr s).
Proof.
  destruct s as [|c s]; [done|].
  unfold EnrichSelection.lowered, js_or.
  change (truthy (JStr (String c s))) with true.
  change (truthy (JStr (EnrichSelection.toLowerCase (String c s)))) with true.
  cbn [EnrichSelection.toLowerCase]. by rewrite lower_char_idemp, toLowerCase_idemp.
Qed.

Lemma selected_are_objects allTeamMembers allInvestors selected m :
  EnrichSelection.membersWithLinkedIn allTeamMembers allInvestors = Some selected ->
  m ∈ omap EnrichSelection.as_object selected -> JObj m ∈ selected.
Proof.
  intros _ Hm. apply list_elem_of_omap in Hm as (v & Hv & Hobj).
  destruct v; try done. cbn in Hobj. by injection Hobj as ->.
Qed.

(** X22. The members [enrich] selects are exactly the eligible records of
    team_members.json, in the order of the file: the objects with a truthy
    [linkedin_url] whose [investor_slug] is the [slug] of a fund that the
    US filter keeps. *)
Theorem selected_members_are_the_eligible_ones members investors selected :
  EnrichSelection.membersWithLinkedIn (JArr members) (JArr investors) = Some selected ->
  selected `sublist_of` members /\
  forall m, m ∈ selected <-> m ∈ members /\ eligible investors m.
Proof.
  intros H. pose proof (membersWithLinkedIn_spec (JArr members) (JArr investors)) as Hspec.
  rewrite H in Hspec. destruct Hspec as (ms & invs & [= <-] & [= <-] & Hsub & Hin). done.
Qed.

(** X23. Selecting the members raises, so that [enrich] ends before any
    request, exactly when one of the two files does not hold an array, a
    record of investors.json is [null] or has a [country] or [region] that
    is truthy and not a string, or a record of team_members.json is
    [null]. *)
Theorem selection_raises_iff allTeamMembers allInvestors :
  EnrichSelection.membersWithLinkedIn allTeamMembers allInvestors = None <->
  match allTeamMembers, allInvestors with
  | JArr members, JArr investors =>
      Exists bad_fund investors \/ Exists (fun m => is_nullish m = true) members
  | _, _ => True
  end.
Proof.
  split.
  - intros H. pose proof (membersWithLinkedIn_spec allTeamMembers allInvestors) as Hspec.
    by rewrite H in Hspec.
  - unfold EnrichSelection.membersWithLinkedIn.
    destruct allTeamMembers as [| | | | |members|]; try done.
    destruct allInvestors as [| | | | |investors|]; try done.
    intros Hbad.
    destruct (EnrichSelection.filter_raising EnrichSelection.is_us_fund investors)
      as [usFunds|] eqn:Hfunds; cbn [mbind option_bind]; [|done].
    destruct Hbad as [Hbad|Hbad].
    + assert (EnrichSelection.filter_raising EnrichSelection.is_us_fund investors = None);
        [|congruence].
      apply filter_raising_None. eapply Exists_impl; [exact Hbad|].
      intros f Hf. by apply is_us_fund_None.
    + destruct (mapM _ usFunds) as [usFundSlugs|]; cbn [mbind option_bind]; [|done].
      apply filter_raising_None. eapply Exists_impl; [exact Hbad|].
      intros m Hm. by apply has_linkedin_in_None.
Qed.

(** X24. Every request of a run of [enrich] is made for an eligible record
    of team_members.json: an object of the file with a truthy
    [linkedin_url] whose [investor_slug] is the [slug] of a fund that the
    US filter keeps. *)
Theorem requests_only_for_eligible_members cfg opts members investors stored worlds
    final trace e :
  EnrichSelection.enrich cfg opts (JArr members) (JArr investors) stored worlds
    = Some (final, trace, e) ->
  Forall (fun ev => match ev with
                    | Enrich.EvFetch m _ _ => JObj m ∈ members /\ eligible investors (JObj m)
                    | _ => True
                    end) trace.
Proof.
  unfold EnrichSelection.enrich. intros H.
  destruct (EnrichSelection.membersWithLinkedIn (JArr members) (JArr investors))
    as [selected|] eqn:Hsel; [|done].
  cbn [mbind option_bind] in H. apply (inj Some) in H.
  pose proof (membersWithLinkedIn_spec (JArr members) (JArr investors)) as Hspec.
  rewrite Hsel in Hspec. destruct Hspec as (ms & invs & [= <-] & [= <-] & _ & Hin).
  destruct (enrich_run_counts _ _ _ _ _ _ _ _ H) as (_ & Hf & _).
  eapply Forall_impl; [exact Hf|]. intros [] Hev; try done.
  apply Hin. eapply selected_are_objects; [exact Hsel|].
  eapply elem_of_sublist; [exact Hev|apply toProcess_sublist].
Qed.

(** X25. The US filter does not look at letter case: a fund is classified
    the same whether its [country] and [region] are given as written or in
    lower case. *)
Theorem us_classification_ignores_case (o : JsObject) (country region : string) :
  EnrichSelection.is_us_fund
    (JObj (<["country" := JStr (EnrichSelection.toLowerCase country)]>
             (<["region" := JStr (EnrichSelection.toLowerCase region)]> o)))
  = EnrichSelection.is_us_fund
      (JObj (<["country" := JStr country]> (<["region" := JStr region]> o))).
Proof.
  unfold EnrichSelection.is_us_fund, prop, field.
  rewrite !lookup_insert_eq, !(lookup_insert_ne _ "country" "region") by done.
  rewrite !lookup_insert_eq. cbn [default]. unfold id. cbn [mbind option_bind].
  by rewrite !lowered_toLowerCase.
Qed.

Example selection_of_team_file :
  EnrichSelection.membersWithLinkedIn team_file (JArr [acme_fund; bolt_fund; coda_fund])
  = Some [JObj ann; JObj bob].
Proof. reflexivity. Qed.

Lemma selected_members_are_the_eligible_ones_witness :
  [JObj ann; JObj bob] `sublist_of` team_records.
Proof.
  exact (proj1 (selected_members_are_the_eligible_ones team_records
                  [acme_fund; bolt_fund; coda_fund] [JObj ann; JObj bob] eq_refl)).
Defined.

Lemma requests_only_for_eligible_members_witness :
  exists final trace e,
    EnrichSelection.enrich Enrich.CONFIG fresh_run team_file
      (JArr [acme_fund; bolt_fund; coda_fund]) None [answers_404; answers_profile]
    = Some (final, trace, e) /\
    Forall (fun ev => match ev with
                      | Enrich.EvFetch m _ _ =>
                          eligible [acme_fund; bolt_fund; coda_fund] (JObj m)
                      | _ => True
                      end) trace.
Proof.
  assert (Hsome : match EnrichSelection.enrich Enrich.CONFIG fresh_run team_file
                          (JArr [acme_fund; bolt_fund; coda_fund]) None
                          [answers_404; answers_profile] with
                  | Some _ => true
                  | None => false
                  end = true) by (vm_compute; reflexivity).
  destruct (EnrichSelection.enrich Enrich.CONFIG fresh_run team_file
              (JArr [acme_fund; bolt_fund; coda_fund]) None
              [answers_404; answers_profile]) as [[[final trace] e]|] eqn:Hrun; [|done].
  exists final, trace, e. split; [reflexivity|].
  eapply Forall_impl;
    [exact (requests_only_for_eligible_members _ _ _ _ _ _ _ _ _ Hrun)|].
  intros [] Hev; [exact I|exact I|exact I|exact (proj2 Hev)|exact I|exact I].
Defined.

Section BasicExtraction.
Import BasicExtract.

Lemma basic_joined_raises v : joined v = None <-> unjoinable None v = true.
Proof.
  unfold joined, unjoinable, join_of. destruct (js_or v (JArr [])); try done.
  by case_match.
Qed.

Lemma object_literal_absent (props : list (string * option JsValue)) (o : JsObject)
    (k : string) :
  object_literal props = Some o -> k ∉ props.*1 -> o !! k = None.
Proof.
  intros H Hk. apply not_elem_of_dom. rewrite (object_literal_dom _ _ H).
  by rewrite elem_of_list_to_set.
Qed.

(** X27. [extractInvestorData] raises exactly when the investor is [null]
    or [undefined], or its [stages] or [focuses] is truthy without being an
    array or holds a value that cannot be converted to a string, or the
    value printed in the profile address ([attrs.slug || investor.id])
    cannot be converted.  The record it returns has seventeen properties,
    among them the [id] of the investor; it has none of [city], [country],
    [description], [twitter], [linkedin], [crunchbase] and [angellist],
    which [saveToCSV] reads, and [saveToCSV] reads none of its [slug],
    [stages_list] and [focuses_list]. *)
Theorem basic_extraction_and_columns (investor : JsValue) (now : string) :
  (extractInvestorData investor now = None <->
   is_nullish investor = true \/
   unjoinable None (prop_opt (attributes_of investor) "stages") = true \/
   unjoinable None (prop_opt (attributes_of investor) "focuses") = true \/
   unprintable (js_or (prop_opt (attributes_of investor) "slug") (prop_opt investor "id"))
   = true) /\
  forall record,
    extractInvestorData investor now = Some record ->
    dom record = list_to_set basic_record_keys /\
    record !! "id" = Some (prop_opt investor "id") /\
    Forall (fun k => k ∈ BasicOutputs.row_keys /\ record !! k = None) detailed_only_keys /\
    Forall (fun k => k ∈ dom record /\ k ∉ BasicOutputs.row_keys)
      ["slug"; "stages_list"; "focuses_list"].
Proof.
  unfold attributes_of. set (attrs := js_or (prop_opt investor "attributes") (JObj ∅)).
  unfold extractInvestorData.
  destruct (is_nullish investor) eqn:Hinv.
  { rewrite (proj2 (prop_nullish investor "attributes") Hinv). cbn. split; [|done].
    split; auto. }
  rewrite !(prop_defined _ _ Hinv). cbn [mbind option_bind]. fold attrs.
  pose proof (basic_joined_raises (prop_opt attrs "stages")) as Hs.
  pose proof (basic_joined_raises (prop_opt attrs "focuses")) as Hf.
  pose proof (printed_raises
                (fun text => JStr ("https://connect.visible.vc/investors/" +:+ text))
                (js_or (prop_opt attrs "slug") (prop_opt investor "id"))) as Hp.
  split.
  - rewrite object_literal_raises. split.
    + intros [k Hk]. right.
      repeat (apply elem_of_cons in Hk as [Hk|Hk];
              [injection Hk as _ Hk; try discriminate; symmetry in Hk|]).
      all: try (by apply elem_of_nil in Hk).
      * left. by apply Hs.
      * right. left. by apply Hf.
      * right. right. by apply Hp.
    + intros [?|[H|[H|H]]]; [done|..].
      * apply Hs in H. exists "stages". apply (list_elem_of_lookup_2 _ 8).
        by rewrite <- H.
      * apply Hf in H. exists "focuses". apply (list_elem_of_lookup_2 _ 10).
        by rewrite <- H.
      * apply Hp in H. exists "profile_url". apply (list_elem_of_lookup_2 _ 15).
        by rewrite <- H.
  - intros record H.
    assert (Hdom : dom record = list_to_set basic_record_keys)
      by (by rewrite (object_literal_dom _ _ H)).
    split; [done|].
    split; [apply (object_literal_at _ _ 0 _ _ H); [reflexivity|absent_from_literal]|].
    split.
    + unfold detailed_only_keys, BasicOutputs.row_keys.
      repeat (apply Forall_cons; split;
              [split; [apply list_elem_of_In; cbn [In];
                       repeat (first [left; reflexivity | right])
                      |apply (object_literal_absent _ _ _ H); absent_from_literal]|]).
      apply Forall_nil_2.
    + rewrite Hdom. unfold basic_record_keys, BasicOutputs.row_keys.
      repeat (apply Forall_cons; split;
              [split; [apply elem_of_list_to_set, list_elem_of_In; cbn [In];
                       repeat (first [left; reflexivity | right])
                      |absent_from_literal]|]).
      apply Forall_nil_2.
Qed.

(** A listed investor, extracted and written. *)
Example basic_record_row :
  (record ← extractInvestorData acme_listing "2024-05-01T10:00:00.000Z";
   file ← BasicOutputs.saveToCSV [JObj record];
   Some (map read_record (lines file)))
  = Some [BasicOutputs.headers;
          ["inv-1"; "Acme, Inc."; ""; ""; ""; ""; "50000"; ""; "";
           "Seed, Series A"; ""; "true"; ""; ""; ""; ""; ""; "";
           ""; "https://connect.visible.vc/investors/acme"; "2024-05-01T10:00:00.000Z"]].
Proof. vm_compute. reflexivity. Qed.

End BasicExtraction.
